(** * Verification of the chunked counting engine of kazoe (src/src/count.rs)

    Shallow embedding of the byte-buffer scanners, the chunk planners, the
    parallel dispatch paths with their boundary corrections, the statistics
    aggregator and the comment / markdown filters.

    Conventions of the embedding:
    - a byte (Rust [u8]) and a Unicode scalar value (Rust [char]) are both
      represented as [Z]; a buffer [&[u8]] is a [list Z];
    - [usize] is [nat]; [saturating_sub] is [nat] subtraction;
    - [data[i]] is [nth i data 0] (every index the code uses is in range),
      [data[a..b]] is [slice data a b];
    - the two process-wide constants are Section variables, so every parallel
      path is stated for an arbitrary configuration and then instantiated with
      [CHUNK_SIZE = 1024 * 1024] and [PARALLEL_THRESHOLD = 512 * 1024];
    - a [par_windows(2)] / [par_iter] reduction is a sequential reduction of
      the list of partial results: the reductions of the code (sum, max, set
      union, concatenation, bucket-wise sum) do not depend on the order;
    - [f64] values are idealised as real numbers ([R]);
    - [HashMap<usize, usize>] is [gmap nat nat], [HashSet<&str>] is a
      [gset] of code-point strings. *)

From Stdlib Require Import String.
From Stdlib Require Import ZArith Lia List Bool Reals Lra.

From stdpp Require Import base list gmap sorting.

Open Scope Z_scope.

(** ** Bytes, characters and UTF-8 *)

Definition LF : Z := 10.
Definition CR : Z := 13.

(** [u8::is_ascii_whitespace]: space, tab, line feed, form feed, carriage return. *)
Definition is_ascii_whitespace (b : Z) : bool :=
  (b =? 32) || (b =? 9) || (b =? 10) || (b =? 12) || (b =? 13).

(** [char::is_whitespace]: the Unicode White_Space property. *)
Definition is_whitespace (c : Z) : bool :=
  ((9 <=? c) && (c <=? 13)) || (c =? 32) || (c =? 133) || (c =? 160)
  || (c =? 5760) || ((8192 <=? c) && (c <=? 8202)) || (c =? 8232)
  || (c =? 8233) || (c =? 8239) || (c =? 8287) || (c =? 12288).

Definition in_range (lo hi b : Z) : bool := (lo <=? b) && (b <=? hi).
Definition is_cont (b : Z) : bool := in_range 128 191 b.

(** [std::str::from_utf8] followed by [chars()]: [Some] of the decoded scalar
    values when the buffer is well-formed UTF-8 (no overlong form, no
    surrogate, nothing above U+10FFFF), [None] otherwise. *)
Fixpoint from_utf8 (bs : list Z) : option (list Z) :=
  match bs with
  | [] => Some []
  | b0 :: r0 =>
    if b0 <? 128 then option_map (cons b0) (from_utf8 r0)
    else if in_range 194 223 b0 then
      match r0 with
      | b1 :: r1 =>
        if is_cont b1 then
          option_map (cons ((b0 - 192) * 64 + (b1 - 128))) (from_utf8 r1)
        else None
      | [] => None
      end
    else if in_range 224 239 b0 then
      match r0 with
      | b1 :: b2 :: r2 =>
        let ok1 := if b0 =? 224 then in_range 160 191 b1
                   else if b0 =? 237 then in_range 128 159 b1
                   else is_cont b1 in
        if ok1 && is_cont b2 then
          option_map (cons ((b0 - 224) * 4096 + (b1 - 128) * 64 + (b2 - 128)))
            (from_utf8 r2)
        else None
      | _ => None
      end
    else if in_range 240 244 b0 then
      match r0 with
      | b1 :: b2 :: b3 :: r3 =>
        let ok1 := if b0 =? 240 then in_range 144 191 b1
                   else if b0 =? 244 then in_range 128 143 b1
                   else is_cont b1 in
        if ok1 && is_cont b2 && is_cont b3 then
          option_map (cons ((b0 - 240) * 262144 + (b1 - 128) * 4096
                            + (b2 - 128) * 64 + (b3 - 128)))
            (from_utf8 r3)
        else None
      | _ => None
      end
    else None
  end.

(** UTF-8 encoding of one scalar value ([String::push], [as_bytes]). *)
Definition encode_char (c : Z) : list Z :=
  if c <? 128 then [c]
  else if c <? 2048 then [192 + c / 64; 128 + c mod 64]
  else if c <? 65536 then
    [224 + c / 4096; 128 + (c / 64) mod 64; 128 + c mod 64]
  else [240 + c / 262144; 128 + (c / 4096) mod 64; 128 + (c / 64) mod 64;
        128 + c mod 64].

Definition encode_utf8 (s : list Z) : list Z := flat_map encode_char s.

(** ** Slices and memchr *)

(** [data[a..b]]. *)
Definition slice (data : list Z) (a b : nat) : list Z :=
  firstn (b - a) (skipn a data).

(** [memchr::memchr_iter(needle, hay)]: the positions of [needle]. *)
Fixpoint memchr_iter_from (needle : Z) (hay : list Z) (i : nat) : list nat :=
  match hay with
  | [] => []
  | b :: hay' =>
    if b =? needle then i :: memchr_iter_from needle hay' (S i)
    else memchr_iter_from needle hay' (S i)
  end.

Definition memchr_iter (needle : Z) (hay : list Z) : list nat :=
  memchr_iter_from needle hay 0.

(** [memchr::memchr(needle, hay)]: the first position of [needle]. *)
Definition memchr (needle : Z) (hay : list Z) : option nat :=
  head (memchr_iter needle hay).

(** [windows(2)] of a boundary vector, as (start, end) pairs. *)
Fixpoint windows2 (bs : list nat) : list (nat * nat) :=
  match bs with
  | a :: ((b :: _) as rest) => (a, b) :: windows2 rest
  | _ => []
  end.

Definition sum_nat (l : list nat) : nat := fold_right Nat.add 0%nat l.

(** [data.par_chunks(chunk_size)]: consecutive pieces of [chunk_size] bytes,
    the last one possibly shorter ([fuel] is the buffer length). *)
Fixpoint par_chunks_aux (fuel chunk_size : nat) (data : list Z) : list (list Z) :=
  match fuel with
  | O => []
  | S fuel' =>
    match data with
    | [] => []
    | _ => firstn chunk_size data :: par_chunks_aux fuel' chunk_size (skipn chunk_size data)
    end
  end.

Definition par_chunks (data : list Z) (chunk_size : nat) : list (list Z) :=
  par_chunks_aux (length data) chunk_size data.

Open Scope nat_scope.

(** ** Per-chunk line scanners *)

(** Shared shape of [max_line_length_chunk], [collect_line_lengths_chunk] and
    [generate_histogram_chunk]: the record end, with a carriage return just
    before it dropped ([let mut end = pos; if end > prev && data[end - 1] ==
    b'\r' { end -= 1; }]). *)
Definition record_end (data : list Z) (prev pos : nat) : nat :=
  if (prev <? pos) && Z.eqb (nth (pos - 1) data 0%Z) CR then pos - 1 else pos.

(** The loop the three scanners share:
    [for pos in memchr_iter(b'\n', data) { ...; use(end - prev); prev = pos + 1 }]
    then [if prev < data.len() { let mut end = data.len(); ...; use(end - prev) }].
    [g] is what each scanner does with a record length. *)
Definition line_step {A} (g : A -> nat -> A) (data : list Z) : A * nat -> nat -> A * nat :=
  fun '(acc, prev) pos => (g acc (record_end data prev pos - prev), S pos).

Definition fold_line_lengths {A} (g : A -> nat -> A) (a0 : A) (data : list Z) : A :=
  let '(acc, prev) := fold_left (line_step g data) (memchr_iter LF data) (a0, 0) in
  if prev <? length data then g acc (record_end data prev (length data) - prev)
  else acc.

(** [max_line_length_chunk]: [max_len = max_len.max(end - prev)]. *)
Definition max_line_length_chunk (data : list Z) : nat :=
  fold_line_lengths Nat.max 0 data.

(** [collect_line_lengths_chunk]: [lengths.push(end - prev)]. *)
Definition collect_line_lengths_chunk (data : list Z) : list nat :=
  fold_line_lengths (fun lengths l => lengths ++ [l]) [] data.

(** [*histogram.entry(bucket).or_insert(0) += count]. *)
Definition entry_add (h : gmap nat nat) (bucket count : nat) : gmap nat nat :=
  <[bucket := default 0 (h !! bucket) + count]> h.

(** [generate_histogram_chunk]: [bucket = ((end - prev) / 10) * 10], count one. *)
Definition generate_histogram_chunk (data : list Z) : gmap nat nat :=
  fold_line_lengths (fun h l => entry_add h ((l / 10) * 10) 1) ∅ data.

(** [count_blank_lines_chunk]. *)
Definition count_blank_lines_chunk (data : list Z) : nat :=
  let '(count, line_start) :=
    fold_left (fun '(count, line_start) pos =>
                 (if forallb is_ascii_whitespace (slice data line_start pos)
                  then S count else count, S pos))
      (memchr_iter LF data) (0, 0) in
  if (line_start <? length data) && forallb is_ascii_whitespace (skipn line_start data)
  then S count else count.

(** ** Chunk planners

    The two [while pos < data.len()] loops are run with a step budget
    [fuel]; [None] means the loop has not finished within the budget.  The
    UTF-8 planner does not terminate for [chunk_size = 0] on a non-empty
    buffer (it pushes the same offset forever), which the budget makes
    explicit. *)

(** [find_line_boundaries]'s loop. *)
Fixpoint find_line_boundaries_loop (fuel : nat) (data : list Z) (chunk_size pos : nat)
    (boundaries : list nat) : option (list nat) :=
  match fuel with
  | O => None
  | S fuel' =>
    if pos <? length data then
      let pos :=
        match memchr LF (skipn pos data) with
        | Some nl => pos + nl + 1
        | None => length data
        end in
      find_line_boundaries_loop fuel' data chunk_size (pos + chunk_size) (boundaries ++ [pos])
    else Some boundaries
  end.

(** [if *boundaries.last().unwrap() != data.len() { boundaries.push(data.len()) }]. *)
Definition close_boundaries (data : list Z) (boundaries : list nat) : list nat :=
  if Nat.eqb (default 0 (last boundaries)) (length data) then boundaries
  else boundaries ++ [length data].

Definition find_line_boundaries_fuel (fuel : nat) (data : list Z) (chunk_size : nat)
    : option (list nat) :=
  option_map (close_boundaries data)
    (find_line_boundaries_loop fuel data chunk_size chunk_size [0]).

(** [find_utf8_boundary]: [while p < data.len() && (data[p] & 0xC0) == 0x80 { p += 1 }]. *)
Fixpoint skip_continuation (rest : list Z) (p : nat) : nat :=
  match rest with
  | b :: rest' => if Z.eqb (Z.land b 192) 128 then skip_continuation rest' (S p) else p
  | [] => p
  end.

Definition find_utf8_boundary (data : list Z) (pos : nat) : nat :=
  if length data <=? pos then length data
  else skip_continuation (skipn pos data) pos.

(** [find_utf8_chunk_boundaries]'s loop. *)
Fixpoint find_utf8_chunk_boundaries_loop (fuel : nat) (data : list Z) (chunk_size pos : nat)
    (boundaries : list nat) : option (list nat) :=
  match fuel with
  | O => None
  | S fuel' =>
    if pos <? length data then
      let pos := find_utf8_boundary data pos in
      find_utf8_chunk_boundaries_loop fuel' data chunk_size (pos + chunk_size)
        (boundaries ++ [pos])
    else Some boundaries
  end.

Definition find_utf8_chunk_boundaries_fuel (fuel : nat) (data : list Z) (chunk_size : nat)
    : option (list nat) :=
  option_map (close_boundaries data)
    (find_utf8_chunk_boundaries_loop fuel data chunk_size chunk_size [0]).

(** The planners as the dispatcher calls them: with a budget of one step per
    byte plus one, which suffices whenever [chunk_size > 0] (see
    [find_utf8_chunk_boundaries_fuel_some]); the fallback [[0; len]] is only
    reached for [chunk_size = 0], which the dispatcher never uses. *)
Definition find_line_boundaries (data : list Z) (chunk_size : nat) : list nat :=
  default [0; length data] (find_line_boundaries_fuel (S (length data)) data chunk_size).

Definition find_utf8_chunk_boundaries (data : list Z) (chunk_size : nat) : list nat :=
  default [0; length data] (find_utf8_chunk_boundaries_fuel (S (length data)) data chunk_size).

(** ** Word, character and pattern scanners *)

(** The [in_word] loop of [count_words_in_chunk], over characters or bytes. *)
Fixpoint count_words_loop (is_ws : Z -> bool) (units : list Z) (in_word : bool)
    (count : nat) : nat :=
  match units with
  | [] => count
  | c :: units' =>
    if is_ws c then count_words_loop is_ws units' false count
    else if negb in_word then count_words_loop is_ws units' true (S count)
    else count_words_loop is_ws units' true count
  end.

(** [count_words_in_chunk]: [char::is_whitespace] on valid UTF-8, otherwise
    [u8::is_ascii_whitespace] byte by byte. *)
Definition count_words_in_chunk (chunk : list Z) : nat :=
  match from_utf8 chunk with
  | Some text => count_words_loop is_whitespace text false 0
  | None => count_words_loop is_ascii_whitespace chunk false 0
  end.

(** [str::split(|c| c.is_whitespace())]: n separators give n + 1 pieces. *)
Fixpoint split_whitespace (text : list Z) : list (list Z) :=
  match text with
  | [] => [[]]
  | c :: text' =>
    if is_whitespace c then [] :: split_whitespace text'
    else match split_whitespace text' with
         | w :: ws => (c :: w) :: ws
         | [] => [[c]]
         end
  end.

(** [.filter(|w| !w.is_empty()).collect::<HashSet<&str>>()]. *)
Definition word_set (text : list Z) : gset (list Z) :=
  list_to_set (filter (fun w : list Z => w <> []) (split_whitespace text)).

(** [std::str::from_utf8(chunk).map(|s| s.chars().count()).unwrap_or(chunk.len())]. *)
Definition chars_or_len (chunk : list Z) : nat :=
  match from_utf8 chunk with
  | Some s => length s
  | None => length chunk
  end.

Fixpoint is_prefix (pat hay : list Z) : bool :=
  match pat, hay with
  | [], _ => true
  | p :: pat', h :: hay' => Z.eqb p h && is_prefix pat' hay'
  | _ :: _, [] => false
  end.

(** [Finder::new(pattern).find_iter(hay)] for a non-empty pattern: the start
    positions of the leftmost non-overlapping occurrences; after a match at
    [i] the search resumes at [i + pattern.len()] ([skip] counts the bytes
    still covered by the last match). *)
Fixpoint find_iter_from (pat hay : list Z) (i skip : nat) : list nat :=
  match hay with
  | [] => []
  | _ :: hay' =>
    if 0 <? skip then find_iter_from pat hay' (S i) (skip - 1)
    else if is_prefix pat hay then i :: find_iter_from pat hay' (S i) (length pat - 1)
    else find_iter_from pat hay' (S i) 0
  end.

Definition find_iter (pat hay : list Z) : list nat := find_iter_from pat hay 0 0.

Definition is_empty (data : list Z) : bool := Nat.eqb (length data) 0.

Module Stats.
(** [pub struct Statistics]. *)
Record Statistics := {
  mean_line_length : R;
  median_line_length : nat;
  std_dev : R;
  min_line_length : nat;
  max_line_length : nat;
  empty_lines : nat
}.
End Stats.

Definition zero_statistics : Stats.Statistics :=
  {| Stats.mean_line_length := 0%R; Stats.median_line_length := 0;
     Stats.std_dev := 0%R; Stats.min_line_length := 0;
     Stats.max_line_length := 0; Stats.empty_lines := 0 |}.

(** The part of [calculate_statistics] after the line-length list is built.
    f64 is modelled by R: the variance is the exact sum of the squared
    deviations, which the source computes with [iter().sum()] below the
    threshold and with rayon's [par_iter().sum()] above it; the two f64
    summation orders are not distinguished here. *)
Definition statistics_of_lengths (line_lengths : list nat) : Stats.Statistics :=
  match line_lengths with
  | [] => zero_statistics
  | _ =>
    let empty_lines := length (filter (fun l => l = 0) line_lengths) in
    let sum := sum_nat line_lengths in
    let mean := (INR sum / INR (length line_lengths))%R in
    let variance :=
      (fold_right Rplus 0%R
         (map (fun len => let diff := (INR len - mean)%R in (diff * diff)%R) line_lengths)
       / INR (length line_lengths))%R in
    let std_dev := sqrt variance in
    let sorted := merge_sort (≤) line_lengths in
    let median :=
      if Nat.eqb (length sorted mod 2) 0 then
        let mid := length sorted / 2 in
        (nth (mid - 1) sorted 0 + nth mid sorted 0) / 2
      else nth (length sorted / 2) sorted 0 in
    {| Stats.mean_line_length := mean;
       Stats.median_line_length := median;
       Stats.std_dev := std_dev;
       Stats.min_line_length := nth 0 sorted 0;
       Stats.max_line_length := nth (length sorted - 1) sorted 0;
       Stats.empty_lines := empty_lines |}
  end.

(** Merge loop of [generate_histogram]:
    [for (bucket, count) in map { *histogram.entry(bucket).or_insert(0) += count }]. *)
Definition merge_histogram (histogram map : gmap nat nat) : gmap nat nat :=
  map_fold (fun bucket count h => entry_add h bucket count) histogram map.

(** ** The dispatcher, for a configuration (chunk size, threshold) *)

Section Engine.
Variable chunk_size : nat.
Variable parallel_threshold : nat.

(** The chunks of the UTF-8 aligned and of the line aligned plans. *)
Definition utf8_chunks (data : list Z) : list (list Z) :=
  map (fun '(a, b) => slice data a b) (windows2 (find_utf8_chunk_boundaries data chunk_size)).

Definition line_chunks (data : list Z) : list (list Z) :=
  map (fun '(a, b) => slice data a b) (windows2 (find_line_boundaries data chunk_size)).

Definition count_lines (data : list Z) : nat :=
  if length data <? parallel_threshold then length (memchr_iter LF data)
  else sum_nat (map (fun chunk => length (memchr_iter LF chunk)) (par_chunks data chunk_size)).

Definition count_blank_lines (data : list Z) : nat :=
  if is_empty data then 0
  else if length data <? parallel_threshold then count_blank_lines_chunk data
  else sum_nat (map count_blank_lines_chunk (line_chunks data)).

(** [count_all_words], with its over-count correction. *)
Definition count_all_words (data : list Z) : nat :=
  if is_empty data then 0
  else if length data <? parallel_threshold then count_words_in_chunk data
  else
    let chunk_boundaries := find_utf8_chunk_boundaries data chunk_size in
    let count := sum_nat (map count_words_in_chunk (utf8_chunks data)) in
    let overcounted :=
      length (filter (fun '(_, boundary) =>
                        (0 <? boundary) && (boundary <? length data)
                        && negb (is_ascii_whitespace (nth (boundary - 1) data 0%Z))
                        && negb (is_ascii_whitespace (nth boundary data 0%Z)))
                (windows2 chunk_boundaries)) in
    count - overcounted.

(** The rescan of one internal boundary in [count_pattern]. *)
Definition boundary_matches_at (data pattern : list Z) (boundary : nat) : nat :=
  let search_start := boundary - (length pattern - 1) in
  let search_end := Nat.min (boundary + length pattern - 1) (length data) in
  if search_end <=? search_start then 0
  else
    let region := slice data search_start search_end in
    length (filter (fun pos => let abs_start := search_start + pos in
                               (abs_start <? boundary) && (boundary <? abs_start + length pattern))
              (find_iter pattern region)).

(** [count_pattern]: fixed-size chunks, then the boundary rescans. *)
Definition count_pattern (data pattern : list Z) : nat :=
  if is_empty data || is_empty pattern then 0
  else if length data <? parallel_threshold then length (find_iter pattern data)
  else
    let num_chunks := (length data + chunk_size - 1) / chunk_size in
    let count :=
      sum_nat (map (fun i => let start := i * chunk_size in
                             let end_ := Nat.min ((i + 1) * chunk_size) (length data) in
                             length (find_iter pattern (slice data start end_)))
                 (seq 0 num_chunks)) in
    let boundary_matches :=
      sum_nat (map (fun i => boundary_matches_at data pattern (i * chunk_size))
                 (seq 1 (num_chunks - 1))) in
    count + boundary_matches.

Definition count_chars (data : list Z) : nat :=
  if is_empty data then 0
  else if length data <? parallel_threshold then chars_or_len data
  else sum_nat (map chars_or_len (utf8_chunks data)).

Definition max_line_length (data : list Z) : nat :=
  if is_empty data then 0
  else if length data <? parallel_threshold then max_line_length_chunk data
  else fold_right Nat.max 0 (map max_line_length_chunk (line_chunks data)).

(** [count_unique_words]: zero on invalid UTF-8; per-chunk sets merged. *)
Definition count_unique_words (data : list Z) : nat :=
  match from_utf8 data with
  | None => 0
  | Some text =>
    if length data <? parallel_threshold then size (word_set text)
    else
      let local_sets :=
        map (fun chunk => word_set (default [] (from_utf8 chunk))) (utf8_chunks data) in
      size (fold_left union local_sets ∅)
  end.

(** The [line_lengths] vector of [calculate_statistics]. *)
Definition line_lengths (data : list Z) : list nat :=
  if length data <? parallel_threshold then collect_line_lengths_chunk data
  else flat_map collect_line_lengths_chunk (line_chunks data).

Definition calculate_statistics (data : list Z) : Stats.Statistics :=
  if is_empty data then zero_statistics
  else statistics_of_lengths (line_lengths data).

Definition generate_histogram (data : list Z) : gmap nat nat :=
  if is_empty data then ∅
  else if length data <? parallel_threshold then generate_histogram_chunk data
  else fold_left merge_histogram (map generate_histogram_chunk (line_chunks data)) ∅.

End Engine.

(** The configuration of the program. *)
Definition CHUNK_SIZE : nat := 1024 * 1024.
Definition PARALLEL_THRESHOLD : nat := 512 * 1024.

(** ** Text helpers of the filters (over decoded characters) *)

(** [str::split_inclusive('\n')]: every piece ends with a line feed except
    possibly the last; no empty final piece. *)
Fixpoint split_inclusive_lf (cur text : list Z) : list (list Z) :=
  match text with
  | [] => match cur with [] => [] | _ => [cur] end
  | c :: text' =>
    if Z.eqb c LF then (cur ++ [c]) :: split_inclusive_lf [] text'
    else split_inclusive_lf (cur ++ [c]) text'
  end.

Definition strip_suffix (c : Z) (line : list Z) : option (list Z) :=
  match last line with
  | Some x => if Z.eqb x c then Some (removelast line) else None
  | None => None
  end.

(** [str::lines]: strip a final ["\n"], then a ["\r"] before it. *)
Definition strip_line_ending (line : list Z) : list Z :=
  match strip_suffix LF line with
  | None => line
  | Some l => match strip_suffix CR l with None => l | Some l' => l' end
  end.

Definition str_lines (text : list Z) : list (list Z) :=
  map strip_line_ending (split_inclusive_lf [] text).

(** [str::find(pat)]: the first position of [pat]. *)
Fixpoint find_from (pat s : list Z) (i : nat) : option nat :=
  if is_prefix pat s then Some i
  else match s with
       | [] => None
       | _ :: s' => find_from pat s' (S i)
       end.

Definition str_find (pat s : list Z) : option nat := find_from pat s 0.

Fixpoint drop_while (p : Z -> bool) (s : list Z) : list Z :=
  match s with
  | c :: s' => if p c then drop_while p s' else s
  | [] => []
  end.

(** [str::trim_end], [str::trim] ([char::is_whitespace]). *)
Definition trim_end (s : list Z) : list Z :=
  rev (drop_while is_whitespace (rev s)).
Definition trim (s : list Z) : list Z :=
  drop_while is_whitespace (trim_end s).

(** ** Comment filter *)

Definition m_slash_slash : list Z := [47; 47]%Z.     (* "//" *)
Definition m_hash : list Z := [35]%Z.                (* "#" *)
Definition m_dash_dash : list Z := [45; 45]%Z.       (* "--" *)
Definition m_block_open : list Z := [47; 42]%Z.      (* "/*" *)
Definition m_block_close : list Z := [42; 47]%Z.     (* "*/" *)
Definition m_doc_double : list Z := [34; 34; 34]%Z.  (* triple double quote *)
Definition m_doc_single : list Z := [39; 39; 39]%Z.  (* triple single quote *)

(** [find_comment_marker]'s [while let Some(pos) = s[start..].find(marker)]
    loop; each round moves [start] past the previous hit, so [S (length s)]
    rounds always suffice. *)
Fixpoint find_comment_marker_loop (fuel : nat) (s marker : list Z)
    (require_whitespace_before : bool) (start : nat) : option nat :=
  match fuel with
  | O => None
  | S fuel' =>
    match str_find marker (skipn start s) with
    | None => None
    | Some pos =>
      let abs_pos := start + pos in
      if negb require_whitespace_before || Nat.eqb abs_pos 0
         || match last (firstn abs_pos s) with
            | None => true
            | Some c => is_whitespace c
            end
      then Some abs_pos
      else find_comment_marker_loop fuel' s marker require_whitespace_before (S abs_pos)
    end
  end.

Definition find_comment_marker (s marker : list Z) (require_whitespace_before : bool)
    : option nat :=
  find_comment_marker_loop (S (length s)) s marker require_whitespace_before 0.

Inductive marker_kind :=
  | SingleSlash | SingleHash | SingleDash | Multi | DocDouble | DocSingle.

(** [markers.into_iter().filter_map(..).min_by_key(|(p, _)| *p)]: the first
    of the minimal positions. *)
Definition min_by_position (cands : list (option nat * marker_kind))
    : option (nat * marker_kind) :=
  fold_left (fun best cand =>
               match fst cand with
               | None => best
               | Some p =>
                 match best with
                 | None => Some (p, snd cand)
                 | Some (q, k) => if p <? q then Some (p, snd cand) else Some (q, k)
                 end
               end) cands None.

Definition earliest_marker (current : list Z) : option (nat * marker_kind) :=
  min_by_position
    [(find_comment_marker current m_slash_slash true, SingleSlash);
     (find_comment_marker current m_hash true, SingleHash);
     (find_comment_marker current m_dash_dash true, SingleDash);
     (find_comment_marker current m_block_open true, Multi);
     (str_find m_doc_double current, DocDouble);
     (str_find m_doc_single current, DocSingle)].

(** The three state variables of [filter_code_comments]. *)
Record comment_state := {
  in_multiline_c_comment : bool;
  in_python_docstring : bool;
  docstring_marker : list Z
}.

Definition initial_comment_state : comment_state :=
  {| in_multiline_c_comment := false; in_python_docstring := false;
     docstring_marker := [] |}.

(** The [while !current.is_empty()] loop over one line; every round that does
    not [break] shortens [current], so [S (length line)] rounds suffice. *)
Fixpoint comment_line_loop (fuel : nat) (st : comment_state) (current line_output : list Z)
    : comment_state * list Z :=
  match fuel with
  | O => (st, line_output)
  | S fuel' =>
    match current with
    | [] => (st, line_output)
    | _ =>
      if in_multiline_c_comment st then
        match str_find m_block_close current with
        | Some pos =>
          comment_line_loop fuel'
            {| in_multiline_c_comment := false; in_python_docstring := in_python_docstring st;
               docstring_marker := docstring_marker st |}
            (skipn (pos + 2) current) line_output
        | None => (st, line_output)
        end
      else if in_python_docstring st then
        match str_find (docstring_marker st) current with
        | Some pos =>
          comment_line_loop fuel'
            {| in_multiline_c_comment := in_multiline_c_comment st; in_python_docstring := false;
               docstring_marker := docstring_marker st |}
            (skipn (pos + length (docstring_marker st)) current) line_output
        | None => (st, line_output)
        end
      else
        match earliest_marker current with
        | Some (pos, marker_type) =>
          let line_output := line_output ++ firstn pos current in
          match marker_type with
          | SingleSlash | SingleHash | SingleDash => (st, line_output)
          | Multi =>
            let after := skipn (pos + 2) current in
            match str_find m_block_close after with
            | Some end_pos => comment_line_loop fuel' st (skipn (end_pos + 2) after) line_output
            | None =>
              ({| in_multiline_c_comment := true; in_python_docstring := in_python_docstring st;
                  docstring_marker := docstring_marker st |}, line_output)
            end
          | DocDouble =>
            let after := skipn (pos + 3) current in
            match str_find m_doc_double after with
            | Some end_pos => comment_line_loop fuel' st (skipn (end_pos + 3) after) line_output
            | None =>
              ({| in_multiline_c_comment := in_multiline_c_comment st; in_python_docstring := true;
                  docstring_marker := m_doc_double |}, line_output)
            end
          | DocSingle =>
            let after := skipn (pos + 3) current in
            match str_find m_doc_single after with
            | Some end_pos => comment_line_loop fuel' st (skipn (end_pos + 3) after) line_output
            | None =>
              ({| in_multiline_c_comment := in_multiline_c_comment st; in_python_docstring := true;
                  docstring_marker := m_doc_single |}, line_output)
            end
          end
        | None => (st, line_output ++ current)
        end
    end
  end.

(** [for line in text.lines()]: a line is emitted, trimmed at the end and
    followed by ['\n'], when something other than whitespace is left. *)
Fixpoint filter_comment_lines (st : comment_state) (lines : list (list Z)) : list Z :=
  match lines with
  | [] => []
  | line :: lines' =>
    let '(st', line_output) := comment_line_loop (S (length line)) st line [] in
    let trimmed := trim_end line_output in
    (if forallb is_whitespace trimmed then [] else encode_utf8 trimmed ++ [LF])
      ++ filter_comment_lines st' lines'
  end.

Definition filter_code_comments (data : list Z) : list Z :=
  match from_utf8 data with
  | None => data
  | Some text => filter_comment_lines initial_comment_state (str_lines text)
  end.

(** ** Markdown filter *)

Definition m_fence : list Z := [96; 96; 96]%Z.  (* three backticks *)

(** [filter_inline_code]: drop the characters between paired backticks. *)
Fixpoint filter_inline_code_loop (line : list Z) (in_code : bool) : list Z :=
  match line with
  | [] => []
  | c :: line' =>
    if Z.eqb c 96 then filter_inline_code_loop line' (negb in_code)
    else if negb in_code then c :: filter_inline_code_loop line' in_code
    else filter_inline_code_loop line' in_code
  end.

Definition filter_inline_code (line : list Z) : list Z := filter_inline_code_loop line false.

Fixpoint filter_markdown_lines (in_code_block : bool) (lines : list (list Z)) : list Z :=
  match lines with
  | [] => []
  | line :: lines' =>
    if is_prefix m_fence (trim line) then filter_markdown_lines (negb in_code_block) lines'
    else if in_code_block then filter_markdown_lines in_code_block lines'
    else encode_utf8 (filter_inline_code line) ++ [LF] ++ filter_markdown_lines in_code_block lines'
  end.

Definition filter_markdown_code (data : list Z) : list Z :=
  match from_utf8 data with
  | None => data
  | Some text => filter_markdown_lines false (str_lines text)
  end.

(** ** The binary-file check *)

(** [is_binary]: a NUL byte among the first [min(len, 8192)] bytes. *)
Definition BINARY_SAMPLE_SIZE : nat := 8 * 1024.

Definition is_binary (data : list Z) : bool :=
  let sample_size := Nat.min (length data) BINARY_SAMPLE_SIZE in
  let sample := firstn sample_size data in
  match memchr 0%Z sample with
  | Some _ => true
  | None => false
  end.

(** ** Command line (src/src/config.rs) *)

Module Config.

(** [clap_complete::Shell]. *)
Inductive Shell := Bash | Elvish | Fish | PowerShell | Zsh.

(** [pub struct Args]. *)
Record Args := {
  files : list String.string;
  lines : bool;
  bytes : bool;
  chars : bool;
  words : bool;
  max_line_length : bool;
  pattern : option String.string;
  files0_from : option String.string;
  generate_completion : option Shell;
  json : bool;
  stats : bool;
  unique : bool;
  recursive : bool;
  exclude : list String.string;
  fast : bool;
  histogram : bool;
  code : bool;
  markdown : bool;
  verbose : bool;
  timing : bool;
  encoding : option String.string;
  progress : bool
}.

(** The condition of [normalize]: no count or report was asked for. *)
Definition nothing_selected (a : Args) : bool :=
  negb (lines a) && negb (bytes a) && negb (chars a) && negb (words a)
  && negb (max_line_length a) && match pattern a with None => true | Some _ => false end && negb (stats a)
  && negb (unique a) && negb (histogram a).

(** [Args::normalize]: with nothing selected, select lines, bytes and words. *)
Definition normalize (a : Args) : Args :=
  if nothing_selected a then
    {| files := files a; lines := true; bytes := true; chars := chars a;
       words := true; max_line_length := max_line_length a; pattern := pattern a;
       files0_from := files0_from a; generate_completion := generate_completion a;
       json := json a; stats := stats a; unique := unique a; recursive := recursive a;
       exclude := exclude a; fast := fast a; histogram := histogram a; code := code a;
       markdown := markdown a; verbose := verbose a; timing := timing a;
       encoding := encoding a; progress := progress a |}
  else a.

End Config.

(** ** Totals and file lists (src/src/main.rs) *)

Module Main.

(** [struct Statistics] of the output. *)
Record Statistics := {
  mean_line_length : R;
  median_line_length : nat;
  std_dev : R;
  min_line_length : nat;
  max_line_length : nat;
  empty_lines : nat
}.

(** [struct Counts]. *)
Record Counts := {
  lines : nat;
  words : nat;
  bytes : nat;
  chars : nat;
  max_line_length_count : nat;
  blank_lines : nat;
  pattern : nat;
  unique_words : nat;
  statistics : option Statistics;
  histogram : option (gmap nat nat)
}.

(** [Counts::new]. *)
Definition new : Counts :=
  {| lines := 0; words := 0; bytes := 0; chars := 0; max_line_length_count := 0;
     blank_lines := 0; pattern := 0; unique_words := 0; statistics := None;
     histogram := None |}.

(** [Counts::add]: sums, the maximum for [max_line_length]; [statistics] and
    [histogram] of [self] are kept. *)
Definition add (self other : Counts) : Counts :=
  {| lines := lines self + lines other;
     words := words self + words other;
     bytes := bytes self + bytes other;
     chars := chars self + chars other;
     max_line_length_count := Nat.max (max_line_length_count self) (max_line_length_count other);
     blank_lines := blank_lines self + blank_lines other;
     pattern := pattern self + pattern other;
     unique_words := unique_words self + unique_words other;
     statistics := statistics self;
     histogram := histogram self |}.

(** The total of [main]: [let mut total = Counts::new();] then
    [total.add(&file_result.counts)] for every file read without error. *)
Definition total (results : list (option Counts)) : Counts :=
  fold_left (fun total r => match r with Some c => add total c | None => total end)
    results new.

(** [content.split(|&b| b == 0)]: n NUL bytes give n + 1 pieces. *)
Fixpoint split_nul (content : list Z) : list (list Z) :=
  match content with
  | [] => [[]]
  | b :: content' =>
    if Z.eqb b 0 then [] :: split_nul content'
    else match split_nul content' with
         | w :: ws => (b :: w) :: ws
         | [] => [[b]]
         end
  end.

(** The names [read_files_from_file] returns for the bytes it read:
    [.filter(|s| !s.is_empty()).filter_map(|s| std::str::from_utf8(s).ok())]. *)
Definition files0_names (content : list Z) : list (list Z) :=
  omap from_utf8 (filter (fun s : list Z => s <> []) (split_nul content)).

End Main.

(** ASCII text as bytes, for the concrete inputs below. *)
Definition bytes_of (s : String.string) : list Z :=
  map (fun a => Z.of_nat (Ascii.nat_of_ascii a)) (String.list_ascii_of_string s).

(** ** Vocabulary of the statements *)

(** Bucketing of a list of record lengths as [generate_histogram_chunk] does
    it, one record at a time. *)
Definition histogram_of_lengths (lengths : list nat) : gmap nat nat :=
  fold_left (fun h l => entry_add h ((l / 10) * 10) 1) lengths ∅.

Definition list_max (l : list nat) : nat := fold_right Nat.max 0 l.

(** The offsets of a plan other than its first and its last. *)
Definition internal_boundaries (bs : list nat) : list nat := removelast (tl bs).

(** A byte of the buffer at an offset is a UTF-8 continuation byte
    ([(b & 0xC0) == 0x80], top two bits [10]). *)
Definition continuation_at (data : list Z) (o : nat) : bool :=
  Z.eqb (Z.land (nth o data 0%Z) 192) 128.

(** Invariant of a chunk plan: strictly increasing, from [0] to [len]. *)
Definition plan_shape (data : list Z) (bs : list nat) : Prop :=
  StronglySorted lt bs /\ head bs = Some 0 /\ last bs = Some (length data).

(** The step of the loop of [count_blank_lines_chunk] over the line feeds. *)
Definition blank_step (data : list Z) : nat * nat -> nat -> nat * nat :=
  fun '(count, line_start) pos =>
    (if forallb is_ascii_whitespace (slice data line_start pos) then S count else count, S pos).

(** All the characters of [l] occur in [line]. *)
Definition within (line l : list Z) : Prop := forall c, In c l -> In c line.

(** 1 when the buffer ends in a record without line feed, else 0. *)
Definition unterminated (d : list Z) : nat :=
  match last d with Some b => if Z.eqb b LF then 0 else 1 | None => 0 end.

(** 1 when the text starts with a non-whitespace unit, else 0. *)
Definition starts_word (is_ws : Z -> bool) (t : list Z) : nat :=
  match t with c :: _ => if is_ws c then 0 else 1 | [] => 0 end.

(** A fence line of [filter_markdown_code]: its trimmed text starts with three backticks. *)
Definition is_fence_line (l : list Z) : bool := is_prefix m_fence (trim l).

(** The number of fence lines before the line at index [i]. *)
Definition fences_before (lines : list (list Z)) (i : nat) : nat :=
  length (List.filter is_fence_line (firstn i lines)).

(** The lines outside fenced blocks, in order: not fence lines, and preceded
    by an even number of fence lines. *)
Definition outside_fence_lines (lines : list (list Z)) : list (list Z) :=
  map snd (List.filter (fun p => negb (is_fence_line (snd p)) && Nat.even (fences_before lines (fst p)))
             (combine (seq 0 (length lines)) lines)).

(** Bucket-wise sum of two histogram entries. *)
Definition add_opt (a b : option nat) : option nat :=
  match a, b with
  | None, None => None
  | _, _ => Some (default 0 a + default 0 b)
  end.

(** A three-record buffer ["ab\ncd\ne"] and a buffer with a two-byte
    character ([0xC3 0xA9], e acute) followed by ASCII. *)
Definition sample_lines : list Z := bytes_of "ab
cd
e"%string.
Definition sample_utf8 : list Z := [97; 195; 169; 98; 99]%Z.

(** [b"abc\r"]: one unterminated record ending in a carriage return. *)
Definition sample_cr : list Z := [97; 98; 99; 13]%Z.

(** [b"a\nbb\nccc\ndddd"]: line lengths [1; 2; 3; 4]. *)
Definition sample_stats_buffer : list Z :=
  [97; 10; 98; 98; 10; 99; 99; 99; 10; 100; 100; 100; 100]%Z.

(** [CHUNK_SIZE] bytes [a] then one [b]: one word, cut before the [b]. *)
Definition split_word_buffer : list Z := repeat 97%Z CHUNK_SIZE ++ [98]%Z.

(** [CHUNK_SIZE - 1] bytes [x] then [aaa]: the pattern [aa] straddles the cut. *)
Definition straddle_pattern_buffer : list Z := repeat 120%Z (CHUNK_SIZE - 1) ++ [97; 97; 97]%Z.

(** [U+00E9], then [a]s up to [CHUNK_SIZE] bytes, then the invalid byte [0xFF]. *)
Definition invalid_tail_buffer : list Z := [195; 169]%Z ++ repeat 97%Z (CHUNK_SIZE - 2) ++ [255]%Z.

(** ** Proofs: lists and memchr *)

Lemma memchr_iter_from_app (n : Z) (x y : list Z) (i : nat) :
  memchr_iter_from n (x ++ y) i = memchr_iter_from n x i ++ memchr_iter_from n y (i + length x).
Proof.
  revert i; induction x as [|b x IH]; intros i; simpl.
  - now rewrite Nat.add_0_r.
  - rewrite IH. replace (S i + length x) with (i + S (length x)) by lia.
    destruct (b =? n)%Z; reflexivity.
Qed.

Lemma memchr_iter_from_shift (n : Z) (y : list Z) (i k : nat) :
  memchr_iter_from n y (k + i) = map (Nat.add k) (memchr_iter_from n y i).
Proof.
  revert i; induction y as [|b y IH]; intros i; simpl; [reflexivity|].
  replace (S (k + i)) with (k + S i) by lia.
  destruct (b =? n)%Z; simpl; rewrite IH; reflexivity.
Qed.

Lemma memchr_iter_from_bounds (n : Z) (x : list Z) (i : nat) :
  Forall (fun p => i <= p < i + length x) (memchr_iter_from n x i).
Proof.
  revert i; induction x as [|b x IH]; intros i; simpl; [constructor|].
  specialize (IH (S i)).
  assert (Forall (fun p => i <= p < i + S (length x)) (memchr_iter_from n x (S i))).
  { eapply Forall_impl; [exact IH|]. simpl; lia. }
  destruct (b =? n)%Z; [constructor; [lia|]|]; assumption.
Qed.

Lemma memchr_iter_from_none (n : Z) (x : list Z) (i : nat) :
  ~ In n x -> memchr_iter_from n x i = [].
Proof.
  revert i; induction x as [|b x IH]; intros i Hn; simpl; [reflexivity|].
  destruct (Z.eqb_spec b n) as [->|_].
  - exfalso; apply Hn; left; reflexivity.
  - apply IH. intros H; apply Hn; right; exact H.
Qed.

Lemma memchr_iter_snoc_last (n : Z) (x : list Z) :
  last (memchr_iter n (x ++ [n])) = Some (length x).
Proof.
  unfold memchr_iter. rewrite memchr_iter_from_app. simpl.
  rewrite Z.eqb_refl. apply last_snoc.
Qed.

Lemma slice_app_skipn (data : list Z) (a b : nat) :
  a <= b <= length data -> slice data a b ++ skipn b data = skipn a data.
Proof.
  intros H. unfold slice.
  replace (skipn b data) with (skipn (b - a) (skipn a data)).
  - apply firstn_skipn.
  - rewrite skipn_skipn. f_equal. lia.
Qed.

Lemma firstn_S_snoc (l : list Z) (k : nat) :
  k < length l -> firstn (S k) l = firstn k l ++ [nth k l 0%Z].
Proof.
  revert l; induction k as [|k IH]; intros [|b l] H; simpl in *; try lia.
  - reflexivity.
  - rewrite IH by lia. reflexivity.
Qed.

Lemma slice_snoc (data : list Z) (a b : nat) :
  a < b <= length data -> slice data a b = slice data a (b - 1) ++ [nth (b - 1) data 0%Z].
Proof.
  intros H. unfold slice.
  replace (b - a) with (S (b - 1 - a)) by lia.
  rewrite firstn_S_snoc by (rewrite length_skipn; lia).
  rewrite nth_skipn. do 3 f_equal. lia.
Qed.

Lemma length_slice (data : list Z) (a b : nat) :
  a <= b <= length data -> length (slice data a b) = b - a.
Proof. intros H. unfold slice. rewrite length_firstn, length_skipn. lia. Qed.

(** ** Proofs: the shared line loop *)

Section LineLoop.
Context {A : Type} (g : A -> nat -> A).

Lemma record_end_app_l (x y : list Z) (p q : nat) :
  q <= length x -> record_end (x ++ y) p q = record_end x p q.
Proof.
  intros Hq. unfold record_end.
  destruct (p <? q) eqn:E; simpl; [|reflexivity].
  apply Nat.ltb_lt in E. rewrite app_nth1 by lia. reflexivity.
Qed.

Lemma record_end_app_r (x y : list Z) (p q : nat) :
  record_end (x ++ y) (length x + p) (length x + q) = length x + record_end y p q.
Proof.
  unfold record_end.
  destruct (p <? q) eqn:E.
  - apply Nat.ltb_lt in E.
    replace (length x + p <? length x + q) with true by (symmetry; apply Nat.ltb_lt; lia).
    rewrite app_nth2 by lia.
    replace (length x + q - 1 - length x) with (q - 1) by lia.
    simpl. destruct (nth (q - 1) y 0%Z =? CR)%Z; simpl; lia.
  - apply Nat.ltb_ge in E.
    replace (length x + p <? length x + q) with false by (symmetry; apply Nat.ltb_ge; lia).
    reflexivity.
Qed.

Lemma fold_line_step_app_l (x y : list Z) (ps : list nat) (s : A * nat) :
  Forall (fun p => p < length x) ps ->
  fold_left (line_step g (x ++ y)) ps s = fold_left (line_step g x) ps s.
Proof.
  revert s; induction ps as [|q ps IH]; intros [acc prev] H; simpl; [reflexivity|].
  inversion H; subst.
  rewrite record_end_app_l by lia. apply IH; assumption.
Qed.

Lemma fold_line_step_app_r (x y : list Z) (ps : list nat) (acc : A) (p : nat) :
  fold_left (line_step g (x ++ y)) (map (Nat.add (length x)) ps) (acc, length x + p)
  = let r := fold_left (line_step g y) ps (acc, p) in (fst r, length x + snd r).
Proof.
  revert acc p; induction ps as [|q ps IH]; intros acc p; simpl; [reflexivity|].
  rewrite record_end_app_r.
  replace (length x + record_end y p q - (length x + p)) with (record_end y p q - p) by lia.
  replace (S (length x + q)) with (length x + S q) by lia.
  apply IH.
Qed.

Lemma fold_line_step_prev (d : list Z) (ps : list nat) (acc : A) (p q : nat) :
  last ps = Some q -> snd (fold_left (line_step g d) ps (acc, p)) = S q.
Proof.
  revert acc p; induction ps as [|r ps IH]; intros acc p H; simpl in *; [discriminate|].
  destruct ps as [|r' ps'].
  - simpl. injection H as ->. reflexivity.
  - apply IH. exact H.
Qed.

(** Cutting the buffer right after a line feed splits the loop in two. *)
Lemma fold_line_lengths_app (a0 : A) (x y : list Z) :
  (x = [] \/ exists x', x = x' ++ [LF]) ->
  fold_line_lengths g a0 (x ++ y) = fold_line_lengths g (fold_line_lengths g a0 x) y.
Proof.
  intros Hx. unfold fold_line_lengths, memchr_iter.
  rewrite memchr_iter_from_app, Nat.add_0_l.
  replace (length x) with (length x + 0) at 1 by lia.
  rewrite memchr_iter_from_shift, fold_left_app.
  rewrite (fold_line_step_app_l x y (memchr_iter_from LF x 0))
    by (eapply Forall_impl; [apply memchr_iter_from_bounds|]; simpl; lia).
  destruct (fold_left (line_step g x) (memchr_iter_from LF x 0) (a0, 0)) as [accx prevx] eqn:Ex.
  assert (prevx = length x) as ->.
  { destruct Hx as [->|[x' ->]].
    - simpl in Ex. injection Ex as _ <-. reflexivity.
    - pose proof (memchr_iter_snoc_last LF x') as Hl. unfold memchr_iter in Hl.
      pose proof (fold_line_step_prev (x' ++ [LF]) _ a0 0 _ Hl) as Hp.
      rewrite Ex in Hp. simpl in Hp. rewrite Hp, length_app. simpl. lia. }
  rewrite Nat.ltb_irrefl.
  pose proof (fold_line_step_app_r x y (memchr_iter_from LF y 0) accx 0) as Hr.
  rewrite Nat.add_0_r in Hr. rewrite Hr.
  destruct (fold_left (line_step g y) (memchr_iter_from LF y 0) (accx, 0)) as [accy prevy].
  simpl. rewrite length_app.
  destruct (prevy <? length y) eqn:E.
  - replace (length x + prevy <? length x + length y) with true
      by (symmetry; apply Nat.ltb_lt; apply Nat.ltb_lt in E; lia).
    rewrite record_end_app_r. f_equal. lia.
  - replace (length x + prevy <? length x + length y) with false
      by (symmetry; apply Nat.ltb_ge; apply Nat.ltb_ge in E; lia).
    reflexivity.
Qed.

Lemma fold_line_step_lengths (d : list Z) (ps : list nat) (l : list nat) (a : A) (p : nat) :
  fold_left (line_step g d) ps (fold_left g l a, p)
  = let r := fold_left (line_step (fun lengths l => lengths ++ [l]) d) ps (l, p) in
    (fold_left g (fst r) a, snd r).
Proof.
  revert l p; induction ps as [|q ps IH]; intros l p; simpl; [reflexivity|].
  rewrite <- IH. f_equal. f_equal. rewrite fold_left_app. reflexivity.
Qed.

(** Each of the three scanners is a fold over the line-length list. *)
Lemma fold_line_lengths_collect (a0 : A) (d : list Z) :
  fold_line_lengths g a0 d = fold_left g (collect_line_lengths_chunk d) a0.
Proof.
  unfold collect_line_lengths_chunk, fold_line_lengths.
  pose proof (fold_line_step_lengths d (memchr_iter LF d) [] a0 0) as H.
  simpl in H. rewrite H.
  destruct (fold_left (line_step (fun lengths l => lengths ++ [l]) d) (memchr_iter LF d) ([], 0))
    as [ls prev].
  simpl. destruct (prev <? length d); [rewrite fold_left_app|]; reflexivity.
Qed.

End LineLoop.

Lemma fold_left_snoc (l acc : list nat) :
  fold_left (fun lengths l => lengths ++ [l]) l acc = acc ++ l.
Proof.
  revert acc; induction l as [|x l IH]; intros acc; simpl.
  - now rewrite app_nil_r.
  - rewrite IH, <- app_assoc. reflexivity.
Qed.

Lemma fold_line_lengths_snoc (acc : list nat) (d : list Z) :
  fold_line_lengths (fun lengths l => lengths ++ [l]) acc d = acc ++ collect_line_lengths_chunk d.
Proof. rewrite fold_line_lengths_collect. apply fold_left_snoc. Qed.

Lemma max_line_length_chunk_collect (d : list Z) :
  max_line_length_chunk d = list_max (collect_line_lengths_chunk d).
Proof.
  unfold max_line_length_chunk. rewrite fold_line_lengths_collect.
  generalize (collect_line_lengths_chunk d) as l.
  assert (forall l a, fold_left Nat.max l a = Nat.max a (list_max l)) as H.
  { induction l as [|x l IH]; intros a; simpl; [lia|]. rewrite IH. lia. }
  intros l. rewrite H. reflexivity.
Qed.

Lemma generate_histogram_chunk_collect (d : list Z) :
  generate_histogram_chunk d = histogram_of_lengths (collect_line_lengths_chunk d).
Proof. unfold generate_histogram_chunk. apply fold_line_lengths_collect. Qed.

(** A record that carries no line feed and ends in a carriage return. *)
Lemma collect_line_lengths_last_record (r : list Z) :
  r <> [] -> ~ In LF r -> last r = Some CR ->
  collect_line_lengths_chunk r = [length r - 1].
Proof.
  intros Hne Hlf Hcr.
  unfold collect_line_lengths_chunk, fold_line_lengths, memchr_iter.
  rewrite memchr_iter_from_none by exact Hlf. simpl.
  destruct r as [|b r']; [congruence|]. simpl length.
  replace (0 <? S (length r')) with true by (symmetry; apply Nat.ltb_lt; lia).
  assert (nth (S (length r') - 1) (b :: r') 0%Z = CR) as Hn.
  { apply last_Some in Hcr. destruct Hcr as [r0 Hr].
    assert (length (b :: r') = length r0 + 1) as Hlen by (rewrite Hr, length_app; reflexivity).
    rewrite Hr. rewrite app_nth2 by (simpl in Hlen; lia).
    simpl in Hlen. replace (S (length r') - 1 - length r0) with 0 by lia. reflexivity. }
  unfold record_end. rewrite Hn, Z.eqb_refl.
  replace (0 <? S (length r')) with true by (symmetry; apply Nat.ltb_lt; lia).
  simpl. f_equal. lia.
Qed.

(** ** Proofs: the chunk planners *)

Lemma StronglySorted_snoc (l : list nat) (x : nat) :
  StronglySorted lt l -> (forall y, In y l -> y < x) -> StronglySorted lt (l ++ [x]).
Proof.
  induction l as [|a l IH]; intros Hs Hlt; simpl.
  - repeat constructor.
  - inversion Hs as [|? ? Hs' Hf]; subst. constructor.
    + apply IH; [exact Hs'|]. intros y Hy. apply Hlt. right; exact Hy.
    + apply Forall_app. split; [exact Hf|]. constructor; [|constructor].
      apply Hlt. left; reflexivity.
Qed.

Lemma head_snoc (l : list nat) (x a : nat) : head l = Some a -> head (l ++ [x]) = Some a.
Proof. destruct l; simpl; [discriminate|auto]. Qed.

Lemma memchr_iter_from_spec (n : Z) (x : list Z) (i p : nat) :
  In p (memchr_iter_from n x i) -> i <= p < i + length x /\ nth (p - i) x 0%Z = n.
Proof.
  revert i p; induction x as [|b x IH]; intros i p H; simpl in H; [contradiction|].
  assert (forall q, In q (memchr_iter_from n x (S i)) -> i <= q < i + length (b :: x)
                    /\ nth (q - i) (b :: x) 0%Z = n) as Hrec.
  { intros q Hq. destruct (IH (S i) q Hq) as [Hb Hn]. simpl. split; [lia|].
    replace (q - i) with (S (q - S i)) by lia. exact Hn. }
  destruct (Z.eqb_spec b n) as [->|_].
  - destruct H as [<-|H]; [|auto]. simpl. split; [lia|]. rewrite Nat.sub_diag. reflexivity.
  - auto.
Qed.

Lemma memchr_some (data : list Z) (pos nl : nat) :
  memchr LF (skipn pos data) = Some nl ->
  pos + nl < length data /\ nth (pos + nl) data 0%Z = LF.
Proof.
  unfold memchr, memchr_iter. intros H.
  destruct (memchr_iter_from LF (skipn pos data) 0) as [|q qs] eqn:E; simpl in H; [discriminate|].
  injection H as ->.
  destruct (memchr_iter_from_spec LF (skipn pos data) 0 nl) as [Hb Hn].
  { rewrite E. left; reflexivity. }
  rewrite length_skipn in Hb. rewrite nth_skipn, Nat.sub_0_r in Hn. split; [lia|exact Hn].
Qed.

(** Invariant of the planners' loops. *)
Definition plan_inv (data : list Z) (aligned : nat -> Prop) (chunk_size pos : nat)
    (bs : list nat) : Prop :=
  StronglySorted lt bs /\ head bs = Some 0 /\
  (forall o, In o bs -> o <= length data /\ (o = 0 \/ o = length data \/ aligned o)) /\
  exists l, last bs = Some l /\ (forall o, In o bs -> o <= l) /\ pos = l + chunk_size.

Lemma plan_inv_init (data : list Z) (aligned : nat -> Prop) (chunk_size : nat) :
  plan_inv data aligned chunk_size chunk_size [0].
Proof.
  split; [repeat constructor|]. split; [reflexivity|]. split.
  - intros o [<-|[]]. lia.
  - exists 0. split; [reflexivity|]. split; [intros o [<-|[]]; lia|lia].
Qed.

Lemma plan_inv_push (data : list Z) (aligned : nat -> Prop) (chunk_size pos p : nat)
    (bs : list nat) :
  plan_inv data aligned chunk_size pos bs ->
  (exists l, last bs = Some l /\ l < p) -> p <= length data ->
  (p = length data \/ aligned p) ->
  plan_inv data aligned chunk_size (p + chunk_size) (bs ++ [p]).
Proof.
  intros (Hs & Hh & Ho & l & Hl & Hle & Hpos) (l' & Hl' & Hlt) Hp Ha.
  rewrite Hl in Hl'. injection Hl' as <-.
  split; [apply StronglySorted_snoc; [exact Hs|]; intros y Hy; specialize (Hle y Hy); lia|].
  split; [apply head_snoc; exact Hh|]. split.
  - intros o Ho'. apply in_app_or in Ho'. destruct Ho' as [Ho'|[<-|[]]]; [auto|].
    split; [exact Hp|]. tauto.
  - exists p. split; [apply last_snoc|]. split; [|reflexivity].
    intros o Ho'. apply in_app_or in Ho'. destruct Ho' as [Ho'|[<-|[]]]; [|lia].
    specialize (Hle o Ho'). lia.
Qed.

Lemma close_boundaries_shape (data : list Z) (aligned : nat -> Prop) (chunk_size pos : nat)
    (bs : list nat) :
  plan_inv data aligned chunk_size pos bs ->
  plan_shape data (close_boundaries data bs) /\
  (forall o, In o (close_boundaries data bs) -> o < length data -> o = 0 \/ aligned o).
Proof.
  intros (Hs & Hh & Ho & l & Hl & Hle & _).
  unfold close_boundaries. rewrite Hl. simpl.
  destruct (Nat.eqb_spec l (length data)) as [->|Hne].
  - split; [split; [exact Hs|split; [exact Hh|exact Hl]]|].
    intros o Hin Hlt. destruct (Ho o Hin) as [_ [H|[H|H]]]; [auto|lia|auto].
  - assert (l < length data) as Hlt.
    { assert (In l bs) by (apply last_Some in Hl; destruct Hl as [l0 ->];
                           apply in_or_app; right; left; reflexivity).
      destruct (Ho l H) as [H1 _]. lia. }
    split; [split; [|split; [apply head_snoc; exact Hh|apply last_snoc]]|].
    + apply StronglySorted_snoc; [exact Hs|]. intros y Hy. specialize (Hle y Hy). lia.
    + intros o Hin Hlt'. apply in_app_or in Hin. destruct Hin as [Hin|[<-|[]]]; [|lia].
      destruct (Ho o Hin) as [_ [H|[H|H]]]; [auto|lia|auto].
Qed.

Definition after_lf (data : list Z) (o : nat) : Prop := nth (o - 1) data 0%Z = LF.
Definition utf8_aligned (data : list Z) (o : nat) : Prop := continuation_at data o = false.

Lemma find_line_boundaries_loop_inv (data : list Z) (chunk_size : nat) :
  forall fuel pos bs res,
  plan_inv data (after_lf data) chunk_size pos bs ->
  find_line_boundaries_loop fuel data chunk_size pos bs = Some res ->
  exists pos', plan_inv data (after_lf data) chunk_size pos' res.
Proof.
  induction fuel as [|fuel IH]; intros pos bs res Hinv Hrun; simpl in Hrun; [discriminate|].
  destruct (pos <? length data) eqn:Hlt; [|injection Hrun as <-; exists pos; exact Hinv].
  apply Nat.ltb_lt in Hlt.
  pose proof Hinv as (Hs & Hh & Ho & l & Hl & Hle & Hpos).
  destruct (memchr LF (skipn pos data)) as [nl|] eqn:Hm.
  - destruct (memchr_some data pos nl Hm) as [Hb Hn].
    eapply IH; [|exact Hrun].
    apply plan_inv_push with (pos := pos); [exact Hinv| |lia|].
    + exists l. split; [exact Hl|lia].
    + right. unfold after_lf. replace (pos + nl + 1 - 1) with (pos + nl) by lia. exact Hn.
  - eapply IH; [|exact Hrun].
    apply plan_inv_push with (pos := pos); [exact Hinv| |lia|].
    + exists l. split; [exact Hl|lia].
    + left; reflexivity.
Qed.

Lemma find_line_boundaries_fuel_shape (fuel : nat) (data : list Z) (chunk_size : nat)
    (bs : list nat) :
  find_line_boundaries_fuel fuel data chunk_size = Some bs ->
  plan_shape data bs /\ (forall o, In o bs -> o < length data -> o = 0 \/ after_lf data o).
Proof.
  unfold find_line_boundaries_fuel. intros H.
  destruct (find_line_boundaries_loop fuel data chunk_size chunk_size [0]) as [res|] eqn:E;
    simpl in H; [|discriminate]. injection H as <-.
  destruct (find_line_boundaries_loop_inv data chunk_size fuel chunk_size [0] res
              (plan_inv_init _ _ _) E) as [pos' Hinv].
  eapply close_boundaries_shape; exact Hinv.
Qed.

Lemma default_plan_shape (data : list Z) (P : nat -> Prop) :
  data <> [] ->
  plan_shape data [0; length data] /\
  (forall o, In o [0; length data] -> o < length data -> o = 0 \/ P o).
Proof.
  intros Hne. assert (0 < length data) by (destruct data; [congruence|simpl; lia]).
  split; [split; [repeat constructor; simpl; lia|split; reflexivity]|].
  intros o [<-|[<-|[]]] Hlt; [auto|lia].
Qed.

(** The line plan the dispatcher uses, for a non-empty buffer. *)
Lemma find_line_boundaries_shape (data : list Z) (chunk_size : nat) :
  data <> [] ->
  plan_shape data (find_line_boundaries data chunk_size) /\
  (forall o, In o (find_line_boundaries data chunk_size) -> o < length data ->
             o = 0 \/ after_lf data o).
Proof.
  intros Hne. unfold find_line_boundaries.
  destruct (find_line_boundaries_fuel (S (length data)) data chunk_size) as [bs|] eqn:E; simpl.
  - eapply find_line_boundaries_fuel_shape; exact E.
  - apply default_plan_shape; exact Hne.
Qed.

Lemma skip_continuation_spec (rest : list Z) (p : nat) :
  p <= skip_continuation rest p <= p + length rest /\
  (skip_continuation rest p < p + length rest ->
   Z.land (nth (skip_continuation rest p - p) rest 0%Z) 192 <> 128%Z).
Proof.
  revert p; induction rest as [|b rest IH]; intros p; simpl.
  - split; lia.
  - destruct (Z.eqb_spec (Z.land b 192) 128) as [Hc|Hc].
    + destruct (IH (S p)) as [Hb Hn]. split; [lia|]. intros Hlt.
      specialize (Hn ltac:(lia)).
      replace (skip_continuation rest (S p) - p) with (S (skip_continuation rest (S p) - S p))
        by lia. exact Hn.
    + split; [lia|]. intros _. rewrite Nat.sub_diag. exact Hc.
Qed.

Lemma find_utf8_boundary_spec (data : list Z) (pos : nat) :
  let p := find_utf8_boundary data pos in
  Nat.min pos (length data) <= p <= length data /\
  (pos < length data -> pos <= p) /\
  (p < length data -> continuation_at data p = false).
Proof.
  unfold find_utf8_boundary, continuation_at.
  destruct (length data <=? pos) eqn:E.
  - apply Nat.leb_le in E. split; [lia|]. split; [lia|]. lia.
  - apply Nat.leb_gt in E.
    destruct (skip_continuation_spec (skipn pos data) pos) as [Hb Hn].
    rewrite length_skipn in Hb, Hn. split; [lia|]. split; [lia|].
    intros Hlt. specialize (Hn ltac:(lia)). rewrite nth_skipn in Hn.
    replace (pos + (skip_continuation (skipn pos data) pos - pos))
      with (skip_continuation (skipn pos data) pos) in Hn by lia.
    apply Z.eqb_neq. exact Hn.
Qed.

Lemma find_utf8_boundary_fixed (data : list Z) (p : nat) :
  p < length data -> continuation_at data p = false -> find_utf8_boundary data p = p.
Proof.
  intros Hlt Hc. unfold find_utf8_boundary.
  replace (length data <=? p) with false by (symmetry; apply Nat.leb_gt; lia).
  unfold continuation_at in Hc.
  pose proof (nth_skipn p data 0 0%Z) as Hn. rewrite Nat.add_0_r in Hn.
  destruct (skipn p data) as [|b t] eqn:E.
  - pose proof (length_skipn p data) as Hl. rewrite E in Hl. simpl in Hl. lia.
  - simpl in Hn |- *. rewrite Hn, Hc. reflexivity.
Qed.

(** With [chunk_size = 0] the UTF-8 loop, once it pushes an offset that is
    already aligned and inside the buffer, pushes it forever. *)
Lemma find_utf8_chunk_boundaries_loop_stuck (data : list Z) (pos : nat) :
  pos < length data -> continuation_at data pos = false ->
  forall fuel bs, find_utf8_chunk_boundaries_loop fuel data 0 pos bs = None.
Proof.
  intros Hlt Hc fuel. induction fuel as [|fuel IH]; intros bs; simpl; [reflexivity|].
  replace (pos <? length data) with true by (symmetry; apply Nat.ltb_lt; exact Hlt).
  rewrite find_utf8_boundary_fixed by assumption. rewrite Nat.add_0_r. apply IH.
Qed.

Lemma find_utf8_chunk_boundaries_loop_inv (data : list Z) (chunk_size : nat) :
  forall fuel pos bs res,
  plan_inv data (utf8_aligned data) chunk_size pos bs ->
  find_utf8_chunk_boundaries_loop fuel data chunk_size pos bs = Some res ->
  exists pos', plan_inv data (utf8_aligned data) chunk_size pos' res.
Proof.
  induction fuel as [|fuel IH]; intros pos bs res Hinv Hrun; simpl in Hrun; [discriminate|].
  destruct (pos <? length data) eqn:Hlt; [|injection Hrun as <-; exists pos; exact Hinv].
  apply Nat.ltb_lt in Hlt.
  destruct (find_utf8_boundary_spec data pos) as (Hb & Hge & Ha).
  set (p := find_utf8_boundary data pos) in *.
  pose proof Hinv as (Hs & Hh & Ho & l & Hl & Hle & Hpos).
  assert (l < p \/ (chunk_size = 0 /\ p = pos /\ p < length data
                    /\ continuation_at data p = false)) as [Hgt|(Hcs & Hp & Hplt & Hpc)].
  { destruct (Nat.eq_dec p l) as [He|He]; [|left; specialize (Hge Hlt); lia].
    right. specialize (Hge Hlt).
    assert (p < length data) as Hplt.
    { destruct fuel as [|f]; [simpl in Hrun; discriminate|].
      destruct (Nat.lt_ge_cases p (length data)) as [H|H]; [exact H|].
      exfalso. lia. }
    split; [lia|]. split; [lia|]. split; [exact Hplt|]. apply Ha; exact Hplt. }
  - eapply IH; [|exact Hrun].
    apply plan_inv_push with (pos := pos); [exact Hinv| |lia|].
    + exists l. split; [exact Hl|exact Hgt].
    + destruct (Nat.lt_ge_cases p (length data)) as [H|H]; [right; apply Ha; exact H|left; lia].
  - subst chunk_size. clearbody p. subst p.
    rewrite Nat.add_0_r in Hrun.
    rewrite (find_utf8_chunk_boundaries_loop_stuck data pos Hplt Hpc) in Hrun. discriminate.
Qed.

Lemma find_utf8_chunk_boundaries_fuel_shape (fuel : nat) (data : list Z) (chunk_size : nat)
    (bs : list nat) :
  find_utf8_chunk_boundaries_fuel fuel data chunk_size = Some bs ->
  plan_shape data bs /\ (forall o, In o bs -> o < length data -> o = 0 \/ utf8_aligned data o).
Proof.
  unfold find_utf8_chunk_boundaries_fuel. intros H.
  destruct (find_utf8_chunk_boundaries_loop fuel data chunk_size chunk_size [0]) as [res|] eqn:E;
    simpl in H; [|discriminate]. injection H as <-.
  destruct (find_utf8_chunk_boundaries_loop_inv data chunk_size fuel chunk_size [0] res
              (plan_inv_init _ _ _) E) as [pos' Hinv].
  eapply close_boundaries_shape; exact Hinv.
Qed.

Lemma find_utf8_chunk_boundaries_shape (data : list Z) (chunk_size : nat) :
  data <> [] ->
  plan_shape data (find_utf8_chunk_boundaries data chunk_size) /\
  (forall o, In o (find_utf8_chunk_boundaries data chunk_size) -> o < length data ->
             o = 0 \/ utf8_aligned data o).
Proof.
  intros Hne. unfold find_utf8_chunk_boundaries.
  destruct (find_utf8_chunk_boundaries_fuel (S (length data)) data chunk_size) as [bs|] eqn:E;
    simpl.
  - eapply find_utf8_chunk_boundaries_fuel_shape; exact E.
  - apply default_plan_shape; exact Hne.
Qed.

(** The budget of the dispatcher is enough: the line loop always finishes,
    the UTF-8 loop finishes for a positive chunk size. *)
Lemma find_line_boundaries_fuel_some (data : list Z) (chunk_size : nat) :
  exists bs, find_line_boundaries_fuel (S (length data)) data chunk_size = Some bs.
Proof.
  unfold find_line_boundaries_fuel.
  assert (forall fuel pos bs, length data - pos < fuel ->
            exists res, find_line_boundaries_loop fuel data chunk_size pos bs = Some res) as H.
  { induction fuel as [|fuel IH]; intros pos bs Hf; [lia|]. simpl.
    destruct (pos <? length data) eqn:Hlt; [|eauto].
    apply Nat.ltb_lt in Hlt. apply IH.
    destruct (memchr LF (skipn pos data)) as [nl|] eqn:Hm; [|lia].
    destruct (memchr_some data pos nl Hm). lia. }
  destruct (H (S (length data)) chunk_size [0] ltac:(lia)) as [res ->]. eauto.
Qed.

Lemma find_utf8_chunk_boundaries_fuel_some (data : list Z) (chunk_size : nat) :
  0 < chunk_size ->
  exists bs, find_utf8_chunk_boundaries_fuel (S (length data)) data chunk_size = Some bs.
Proof.
  intros Hcs. unfold find_utf8_chunk_boundaries_fuel.
  assert (forall fuel pos bs, length data - pos < fuel ->
            exists res, find_utf8_chunk_boundaries_loop fuel data chunk_size pos bs = Some res) as H.
  { induction fuel as [|fuel IH]; intros pos bs Hf; [lia|]. simpl.
    destruct (pos <? length data) eqn:Hlt; [|eauto].
    apply Nat.ltb_lt in Hlt. apply IH.
    destruct (find_utf8_boundary_spec data pos) as (_ & Hge & _). specialize (Hge Hlt). lia. }
  destruct (H (S (length data)) chunk_size [0] ltac:(lia)) as [res ->]. eauto.
Qed.

(** ** C7: chunk plan invariants *)

(** Claim C7. For every buffer, chunk size and step budget, a plan the
    planners return is strictly increasing, starts at 0 and ends at the
    buffer length; under UTF-8 alignment no offset other than the initial 0
    lands on a continuation byte (top bits 10); under line alignment every
    offset other than the initial 0 and the final one (that is, every
    offset below the length) immediately follows a line feed.  Only the
    last offset equals the length, so "below the length" is "not the
    final one". *)
Theorem chunk_plans_invariant (fuel : nat) (data : list Z) (chunk_size : nat) :
  (forall bs, find_utf8_chunk_boundaries_fuel fuel data chunk_size = Some bs ->
     plan_shape data bs /\
     forall o, In o bs -> o < length data -> o = 0 \/ continuation_at data o = false) /\
  (forall bs, find_line_boundaries_fuel fuel data chunk_size = Some bs ->
     plan_shape data bs /\
     forall o, In o bs -> o < length data -> o = 0 \/ nth (o - 1) data 0%Z = LF).
Proof.
  split; intros bs H.
  - exact (find_utf8_chunk_boundaries_fuel_shape fuel data chunk_size bs H).
  - exact (find_line_boundaries_fuel_shape fuel data chunk_size bs H).
Qed.

Lemma chunk_plans_invariant_witness :
  find_line_boundaries_fuel 9 sample_lines 2 = Some [0; 3; 6; 7] /\
  find_utf8_chunk_boundaries_fuel 9 sample_utf8 2 = Some [0; 3; 5] /\
  (plan_shape sample_lines [0; 3; 6; 7] /\
   forall o, In o [0; 3; 6; 7] -> o < length sample_lines ->
             o = 0 \/ nth (o - 1) sample_lines 0%Z = LF) /\
  (plan_shape sample_utf8 [0; 3; 5] /\
   forall o, In o [0; 3; 5] -> o < length sample_utf8 ->
             o = 0 \/ continuation_at sample_utf8 o = false).
Proof.
  split; [reflexivity|]. split; [reflexivity|]. split.
  - apply (proj2 (chunk_plans_invariant 9 sample_lines 2)). reflexivity.
  - apply (proj1 (chunk_plans_invariant 9 sample_utf8 2)). reflexivity.
Defined.

(** ** C9: the empty buffer *)

(** Claim C9. On an empty buffer every statistic is its zero value, for
    every configuration and every pattern: the counters give 0, the
    histogram is the empty map and the statistics are all zero. *)
Theorem empty_buffer_zero (chunk_size parallel_threshold : nat) (pattern : list Z) :
  count_lines chunk_size parallel_threshold [] = 0 /\
  count_blank_lines chunk_size parallel_threshold [] = 0 /\
  count_all_words chunk_size parallel_threshold [] = 0 /\
  count_unique_words chunk_size parallel_threshold [] = 0 /\
  count_chars chunk_size parallel_threshold [] = 0 /\
  count_pattern chunk_size parallel_threshold [] pattern = 0 /\
  max_line_length chunk_size parallel_threshold [] = 0 /\
  generate_histogram chunk_size parallel_threshold [] = ∅ /\
  (let s := calculate_statistics chunk_size parallel_threshold [] in
   Stats.mean_line_length s = 0%R /\ Stats.median_line_length s = 0 /\
   Stats.std_dev s = 0%R /\ Stats.min_line_length s = 0 /\
   Stats.max_line_length s = 0 /\ Stats.empty_lines s = 0).
Proof.
  repeat split; try reflexivity.
  - unfold count_lines. simpl. destruct (0 <? parallel_threshold); reflexivity.
  - unfold count_unique_words. simpl. destruct (0 <? parallel_threshold); reflexivity.
Qed.

(** ** Proofs: the line-aligned parallel paths *)

Lemma StronglySorted_le_last (l : list nat) (m : nat) :
  StronglySorted lt l -> last l = Some m -> forall o, In o l -> o <= m.
Proof.
  induction l as [|a l IH]; intros Hs Hl o Hin; [contradiction|].
  inversion Hs as [|? ? Hs' Hf]; subst.
  destruct l as [|b l'].
  - simpl in Hl. injection Hl as <-. destruct Hin as [<-|[]]. lia.
  - rewrite last_cons_cons in Hl.
    assert (Hm : In m (b :: l')).
    { apply last_Some in Hl. destruct Hl as [l0 Hl0]. rewrite Hl0. apply in_or_app. right; left; reflexivity. }
    destruct Hin as [<-|Hin]; [|apply IH; assumption].
    rewrite List.Forall_forall in Hf. specialize (Hf m Hm). lia.
Qed.

Lemma fold_line_lengths_nil {A} (g : A -> nat -> A) (acc : A) :
  fold_line_lengths g acc [] = acc.
Proof. reflexivity. Qed.

(** Scanning the chunks of a line plan one after the other is scanning the
    buffer. *)
Lemma fold_line_lengths_plan {A} (g : A -> nat -> A) (data : list Z) :
  forall bs a acc,
  StronglySorted lt (a :: bs) -> last (a :: bs) = Some (length data) ->
  (forall o, In o bs -> o < length data -> after_lf data o) ->
  fold_line_lengths g acc (skipn a data)
  = fold_left (fun acc c => fold_line_lengths g acc c)
      (map (fun '(a, b) => slice data a b) (windows2 (a :: bs))) acc.
Proof.
  induction bs as [|b bs IH]; intros a acc Hs Hl Hlf.
  - simpl in Hl. injection Hl as ->. rewrite skipn_all. reflexivity.
  - pose proof (StronglySorted_le_last _ _ Hs Hl) as Hle.
    inversion Hs as [|? ? Hs' Hf]; subst. inversion Hf as [|? ? Hab _]; subst.
    assert (Hb : b <= length data) by (apply Hle; right; left; reflexivity).
    simpl windows2. simpl map. simpl fold_left.
    rewrite <- (slice_app_skipn data a b) by lia.
    destruct (Nat.eq_dec b (length data)) as [Heq|Hne].
    + assert (bs = []) as ->.
      { destruct bs as [|c bs']; [reflexivity|].
        rewrite last_cons_cons in Hl.
        inversion Hs' as [|? ? _ Hf']; subst.
        assert (c <= length data).
        { apply (StronglySorted_le_last _ _ Hs' Hl). right; left; reflexivity. }
        inversion Hf'; lia. }
      rewrite Heq, skipn_all, app_nil_r. reflexivity.
    + rewrite fold_line_lengths_app.
      * apply IH; [exact Hs'| |].
        { destruct bs; [exact Hl|rewrite last_cons_cons in Hl; exact Hl]. }
        intros o Ho. apply Hlf. right; exact Ho.
      * right. exists (slice data a (b - 1)).
        rewrite (slice_snoc data a b) by lia.
        rewrite (Hlf b ltac:(left; reflexivity) ltac:(lia)). reflexivity.
Qed.

Lemma fold_line_lengths_line_chunks {A} (g : A -> nat -> A) (chunk_size : nat)
    (data : list Z) (acc : A) :
  data <> [] ->
  fold_line_lengths g acc data
  = fold_left (fun acc c => fold_line_lengths g acc c) (line_chunks chunk_size data) acc.
Proof.
  intros Hne. unfold line_chunks.
  destruct (find_line_boundaries_shape data chunk_size Hne) as ((Hs & Hh & Hl) & Hlf).
  destruct (find_line_boundaries data chunk_size) as [|a bs]; [discriminate|].
  simpl in Hh. injection Hh as ->.
  rewrite <- (fold_line_lengths_plan g data bs 0 acc Hs Hl).
  - reflexivity.
  - intros o Ho Hlt. destruct (Hlf o ltac:(right; exact Ho) Hlt) as [->|H]; [|exact H].
    inversion Hs as [|? ? _ Hf]; subst. rewrite List.Forall_forall in Hf.
    specialize (Hf 0 Ho). lia.
Qed.

Lemma entry_add_lookup (h : gmap nat nat) (b c k : nat) :
  entry_add h b c !! k = if decide (b = k) then Some (default 0 (h !! b) + c) else h !! k.
Proof.
  unfold entry_add. destruct (decide (b = k)) as [<-|Hne].
  - apply lookup_insert_eq.
  - apply lookup_insert_ne. exact Hne.
Qed.

Lemma merge_histogram_lookup (h m : gmap nat nat) (k : nat) :
  merge_histogram h m !! k = add_opt (h !! k) (m !! k).
Proof.
  unfold merge_histogram. revert k.
  apply (map_fold_weak_ind (fun r m => forall k, r !! k = add_opt (h !! k) (m !! k))).
  - intros k. rewrite lookup_empty. destruct (h !! k); simpl; [f_equal; lia|reflexivity].
  - intros i x m' r Hi IH k. rewrite entry_add_lookup, IH.
    destruct (decide (i = k)) as [<-|Hne].
    + rewrite lookup_insert_eq, Hi. destruct (h !! i); simpl; f_equal; lia.
    + rewrite lookup_insert_ne by exact Hne. apply IH.
Qed.

Lemma add_opt_assoc (a b c : option nat) :
  add_opt a (add_opt b c) = add_opt (add_opt a b) c.
Proof. destruct a, b, c; simpl; try reflexivity; f_equal; lia. Qed.

Lemma add_opt_None_r (a : option nat) : add_opt a None = a.
Proof. destruct a; simpl; [f_equal; lia|reflexivity]. Qed.

Lemma entry_add_one_lookup (h : gmap nat nat) (b k : nat) :
  entry_add h b 1 !! k = add_opt (h !! k) (entry_add ∅ b 1 !! k).
Proof.
  rewrite !entry_add_lookup, lookup_empty.
  destruct (decide (b = k)) as [<-|Hne].
  - destruct (h !! b); simpl; f_equal; lia.
  - rewrite lookup_empty, add_opt_None_r. reflexivity.
Qed.

Lemma histogram_fold_lookup (l : list nat) :
  forall (h : gmap nat nat) k,
  fold_left (fun h l => entry_add h ((l / 10) * 10) 1) l h !! k
  = add_opt (h !! k) (fold_left (fun h l => entry_add h ((l / 10) * 10) 1) l ∅ !! k).
Proof.
  induction l as [|x l IH]; intros h k; cbn [fold_left].
  - rewrite lookup_empty, add_opt_None_r. reflexivity.
  - rewrite IH, (IH (entry_add ∅ _ _)), add_opt_assoc, <- entry_add_one_lookup.
    reflexivity.
Qed.

Lemma merge_histogram_chunk (h : gmap nat nat) (c : list Z) :
  merge_histogram h (generate_histogram_chunk c)
  = fold_line_lengths (fun h l => entry_add h ((l / 10) * 10) 1) h c.
Proof.
  apply map_eq. intros k.
  rewrite merge_histogram_lookup, generate_histogram_chunk_collect, fold_line_lengths_collect.
  unfold histogram_of_lengths. symmetry. apply histogram_fold_lookup.
Qed.

(** On the line-aligned statistics the parallel path and the sequential
    scan agree. *)
Lemma line_lengths_sequential (chunk_size parallel_threshold : nat) (data : list Z) :
  line_lengths chunk_size parallel_threshold data = collect_line_lengths_chunk data.
Proof.
  unfold line_lengths. destruct (length data <? parallel_threshold); [reflexivity|].
  destruct data as [|b data']; [reflexivity|].
  set (data := b :: data').
  assert (data <> []) as Hne by discriminate.
  unfold collect_line_lengths_chunk.
  rewrite (fold_line_lengths_line_chunks _ chunk_size data [] Hne).
  generalize (line_chunks chunk_size data) as cs.
  assert (forall cs acc, fold_left (fun acc c => fold_line_lengths (fun lengths l => lengths ++ [l]) acc c) cs acc
                         = acc ++ flat_map collect_line_lengths_chunk cs) as H.
  { induction cs as [|c cs IH]; intros acc; simpl; [now rewrite app_nil_r|].
    rewrite IH, fold_line_lengths_snoc, app_assoc. reflexivity. }
  intros cs. rewrite H. reflexivity.
Qed.

Lemma max_line_length_sequential (chunk_size parallel_threshold : nat) (data : list Z) :
  max_line_length chunk_size parallel_threshold data = max_line_length_chunk data.
Proof.
  unfold max_line_length. destruct (is_empty data) eqn:E.
  - unfold is_empty in E. apply Nat.eqb_eq, length_zero_iff_nil in E. subst. reflexivity.
  - destruct (length data <? parallel_threshold); [reflexivity|].
    assert (data <> []) as Hne by (intros ->; discriminate).
    unfold max_line_length_chunk at 2.
    rewrite (fold_line_lengths_line_chunks _ chunk_size data 0 Hne).
    generalize (line_chunks chunk_size data) as cs.
    assert (forall cs acc, fold_left (fun acc c => fold_line_lengths Nat.max acc c) cs acc
                           = Nat.max acc (fold_right Nat.max 0 (map max_line_length_chunk cs))) as H.
    { induction cs as [|c cs IH]; intros acc; simpl; [lia|].
      rewrite IH. unfold max_line_length_chunk.
      rewrite !fold_line_lengths_collect.
      assert (forall l a, fold_left Nat.max l a = Nat.max a (list_max l)) as Hf.
      { induction l as [|x l IHl]; intros a; simpl; [lia|]. rewrite IHl. lia. }
      rewrite !Hf. lia. }
    intros cs. rewrite H. lia.
Qed.

Lemma generate_histogram_sequential (chunk_size parallel_threshold : nat) (data : list Z) :
  generate_histogram chunk_size parallel_threshold data = generate_histogram_chunk data.
Proof.
  unfold generate_histogram. destruct (is_empty data) eqn:E.
  - unfold is_empty in E. apply Nat.eqb_eq, length_zero_iff_nil in E. subst. reflexivity.
  - destruct (length data <? parallel_threshold); [reflexivity|].
    assert (data <> []) as Hne by (intros ->; discriminate).
    unfold generate_histogram_chunk at 2.
    rewrite (fold_line_lengths_line_chunks _ chunk_size data ∅ Hne).
    generalize (line_chunks chunk_size data) as cs.
    assert (forall cs acc, fold_left merge_histogram (map generate_histogram_chunk cs) acc
              = fold_left (fun acc c => fold_line_lengths (fun h l => entry_add h ((l / 10) * 10) 1) acc c) cs acc) as H.
    { induction cs as [|c cs IH]; intros acc; simpl; [reflexivity|].
      rewrite merge_histogram_chunk. apply IH. }
    intros cs. apply H.
Qed.

(** ** C10: a trailing carriage return of an unterminated final record *)

(** C10. Let a buffer be [pre ++ r], where [pre] is empty or ends in a
    newline and the final record [r] is non-empty, holds no newline and
    ends in a carriage return. Then the line-length list consumed by
    [calculate_statistics] ends with [length r - 1]: the trailing carriage
    return is not counted. [max_line_length] and [generate_histogram] are
    the maximum and the histogram of that same list. This holds for every
    chunk size and threshold, so on both the sequential and the parallel
    path. In particular [max_line_length b"abc\r" = 3]. *)
Theorem trailing_cr_excluded (chunk_size parallel_threshold : nat) (pre r : list Z) :
  (pre = [] \/ exists pre', pre = pre' ++ [LF]) ->
  r <> [] -> ~ In LF r -> last r = Some CR ->
  exists ls,
    line_lengths chunk_size parallel_threshold (pre ++ r) = ls ++ [length r - 1] /\
    max_line_length chunk_size parallel_threshold (pre ++ r) = list_max (ls ++ [length r - 1]) /\
    generate_histogram chunk_size parallel_threshold (pre ++ r)
      = histogram_of_lengths (ls ++ [length r - 1]) /\
    max_line_length CHUNK_SIZE PARALLEL_THRESHOLD sample_cr = 3.
Proof.
  intros Hpre Hr Hlf Hcr.
  assert (Hc : collect_line_lengths_chunk (pre ++ r)
               = collect_line_lengths_chunk pre ++ [length r - 1]).
  { unfold collect_line_lengths_chunk at 1.
    rewrite fold_line_lengths_app by exact Hpre.
    rewrite !fold_line_lengths_snoc, (collect_line_lengths_last_record r) by assumption.
    reflexivity. }
  exists (collect_line_lengths_chunk pre).
  rewrite line_lengths_sequential, max_line_length_sequential, generate_histogram_sequential,
    max_line_length_chunk_collect, generate_histogram_chunk_collect, Hc.
  split; [reflexivity|split; [reflexivity|split; [reflexivity|]]].
  rewrite max_line_length_sequential. vm_compute. reflexivity.
Qed.

Lemma trailing_cr_excluded_witness :
  (exists ls,
    line_lengths 2 1 (bytes_of "ab
" ++ sample_cr) = ls ++ [length sample_cr - 1] /\
    max_line_length 2 1 (bytes_of "ab
" ++ sample_cr) = list_max (ls ++ [length sample_cr - 1]) /\
    generate_histogram 2 1 (bytes_of "ab
" ++ sample_cr) = histogram_of_lengths (ls ++ [length sample_cr - 1]) /\
    max_line_length CHUNK_SIZE PARALLEL_THRESHOLD sample_cr = 3).
Proof.
  apply (trailing_cr_excluded 2 1 (bytes_of "ab
") sample_cr).
  - right. exists (bytes_of "ab"). reflexivity.
  - discriminate.
  - simpl. intuition discriminate.
  - reflexivity.
Defined.

(** ** Proofs: the word-count correction *)

Lemma StronglySorted_lt_last (l : list nat) (m : nat) :
  StronglySorted lt (l ++ [m]) -> forall x, In x l -> x < m.
Proof.
  induction l as [|a l IH]; intros Hs x Hx; [contradiction|].
  inversion Hs as [|? ? Hs' Hf]; subst.
  destruct Hx as [<-|Hx]; [|apply IH; assumption].
  rewrite List.Forall_forall in Hf. apply Hf. apply in_or_app. right; left; reflexivity.
Qed.

Lemma filter_windows2_snd (f : nat -> bool) (bs : list nat) :
  length (filter (fun '(_, b) => Is_true (f b)) (windows2 bs)) = length (filter (fun b => Is_true (f b)) (tl bs)).
Proof.
  induction bs as [|a bs IH]; [reflexivity|].
  destruct bs as [|b rest]; [reflexivity|].
  change (windows2 (a :: b :: rest)) with ((a, b) :: windows2 (b :: rest)).
  cbn [tl] in *. rewrite !filter_cons.
  destruct (decide (Is_true (f b))); cbn [length]; rewrite IH; reflexivity.
Qed.

Lemma filter_ext_In {A} (P Q : A -> Prop) `{!forall x, Decision (P x), !forall x, Decision (Q x)}
    (l : list A) :
  (forall x, In x l -> P x <-> Q x) -> filter P l = filter Q l.
Proof.
  induction l as [|a l IH]; intros Hpq; [reflexivity|].
  rewrite !filter_cons. rewrite IH by (intros x Hx; apply Hpq; right; exact Hx).
  specialize (Hpq a (or_introl eq_refl)).
  destruct (decide (P a)) as [Ha|Ha], (decide (Q a)) as [Hb|Hb]; try reflexivity; tauto.
Qed.

(** The boundaries strictly inside the buffer are the internal ones. *)
Lemma internal_boundaries_filter (data : list Z) (bs : list nat) (P : nat -> bool) :
  data <> [] -> plan_shape data bs ->
  length (filter (fun b => Is_true ((0 <? b) && (b <? length data) && P b)) (tl bs))
  = length (filter (fun b => Is_true (P b)) (internal_boundaries bs)).
Proof.
  intros Hne (Hs & Hh & Hl). unfold internal_boundaries.
  destruct bs as [|z rest]; [discriminate|]. injection Hh as ->. cbn [tl].
  assert (Hlen : length data <> 0) by (destruct data; [contradiction|discriminate]).
  destruct rest as [|r rest']; [simpl in Hl; injection Hl; lia|].
  rewrite last_cons_cons in Hl. set (rest := r :: rest') in *. clearbody rest. clear r rest'.
  apply last_Some in Hl as [l0 Hl0].
  assert (Hrm : removelast rest = l0) by (rewrite Hl0; apply removelast_last).
  rewrite Hrm, Hl0, filter_app, length_app.
  inversion Hs as [|? ? Hs' Hf]; subst rest.
  assert (Hpos : forall x, In x l0 -> 0 < x).
  { intros x Hx. rewrite List.Forall_forall in Hf. apply Hf, in_or_app. left; exact Hx. }
  pose proof (StronglySorted_lt_last _ _ Hs') as Hlt.
  rewrite filter_cons_False by (rewrite Nat.ltb_irrefl, andb_false_r, andb_false_l; simpl; tauto).
  simpl length. rewrite Nat.add_0_r.
  f_equal. apply filter_ext_In. intros x Hx.
  rewrite (proj2 (Nat.ltb_lt 0 x) (Hpos x Hx)), (proj2 (Nat.ltb_lt x _) (Hlt x Hx)). reflexivity.
Qed.

(** [count_all_words] on the parallel path: the chunk counts minus one per
    internal boundary with a non-blank byte on both sides. *)
Lemma count_all_words_parallel (chunk_size parallel_threshold : nat) (data : list Z) :
  parallel_threshold <= length data -> data <> [] ->
  count_all_words chunk_size parallel_threshold data
  = sum_nat (map count_words_in_chunk (utf8_chunks chunk_size data))
    - length (filter (fun b => Is_true (negb (is_ascii_whitespace (nth (b - 1) data 0%Z))
                                        && negb (is_ascii_whitespace (nth b data 0%Z))))
                (internal_boundaries (find_utf8_chunk_boundaries data chunk_size))).
Proof.
  intros Hth Hne. unfold count_all_words.
  destruct (is_empty data) eqn:E.
  { unfold is_empty in E. apply Nat.eqb_eq, length_zero_iff_nil in E. contradiction. }
  rewrite (proj2 (Nat.ltb_ge _ _) Hth). cbv zeta. f_equal.
  set (bs := find_utf8_chunk_boundaries data chunk_size).
  pose proof (filter_windows2_snd
    (fun b => (0 <? b) && (b <? length data) && negb (is_ascii_whitespace (nth (b - 1) data 0%Z))
              && negb (is_ascii_whitespace (nth b data 0%Z))) bs) as Hw.
  cbv beta in Hw. rewrite Hw.
  rewrite (list_filter_iff _ (fun b => Is_true ((0 <? b) && (b <? length data)
             && (negb (is_ascii_whitespace (nth (b - 1) data 0%Z))
                 && negb (is_ascii_whitespace (nth b data 0%Z))))))
    by (intros x; rewrite !andb_assoc; reflexivity).
  pose proof (internal_boundaries_filter data bs
    (fun b => negb (is_ascii_whitespace (nth (b - 1) data 0%Z))
              && negb (is_ascii_whitespace (nth b data 0%Z)))
    Hne (proj1 (find_utf8_chunk_boundaries_shape data chunk_size Hne))) as Hi.
  cbv beta in Hi. exact Hi.
Qed.

Lemma find_utf8_chunk_boundaries_two (data : list Z) (chunk_size : nat) :
  0 < chunk_size -> chunk_size < length data -> length data <= chunk_size + chunk_size ->
  continuation_at data chunk_size = false ->
  find_utf8_chunk_boundaries data chunk_size = [0; chunk_size; length data].
Proof.
  intros Hpos Hlt Hle Hc.
  unfold find_utf8_chunk_boundaries, find_utf8_chunk_boundaries_fuel.
  destruct (length data) as [|n] eqn:En; [lia|].
  destruct n as [|m]; [lia|].
  cbn [find_utf8_chunk_boundaries_loop]. rewrite ?En.
  rewrite (proj2 (Nat.ltb_lt chunk_size (S (S m)))) by lia.
  rewrite find_utf8_boundary_fixed by (rewrite ?En; assumption).
  cbn [find_utf8_chunk_boundaries_loop]. rewrite ?En.
  rewrite (proj2 (Nat.ltb_ge (chunk_size + chunk_size) (S (S m)))) by lia.
  cbn [option_map default]. unfold close_boundaries.
  rewrite ?En. cbn [app]. rewrite last_cons_cons. cbn [last default]. unfold Datatypes.id.
  rewrite (proj2 (Nat.eqb_neq chunk_size (S (S m)))) by lia. reflexivity.
Qed.

Lemma utf8_chunks_two (data : list Z) (chunk_size : nat) :
  0 < chunk_size -> chunk_size < length data -> length data <= chunk_size + chunk_size ->
  continuation_at data chunk_size = false ->
  utf8_chunks chunk_size data = [firstn chunk_size data; skipn chunk_size data].
Proof.
  intros Hpos Hlt Hle Hc. unfold utf8_chunks.
  rewrite find_utf8_chunk_boundaries_two by assumption.
  cbn [windows2 map]. unfold slice. rewrite Nat.sub_0_r, skipn_O.
  rewrite (firstn_all2 (skipn chunk_size data)) by (rewrite length_skipn; lia). reflexivity.
Qed.

Lemma count_all_words_two (chunk_size parallel_threshold : nat) (data : list Z) :
  0 < chunk_size -> chunk_size < length data -> length data <= chunk_size + chunk_size ->
  parallel_threshold <= length data -> continuation_at data chunk_size = false ->
  count_all_words chunk_size parallel_threshold data
  = count_words_in_chunk (firstn chunk_size data) + count_words_in_chunk (skipn chunk_size data)
    - (if negb (is_ascii_whitespace (nth (chunk_size - 1) data 0%Z))
          && negb (is_ascii_whitespace (nth chunk_size data 0%Z)) then 1 else 0).
Proof.
  intros Hpos Hlt Hle Hth Hc.
  assert (Hne : data <> []) by (intros ->; simpl in Hlt; lia).
  rewrite count_all_words_parallel by assumption.
  rewrite utf8_chunks_two, find_utf8_chunk_boundaries_two by assumption.
  unfold internal_boundaries. cbn [tl removelast sum_nat map fold_right].
  rewrite filter_cons, filter_nil.
  destruct (negb (is_ascii_whitespace (nth (chunk_size - 1) data 0%Z))
            && negb (is_ascii_whitespace (nth chunk_size data 0%Z))); simpl; lia.
Qed.

Lemma from_utf8_ascii_app (l t : list Z) :
  Forall (fun b => b < 128)%Z l -> from_utf8 (l ++ t) = option_map (app l) (from_utf8 t).
Proof.
  induction l as [|b l IH]; intros Hl.
  - simpl. destruct (from_utf8 t); reflexivity.
  - inversion Hl as [|? ? Hb Hl']; subst. cbn [app from_utf8].
    rewrite (proj2 (Z.ltb_lt b 128) Hb), IH by exact Hl'.
    destruct (from_utf8 t); reflexivity.
Qed.

Lemma count_words_loop_word (f : Z -> bool) (l t : list Z) (in_word : bool) (count : nat) :
  l <> [] -> Forall (fun c => f c = false) l ->
  count_words_loop f (l ++ t) in_word count
  = count_words_loop f t true (if in_word then count else S count).
Proof.
  revert in_word count. induction l as [|c l IH]; intros in_word count Hl Hf; [contradiction|].
  inversion Hf as [|? ? Hc Hf']; subst. cbn [app count_words_loop]. rewrite Hc.
  destruct l as [|c' l'].
  - destruct in_word; reflexivity.
  - destruct in_word; cbn [negb]; rewrite IH by (discriminate || exact Hf'); reflexivity.
Qed.

Lemma Forall_repeat_Z (P : Z -> Prop) (c : Z) (n : nat) : P c -> Forall P (repeat c n).
Proof. intros Hc. apply List.Forall_forall. intros x Hx. apply repeat_spec in Hx. subst. exact Hc. Qed.

Lemma repeat_app_firstn (c : Z) (n k : nat) (t : list Z) :
  firstn (n + k) (repeat c n ++ t) = repeat c n ++ firstn k t.
Proof.
  rewrite firstn_app, repeat_length, firstn_all2 by (rewrite repeat_length; lia).
  f_equal. f_equal. lia.
Qed.

Lemma repeat_app_skipn (c : Z) (n k : nat) (t : list Z) :
  skipn (n + k) (repeat c n ++ t) = skipn k t.
Proof.
  rewrite skipn_app, repeat_length, skipn_all2 by (rewrite repeat_length; lia).
  simpl. f_equal. lia.
Qed.

Lemma repeat_app_nth (c : Z) (n k : nat) (t : list Z) (d : Z) :
  nth (n + k) (repeat c n ++ t) d = nth k t d.
Proof.
  rewrite app_nth2 by (rewrite repeat_length; lia).
  rewrite repeat_length. f_equal. lia.
Qed.

Lemma repeat_app_skipn0 (c : Z) (n : nat) (t : list Z) : skipn n (repeat c n ++ t) = t.
Proof. pose proof (repeat_app_skipn c n 0 t) as H. rewrite Nat.add_0_r in H. exact H. Qed.

Lemma repeat_app_firstn0 (c : Z) (n : nat) (t : list Z) : firstn n (repeat c n ++ t) = repeat c n.
Proof. pose proof (repeat_app_firstn c n 0 t) as H. rewrite Nat.add_0_r, app_nil_r in H. exact H. Qed.

Lemma repeat_app_nth0 (c : Z) (n : nat) (t : list Z) (d : Z) :
  nth n (repeat c n ++ t) d = nth 0 t d.
Proof. pose proof (repeat_app_nth c n 0 t d) as H. rewrite Nat.add_0_r in H. exact H. Qed.

(** One run of ASCII letters [a], then a short tail, is one word. *)
Lemma count_words_in_chunk_a_run (n : nat) (t : list Z) (text : list Z) :
  1 <= n -> Forall (fun b => b < 128)%Z t -> from_utf8 t = Some text ->
  count_words_in_chunk (repeat 97%Z n ++ t) = count_words_loop is_whitespace text true 1.
Proof.
  intros Hn Ht Htext. unfold count_words_in_chunk.
  rewrite from_utf8_ascii_app, Htext by (apply Forall_repeat_Z; lia). cbn [option_map].
  rewrite count_words_loop_word; [reflexivity| |apply Forall_repeat_Z; reflexivity].
  destruct n; [lia|discriminate].
Qed.

Ltac ascii_bytes :=
  rewrite List.Forall_forall; intros ? Hx; simpl in Hx; intuition (subst; lia).

Lemma count_all_words_run_bc (n parallel_threshold : nat) :
  1 <= n -> parallel_threshold <= n + 2 ->
  count_all_words (n + 1) parallel_threshold (repeat 97%Z n ++ [98; 99]%Z) = 1.
Proof.
  intros Hn Hth.
  assert (Hlen : length (repeat 97%Z n ++ [98; 99]%Z) = n + 2)
    by (rewrite length_app, repeat_length; reflexivity).
  rewrite count_all_words_two; rewrite ?Hlen; try lia.
  - rewrite repeat_app_firstn, repeat_app_skipn, repeat_app_nth.
    replace (n + 1 - 1) with (n + 0) by lia. rewrite repeat_app_nth.
    cbn [firstn skipn nth].
    rewrite (count_words_in_chunk_a_run n [98%Z] [98%Z]) by (auto || ascii_bytes).
    reflexivity.
  - unfold continuation_at. rewrite repeat_app_nth. reflexivity.
Qed.

Lemma count_all_words_run_b_space_c (n parallel_threshold : nat) :
  1 <= n -> parallel_threshold <= n + 3 ->
  count_all_words (n + 1) parallel_threshold (repeat 97%Z n ++ [98; 32; 99]%Z) = 2.
Proof.
  intros Hn Hth.
  assert (Hlen : length (repeat 97%Z n ++ [98; 32; 99]%Z) = n + 3)
    by (rewrite length_app, repeat_length; reflexivity).
  rewrite count_all_words_two; rewrite ?Hlen; try lia.
  - rewrite repeat_app_firstn, repeat_app_skipn, repeat_app_nth.
    replace (n + 1 - 1) with (n + 0) by lia. rewrite repeat_app_nth.
    cbn [firstn skipn nth].
    rewrite (count_words_in_chunk_a_run n [98%Z] [98%Z]) by (auto || ascii_bytes).
    reflexivity.
  - unfold continuation_at. rewrite repeat_app_nth. reflexivity.
Qed.

Lemma count_all_words_run_space_c (n parallel_threshold : nat) :
  1 <= n -> parallel_threshold <= n + 2 ->
  count_all_words (n + 1) parallel_threshold (repeat 97%Z n ++ [32; 99]%Z) = 2.
Proof.
  intros Hn Hth.
  assert (Hlen : length (repeat 97%Z n ++ [32; 99]%Z) = n + 2)
    by (rewrite length_app, repeat_length; reflexivity).
  rewrite count_all_words_two; rewrite ?Hlen; try lia.
  - rewrite repeat_app_firstn, repeat_app_skipn, repeat_app_nth.
    replace (n + 1 - 1) with (n + 0) by lia. rewrite repeat_app_nth.
    cbn [firstn skipn nth].
    rewrite (count_words_in_chunk_a_run n [32%Z] [32%Z]) by (auto || ascii_bytes).
    reflexivity.
  - unfold continuation_at. rewrite repeat_app_nth. reflexivity.
Qed.

Lemma CHUNK_SIZE_pred : CHUNK_SIZE - 1 + 1 = CHUNK_SIZE.
Proof. unfold CHUNK_SIZE. lia. Qed.

Lemma PARALLEL_THRESHOLD_lt : PARALLEL_THRESHOLD + 2 <= CHUNK_SIZE.
Proof. unfold PARALLEL_THRESHOLD, CHUNK_SIZE. lia. Qed.

(** ** C4: the word-count correction at chunk boundaries *)

(** C4. On the parallel path ([length data] at or above the threshold),
    [count_all_words] is the sum of the per-chunk word counts minus the
    number of internal chunk boundaries whose previous byte and whose next
    byte are both non-whitespace, subtracting in [nat] (saturating at 0).
    "Whitespace" is the byte test [u8::is_ascii_whitespace] here.
    With the real configuration, the buffer of [CHUNK_SIZE - 1] bytes [a]
    followed by [b], [c] counts as one word; inserting a space at the
    boundary (between [b] and [c]), or replacing the byte [b] just before it
    by a space, gives two words. *)
Theorem word_boundary_correction (chunk_size parallel_threshold : nat) (data : list Z) :
  parallel_threshold <= length data -> data <> [] ->
  count_all_words chunk_size parallel_threshold data
  = sum_nat (map count_words_in_chunk (utf8_chunks chunk_size data))
    - length (filter (fun b => Is_true (negb (is_ascii_whitespace (nth (b - 1) data 0%Z))
                                        && negb (is_ascii_whitespace (nth b data 0%Z))))
                (internal_boundaries (find_utf8_chunk_boundaries data chunk_size))) /\
  count_all_words CHUNK_SIZE PARALLEL_THRESHOLD (repeat 97%Z (CHUNK_SIZE - 1) ++ [98; 99]%Z) = 1 /\
  count_all_words CHUNK_SIZE PARALLEL_THRESHOLD (repeat 97%Z (CHUNK_SIZE - 1) ++ [98; 32; 99]%Z) = 2 /\
  count_all_words CHUNK_SIZE PARALLEL_THRESHOLD (repeat 97%Z (CHUNK_SIZE - 1) ++ [32; 99]%Z) = 2.
Proof.
  intros Hth Hne.
  pose proof PARALLEL_THRESHOLD_lt as Hlt.
  assert (H1 : 1 <= CHUNK_SIZE - 1) by lia.
  split; [apply count_all_words_parallel; assumption|].
  pose proof (count_all_words_run_bc (CHUNK_SIZE - 1) PARALLEL_THRESHOLD H1 ltac:(lia)) as E1.
  pose proof (count_all_words_run_b_space_c (CHUNK_SIZE - 1) PARALLEL_THRESHOLD H1 ltac:(lia)) as E2.
  pose proof (count_all_words_run_space_c (CHUNK_SIZE - 1) PARALLEL_THRESHOLD H1 ltac:(lia)) as E3.
  rewrite CHUNK_SIZE_pred in E1, E2, E3.
  split; [exact E1|split; [exact E2|exact E3]].
Qed.

Lemma word_boundary_correction_witness :
  2 <= length (bytes_of "aaabc") /\ bytes_of "aaabc" <> [] /\
  (count_all_words 4 2 (bytes_of "aaabc")
   = sum_nat (map count_words_in_chunk (utf8_chunks 4 (bytes_of "aaabc")))
     - length (filter (fun b => Is_true (negb (is_ascii_whitespace (nth (b - 1) (bytes_of "aaabc") 0%Z))
                                         && negb (is_ascii_whitespace (nth b (bytes_of "aaabc") 0%Z))))
                 (internal_boundaries (find_utf8_chunk_boundaries (bytes_of "aaabc") 4))) /\
   count_all_words CHUNK_SIZE PARALLEL_THRESHOLD (repeat 97%Z (CHUNK_SIZE - 1) ++ [98; 99]%Z) = 1 /\
   count_all_words CHUNK_SIZE PARALLEL_THRESHOLD (repeat 97%Z (CHUNK_SIZE - 1) ++ [98; 32; 99]%Z) = 2 /\
   count_all_words CHUNK_SIZE PARALLEL_THRESHOLD (repeat 97%Z (CHUNK_SIZE - 1) ++ [32; 99]%Z) = 2).
Proof.
  split; [simpl; lia|]. split; [discriminate|].
  apply (word_boundary_correction 4 2 (bytes_of "aaabc")); [simpl; lia|discriminate].
Defined.

(** ** Proofs: the parallel paths against the sequential ones *)

Lemma find_iter_from_run (pat : list Z) (c : Z) (n i : nat) (t : list Z) :
  (forall t', is_prefix pat (c :: t') = false) ->
  find_iter_from pat (repeat c n ++ t) i 0 = find_iter_from pat t (i + n) 0.
Proof.
  intros Hp. revert i. induction n as [|n IH]; intros i.
  - rewrite Nat.add_0_r. reflexivity.
  - cbn [repeat app find_iter_from]. rewrite Hp. cbn [Nat.ltb Nat.leb].
    rewrite IH. f_equal. lia.
Qed.

Lemma is_prefix_aa_x (t : list Z) : is_prefix [97; 97]%Z (120%Z :: t) = false.
Proof. reflexivity. Qed.

Lemma boundary_matches_at_run (m : nat) :
  boundary_matches_at (repeat 120%Z m ++ [97; 97; 97]%Z) [97; 97]%Z (m + 1) = 1.
Proof.
  unfold boundary_matches_at. cbn [length]. rewrite length_app, repeat_length. cbn [length].
  replace (m + 1 - (2 - 1)) with m by lia.
  replace ((m + 1 + 2 - 1) `min` (m + 3)) with (m + 2) by lia.
  rewrite (proj2 (Nat.leb_gt _ _)) by lia.
  unfold slice. replace (m + 2 - m) with 2 by lia.
  rewrite repeat_app_skipn0.
  change (find_iter [97; 97]%Z (firstn 2 [97; 97; 97]%Z)) with [0].
  rewrite filter_cons, filter_nil.
  rewrite (proj2 (Nat.ltb_lt (m + 0) (m + 1))) by lia.
  rewrite (proj2 (Nat.ltb_lt (m + 1) (m + 0 + 2))) by lia. reflexivity.
Qed.

(** A two-byte pattern straddling the first cut of a fixed-size plan. *)
Lemma count_pattern_run (m parallel_threshold : nat) :
  1 <= m -> parallel_threshold <= m + 3 ->
  count_pattern (m + 1) parallel_threshold (repeat 120%Z m ++ [97; 97; 97]%Z) [97; 97]%Z = 2.
Proof.
  intros Hm Hth.
  set (data := repeat 120%Z m ++ [97; 97; 97]%Z).
  assert (Hlen : length data = m + 3) by (unfold data; rewrite length_app, repeat_length; reflexivity).
  unfold count_pattern. rewrite Hlen.
  replace (is_empty data) with false by (unfold is_empty; rewrite Hlen; symmetry; apply Nat.eqb_neq; lia).
  rewrite (proj2 (Nat.ltb_ge _ _) Hth). cbv zeta.
  replace ((m + 3 + (m + 1) - 1) / (m + 1)) with 2 by (apply (Nat.div_unique _ _ 2 1); lia).
  unfold sum_nat. cbn [orb is_empty length Nat.eqb seq map foldr Nat.sub].
  replace (0 * (m + 1)) with 0 by lia.
  replace (((0 + 1) * (m + 1)) `min` (m + 3)) with (m + 1) by lia.
  replace (1 * (m + 1)) with (m + 1) by lia.
  replace (((1 + 1) * (m + 1)) `min` (m + 3)) with (m + 3) by lia.
  unfold data. rewrite boundary_matches_at_run.
  unfold slice. rewrite skipn_O. replace (m + 1 - 0) with (m + 1) by lia.
  replace (m + 3 - (m + 1)) with 2 by lia.
  rewrite repeat_app_firstn, repeat_app_skipn.
  unfold find_iter. rewrite find_iter_from_run by apply is_prefix_aa_x.
  reflexivity.
Qed.

Lemma find_iter_run (m : nat) :
  length (find_iter [97; 97]%Z (repeat 120%Z m ++ [97; 97; 97]%Z)) = 1.
Proof. unfold find_iter. rewrite find_iter_from_run by apply is_prefix_aa_x. reflexivity. Qed.

Lemma split_whitespace_word (l : list Z) :
  Forall (fun c => is_whitespace c = false) l -> split_whitespace l = [l].
Proof.
  induction l as [|c l IH]; intros Hl; [reflexivity|].
  inversion Hl as [|? ? Hc Hl']; subst. cbn [split_whitespace]. rewrite Hc, IH by exact Hl'.
  reflexivity.
Qed.

Lemma word_set_word (l : list Z) :
  l <> [] -> Forall (fun c => is_whitespace c = false) l -> word_set l = {[ l ]}.
Proof.
  intros Hne Hl. unfold word_set. rewrite split_whitespace_word by exact Hl.
  rewrite filter_cons_True by exact Hne. rewrite filter_nil. cbn [list_to_set].
  apply union_empty_r_L.
Qed.

Lemma count_unique_words_run (n parallel_threshold : nat) :
  1 <= n -> parallel_threshold <= n + 1 ->
  count_unique_words n parallel_threshold (repeat 97%Z n ++ [98]%Z) = 2 /\
  count_unique_words n (n + 2) (repeat 97%Z n ++ [98]%Z) = 1.
Proof.
  intros Hn Hth.
  set (data := repeat 97%Z n ++ [98]%Z).
  assert (Hlen : length data = n + 1) by (unfold data; rewrite length_app, repeat_length; reflexivity).
  assert (Hw : Forall (fun c => is_whitespace c = false) data).
  { unfold data. apply Forall_app. split; [apply Forall_repeat_Z; reflexivity|].
    constructor; [reflexivity|constructor]. }
  assert (Hu : from_utf8 data = Some data).
  { unfold data. rewrite from_utf8_ascii_app by (apply Forall_repeat_Z; lia). reflexivity. }
  unfold count_unique_words. rewrite Hu, Hlen. split.
  - rewrite (proj2 (Nat.ltb_ge _ _) Hth). cbv zeta.
    rewrite utf8_chunks_two by (rewrite ?Hlen; try lia; unfold continuation_at, data;
                                rewrite repeat_app_nth0; reflexivity).
    unfold data. rewrite repeat_app_firstn0, repeat_app_skipn0.
    assert (Hr : from_utf8 (repeat 97%Z n) = Some (repeat 97%Z n)).
    { pose proof (from_utf8_ascii_app (repeat 97%Z n) [] ltac:(apply Forall_repeat_Z; lia)) as H.
      rewrite app_nil_r in H. rewrite H. cbn. rewrite app_nil_r. reflexivity. }
    cbn [map fold_left]. rewrite Hr. cbn [default from_utf8 option_map].
    rewrite word_set_word by ((destruct n; [lia|discriminate]) || (apply Forall_repeat_Z; reflexivity)).
    rewrite word_set_word by (discriminate || (constructor; [reflexivity|constructor])).
    rewrite union_empty_l_L, size_union, !size_singleton; [reflexivity|].
    apply disjoint_singleton_l, not_elem_of_singleton. destruct n; [lia|discriminate].
  - rewrite (proj2 (Nat.ltb_lt _ _)) by lia.
    rewrite word_set_word by (unfold data; destruct n; discriminate || exact Hw || lia).
    apply size_singleton.
Qed.

Lemma from_utf8_a_run (n : nat) : from_utf8 (repeat 97%Z n) = Some (repeat 97%Z n).
Proof.
  pose proof (from_utf8_ascii_app (repeat 97%Z n) [] ltac:(apply Forall_repeat_Z; lia)) as H.
  rewrite app_nil_r in H. rewrite H. cbn. rewrite app_nil_r. reflexivity.
Qed.

Lemma from_utf8_e_acute_run_ff (k : nat) :
  from_utf8 ([195; 169]%Z ++ repeat 97%Z k ++ [255]%Z) = None.
Proof.
  cbn [app]. cbn -[repeat]. rewrite from_utf8_ascii_app by (apply Forall_repeat_Z; lia).
  reflexivity.
Qed.

(** An invalid buffer whose only invalid byte is alone in the last chunk. *)
Lemma count_chars_run (k parallel_threshold : nat) :
  parallel_threshold <= k + 3 ->
  count_chars (k + 2) parallel_threshold ([195; 169]%Z ++ repeat 97%Z k ++ [255]%Z) = k + 2.
Proof.
  intros Hth.
  set (data := [195; 169]%Z ++ repeat 97%Z k ++ [255]%Z).
  assert (Hlen : length data = k + 3)
    by (unfold data; rewrite !length_app, repeat_length; cbn [length]; lia).
  unfold count_chars.
  replace (is_empty data) with false by (unfold is_empty; rewrite Hlen; symmetry; apply Nat.eqb_neq; lia).
  rewrite Hlen, (proj2 (Nat.ltb_ge _ _) Hth).
  assert (Hsplit : data = 195%Z :: 169%Z :: (repeat 97%Z k ++ [255]%Z)) by reflexivity.
  rewrite utf8_chunks_two; rewrite ?Hlen; try lia.
  - rewrite Hsplit. replace (k + 2) with (S (S k)) by lia. cbn [firstn skipn].
    rewrite repeat_app_firstn0, repeat_app_skipn0.
    unfold sum_nat, chars_or_len. cbn [map fold_right].
    cbn -[repeat]. rewrite from_utf8_a_run. cbn [option_map length]. rewrite repeat_length. lia.
  - unfold continuation_at. rewrite Hsplit. replace (k + 2) with (S (S k)) by lia.
    cbn [nth]. rewrite repeat_app_nth0. reflexivity.
Qed.

Lemma CHUNK_SIZE_pred2 : CHUNK_SIZE - 2 + 2 = CHUNK_SIZE.
Proof. unfold CHUNK_SIZE. lia. Qed.

Lemma find_iter_run_positions (m : nat) :
  find_iter [97; 97]%Z (repeat 120%Z m ++ [97; 97; 97]%Z) = [m].
Proof. unfold find_iter. rewrite find_iter_from_run by apply is_prefix_aa_x. reflexivity. Qed.

Lemma length_split_word_buffer : length split_word_buffer = CHUNK_SIZE + 1.
Proof. unfold split_word_buffer. rewrite length_app, repeat_length. reflexivity. Qed.

Lemma length_straddle_pattern_buffer : length straddle_pattern_buffer = CHUNK_SIZE + 2.
Proof.
  unfold straddle_pattern_buffer. rewrite length_app, repeat_length. cbn [length].
  unfold CHUNK_SIZE. lia.
Qed.

Lemma length_invalid_tail_buffer : length invalid_tail_buffer = CHUNK_SIZE + 1.
Proof.
  unfold invalid_tail_buffer. rewrite !length_app, repeat_length. cbn [length].
  unfold CHUNK_SIZE. lia.
Qed.

Lemma count_chars_invalid_tail_buffer :
  count_chars CHUNK_SIZE PARALLEL_THRESHOLD invalid_tail_buffer = CHUNK_SIZE.
Proof.
  pose proof PARALLEL_THRESHOLD_lt as Hlt.
  pose proof (count_chars_run (CHUNK_SIZE - 2) PARALLEL_THRESHOLD ltac:(lia)) as H.
  rewrite CHUNK_SIZE_pred2 in H. exact H.
Qed.

Lemma from_utf8_invalid_tail_buffer : from_utf8 invalid_tail_buffer = None.
Proof. apply from_utf8_e_acute_run_ff. Qed.

Lemma count_pattern_straddle_pattern_buffer :
  count_pattern CHUNK_SIZE PARALLEL_THRESHOLD straddle_pattern_buffer [97; 97]%Z = 2.
Proof.
  pose proof PARALLEL_THRESHOLD_lt as Hlt.
  pose proof (count_pattern_run (CHUNK_SIZE - 1) PARALLEL_THRESHOLD ltac:(lia) ltac:(lia)) as H.
  rewrite CHUNK_SIZE_pred in H. exact H.
Qed.

(** ** C1: sequential scan against the chunked parallel path *)

(** C1 (refuted). At the real configuration the parallel path and the
    sequential scan disagree on three statistics.
    - [count_unique_words]: on [CHUNK_SIZE] bytes [a] then [b] (one word),
      the UTF-8 plan cuts the word before [b], and the per-chunk sets
      [{aaa...a}] and [{b}] are merged with no boundary correction. The
      parallel path gives 2; the sequential branch, taken for the same
      buffer when the threshold is above its length, gives 1.
    - [count_pattern]: on [CHUNK_SIZE - 1] bytes [x] then [aaa], with
      pattern [aa], the parallel path gives 2. The sequential
      non-overlapping search finds one match.
    - [count_chars]: on [invalid_tail_buffer] (invalid UTF-8, [CHUNK_SIZE + 1]
      bytes) the parallel path gives [CHUNK_SIZE]. The sequential fallback
      gives the byte length. *)
Theorem parallel_path_diverges :
  PARALLEL_THRESHOLD <= length split_word_buffer < CHUNK_SIZE + 2 /\
  count_unique_words CHUNK_SIZE PARALLEL_THRESHOLD split_word_buffer = 2 /\
  count_unique_words CHUNK_SIZE (CHUNK_SIZE + 2) split_word_buffer = 1 /\
  PARALLEL_THRESHOLD <= length straddle_pattern_buffer /\
  count_pattern CHUNK_SIZE PARALLEL_THRESHOLD straddle_pattern_buffer [97; 97]%Z = 2 /\
  length (find_iter [97; 97]%Z straddle_pattern_buffer) = 1 /\
  PARALLEL_THRESHOLD <= length invalid_tail_buffer /\
  count_chars CHUNK_SIZE PARALLEL_THRESHOLD invalid_tail_buffer = CHUNK_SIZE /\
  chars_or_len invalid_tail_buffer = CHUNK_SIZE + 1.
Proof.
  pose proof PARALLEL_THRESHOLD_lt as Hlt.
  assert (H1 : 1 <= CHUNK_SIZE) by (unfold CHUNK_SIZE; lia).
  destruct (count_unique_words_run CHUNK_SIZE PARALLEL_THRESHOLD H1 ltac:(lia)) as [Hpar Hseq].
  rewrite length_split_word_buffer, length_straddle_pattern_buffer, length_invalid_tail_buffer.
  split; [lia|]. split; [exact Hpar|]. split; [exact Hseq|].
  split; [lia|]. split; [apply count_pattern_straddle_pattern_buffer|].
  split; [unfold straddle_pattern_buffer; rewrite find_iter_run_positions; reflexivity|].
  split; [lia|]. split; [apply count_chars_invalid_tail_buffer|].
  unfold chars_or_len. rewrite from_utf8_invalid_tail_buffer. apply length_invalid_tail_buffer.
Qed.

(** ** C3: a pattern match across a chunk cut *)

(** C3 (refuted). With the real configuration, the buffer of
    [CHUNK_SIZE - 1] bytes [x] then [aaa] holds one match of [aa] for the
    non-overlapping search, at [CHUNK_SIZE - 1]. That match straddles the
    first cut, at [CHUNK_SIZE]. The parallel path counts it in the rescan
    window, and it also counts the match [CHUNK_SIZE .. CHUNK_SIZE + 2] of
    the second chunk, which overlaps it. The result is 2. *)
Theorem pattern_straddle_counted_twice :
  PARALLEL_THRESHOLD <= length straddle_pattern_buffer /\
  find_iter [97; 97]%Z straddle_pattern_buffer = [CHUNK_SIZE - 1] /\
  CHUNK_SIZE - 1 < CHUNK_SIZE < CHUNK_SIZE - 1 + 2 /\
  boundary_matches_at straddle_pattern_buffer [97; 97]%Z CHUNK_SIZE = 1 /\
  count_pattern CHUNK_SIZE PARALLEL_THRESHOLD straddle_pattern_buffer [97; 97]%Z = 2.
Proof.
  pose proof PARALLEL_THRESHOLD_lt as Hlt.
  assert (H1 : 1 <= CHUNK_SIZE) by (unfold CHUNK_SIZE; lia).
  rewrite length_straddle_pattern_buffer.
  split; [lia|].
  split; [unfold straddle_pattern_buffer; apply find_iter_run_positions|].
  split; [lia|].
  split; [|apply count_pattern_straddle_pattern_buffer].
  unfold straddle_pattern_buffer. rewrite <- CHUNK_SIZE_pred at 2.
  apply boundary_matches_at_run.
Qed.

(** ** Proofs: character counts *)

Lemma from_utf8_length (bs : list Z) :
  forall s, from_utf8 bs = Some s -> length s <= length bs.
Proof.
  induction bs as [bs IH] using (induction_ltof1 _ (@length Z)); unfold ltof in IH.
  intros s Hs. destruct bs as [|b0 r0]; [injection Hs as <-; reflexivity|].
  cbn [from_utf8] in Hs.
  repeat match goal with
  | H : (if ?c then _ else _) = Some _ |- _ => destruct c
  | H : match ?l with [] => _ | _ :: _ => _ end = Some _ |- _ => destruct l
  | H : None = Some _ |- _ => discriminate H
  | H : option_map _ (from_utf8 ?r) = Some _ |- _ =>
      destruct (from_utf8 r) as [s'|] eqn:E; [|discriminate H];
      cbn in H; injection H as <-; pose proof (IH r ltac:(simpl; lia) s' E); simpl; lia
  end.
Qed.

Lemma chars_or_len_le (chunk : list Z) : chars_or_len chunk <= length chunk.
Proof.
  unfold chars_or_len. destruct (from_utf8 chunk) as [s|] eqn:E; [|reflexivity].
  apply from_utf8_length. exact E.
Qed.

Lemma concat_plan (data : list Z) :
  forall bs a,
  StronglySorted lt (a :: bs) -> last (a :: bs) = Some (length data) ->
  concat (map (fun '(a, b) => slice data a b) (windows2 (a :: bs))) = skipn a data.
Proof.
  induction bs as [|b bs IH]; intros a Hs Hl.
  - simpl in Hl. injection Hl as ->. rewrite skipn_all. reflexivity.
  - pose proof (StronglySorted_le_last _ _ Hs Hl) as Hle.
    inversion Hs as [|? ? Hs' Hf]; subst. inversion Hf as [|? ? Hab _]; subst.
    assert (Hb : b <= length data) by (apply Hle; right; left; reflexivity).
    change (windows2 (a :: b :: bs)) with ((a, b) :: windows2 (b :: bs)).
    cbn [map concat]. rewrite IH; [|exact Hs'|].
    + apply slice_app_skipn. lia.
    + destruct bs; [exact Hl|rewrite last_cons_cons in Hl; exact Hl].
Qed.

Lemma sum_length_utf8_chunks (chunk_size : nat) (data : list Z) :
  data <> [] -> sum_nat (map (@length Z) (utf8_chunks chunk_size data)) = length data.
Proof.
  intros Hne. unfold utf8_chunks.
  destruct (find_utf8_chunk_boundaries_shape data chunk_size Hne) as ((Hs & Hh & Hl) & _).
  destruct (find_utf8_chunk_boundaries data chunk_size) as [|a bs]; [discriminate|].
  simpl in Hh. injection Hh as ->.
  assert (forall cs : list (list Z), sum_nat (map (@length Z) cs) = length (concat cs)) as H.
  { induction cs as [|c cs IHc]; [reflexivity|]. cbn [map concat sum_nat fold_right].
    rewrite length_app. unfold sum_nat in IHc. rewrite IHc. reflexivity. }
  rewrite H, concat_plan by assumption. reflexivity.
Qed.

Lemma sum_nat_le_map {A} (f g : A -> nat) (l : list A) :
  (forall x, f x <= g x) -> sum_nat (map f l) <= sum_nat (map g l).
Proof.
  intros Hfg. induction l as [|x l IH]; [reflexivity|].
  cbn [map sum_nat fold_right]. unfold sum_nat in IH. specialize (Hfg x). lia.
Qed.

(** ** C6: character counts of invalid UTF-8 *)

(** C6 (code bug). Below the parallel threshold [count_chars] returns the
    byte length of every buffer that is not valid UTF-8. At or above it the
    fallback is applied per chunk of the UTF-8 plan: [invalid_tail_buffer]
    is invalid UTF-8 and has [CHUNK_SIZE + 1] bytes, but its valid first
    chunk counts [U+00E9] as one character, so [count_chars] returns
    [CHUNK_SIZE]. The sequential branch on the same buffer (any threshold
    above its length) returns [CHUNK_SIZE + 1]. *)
Theorem count_chars_invalid_paths_diverge :
  (forall (chunk_size parallel_threshold : nat) (data : list Z),
     from_utf8 data = None -> length data < parallel_threshold ->
     count_chars chunk_size parallel_threshold data = length data) /\
  (from_utf8 invalid_tail_buffer = None) /\
  (length invalid_tail_buffer = CHUNK_SIZE + 1) /\
  (PARALLEL_THRESHOLD <= length invalid_tail_buffer) /\
  (count_chars CHUNK_SIZE PARALLEL_THRESHOLD invalid_tail_buffer = CHUNK_SIZE) /\
  (count_chars CHUNK_SIZE (CHUNK_SIZE + 2) invalid_tail_buffer = CHUNK_SIZE + 1) /\
  (count_chars CHUNK_SIZE PARALLEL_THRESHOLD invalid_tail_buffer <> length invalid_tail_buffer).
Proof.
  assert (Hseq : forall chunk_size parallel_threshold data,
            from_utf8 data = None -> length data < parallel_threshold ->
            count_chars chunk_size parallel_threshold data = length data).
  { intros chunk_size parallel_threshold data Hinv Hlt.
    assert (He : is_empty data = false).
    { unfold is_empty. apply Nat.eqb_neq. intros Hl.
      apply length_zero_iff_nil in Hl. subst. discriminate. }
    unfold count_chars. rewrite He, (proj2 (Nat.ltb_lt _ _) Hlt).
    unfold chars_or_len. rewrite Hinv. reflexivity. }
  pose proof PARALLEL_THRESHOLD_lt as Hlt.
  split; [exact Hseq|].
  split; [apply from_utf8_invalid_tail_buffer|].
  split; [apply length_invalid_tail_buffer|].
  split; [rewrite length_invalid_tail_buffer; unfold CHUNK_SIZE, PARALLEL_THRESHOLD in *; lia|].
  split; [apply count_chars_invalid_tail_buffer|].
  split.
  - rewrite Hseq; [apply length_invalid_tail_buffer|apply from_utf8_invalid_tail_buffer|].
    rewrite length_invalid_tail_buffer. lia.
  - rewrite count_chars_invalid_tail_buffer, length_invalid_tail_buffer. lia.
Qed.

(** ** Proofs: statistics *)

Lemma calculate_statistics_lengths (chunk_size parallel_threshold : nat) (data : list Z) :
  data <> [] ->
  calculate_statistics chunk_size parallel_threshold data
  = statistics_of_lengths (collect_line_lengths_chunk data).
Proof.
  intros Hne. unfold calculate_statistics.
  replace (is_empty data) with false.
  - rewrite line_lengths_sequential. reflexivity.
  - symmetry. unfold is_empty. apply Nat.eqb_neq. intros Hl. apply Hne, length_zero_iff_nil, Hl.
Qed.

Lemma StronglySorted_nth_le (l : list nat) :
  StronglySorted le l -> forall i j, i <= j < length l -> nth i l 0 <= nth j l 0.
Proof.
  induction l as [|a l IH]; intros Hs i j Hij; [simpl in Hij; lia|].
  inversion Hs as [|? ? Hs' Hf]; subst.
  destruct i as [|i'], j as [|j']; try lia; cbn [nth].
  - rewrite List.Forall_forall in Hf. apply Hf, nth_In. simpl in Hij. lia.
  - apply IH; [exact Hs'|]. simpl in Hij. lia.
Qed.

Lemma sorted_bounds (sorted : list nat) :
  StronglySorted le sorted -> sorted <> [] ->
  In (nth 0 sorted 0) sorted /\ In (nth (length sorted - 1) sorted 0) sorted /\
  forall x, In x sorted -> nth 0 sorted 0 <= x <= nth (length sorted - 1) sorted 0.
Proof.
  intros Hs Hne.
  assert (Hl : 0 < length sorted) by (destruct sorted; [contradiction|simpl; lia]).
  split; [apply nth_In; lia|]. split; [apply nth_In; lia|].
  intros x Hx. apply (In_nth _ _ 0) in Hx as (i & Hi & <-).
  split; apply StronglySorted_nth_le; (assumption || lia).
Qed.

Lemma even_mod2 (n : nat) : (n mod 2 =? 0) = Nat.even n.
Proof.
  induction n as [n IH] using lt_wf_ind. destruct n as [|[|n]]; [reflexivity|reflexivity|].
  replace (S (S n)) with (n + 1 * 2) at 1 by lia. rewrite Nat.Div0.mod_add.
  rewrite IH by lia. reflexivity.
Qed.

Lemma collect_sample_stats_buffer :
  collect_line_lengths_chunk sample_stats_buffer = [1; 2; 3; 4].
Proof. vm_compute. reflexivity. Qed.

Lemma statistics_sample_stats_buffer (chunk_size parallel_threshold : nat) :
  calculate_statistics chunk_size parallel_threshold sample_stats_buffer
  = statistics_of_lengths [1; 2; 3; 4].
Proof.
  rewrite calculate_statistics_lengths by discriminate.
  rewrite collect_sample_stats_buffer. reflexivity.
Qed.

(** ** C2: [calculate_statistics] *)

(** C2 (counterexample). For the line lengths [[1; 2; 3; 4]] the median is
    the [usize] value [(2 + 3) / 2 = 2], not 2.5. The mean is 2.5 and the
    standard deviation is [sqrt 1.25], as claimed. *)
Lemma median_is_integer_counterexample :
  line_lengths CHUNK_SIZE PARALLEL_THRESHOLD sample_stats_buffer = [1; 2; 3; 4] /\
  Stats.median_line_length (calculate_statistics CHUNK_SIZE PARALLEL_THRESHOLD sample_stats_buffer) = 2 /\
  INR 2 <> (5 / 2)%R /\
  Stats.mean_line_length (calculate_statistics CHUNK_SIZE PARALLEL_THRESHOLD sample_stats_buffer) = (5 / 2)%R /\
  Stats.std_dev (calculate_statistics CHUNK_SIZE PARALLEL_THRESHOLD sample_stats_buffer) = sqrt (5 / 4)%R.
Proof.
  rewrite line_lengths_sequential, collect_sample_stats_buffer, statistics_sample_stats_buffer.
  split; [reflexivity|]. split; [reflexivity|]. split; [simpl; lra|]. split.
  - change (Stats.mean_line_length (statistics_of_lengths [1; 2; 3; 4]))
      with (INR 10 / INR 4)%R. simpl. lra.
  - change (Stats.std_dev (statistics_of_lengths [1; 2; 3; 4])) with
      (sqrt (fold_right Rplus 0%R
               (map (fun len => let diff := (INR len - INR 10 / INR 4)%R in (diff * diff)%R)
                  [1; 2; 3; 4]%nat) / INR 4))%R.
    f_equal. simpl. field.
Qed.

(** C2 (amended). For a non-empty buffer, with [ls] the merged line-length
    list (equal to the sequential one), [N] its length and [sorted] its
    sorted permutation, [calculate_statistics] returns: the number of zero
    lengths; the mean [sum / N]; the square root of the population variance
    (sum of squared deviations divided by [N]); as median the central value
    for odd [N] and, for even [N], the integer average, rounded down, of the
    two central values (a [usize]); and the endpoints of [sorted], that is
    the least and greatest lengths, as min and max. For the lengths
    [[1; 2; 3; 4]]: mean 2.5, median 2, standard deviation [sqrt 1.25]. *)
Theorem calculate_statistics_spec (chunk_size parallel_threshold : nat) (data : list Z) :
  data <> [] ->
  let ls := line_lengths chunk_size parallel_threshold data in
  let st := calculate_statistics chunk_size parallel_threshold data in
  let sorted := merge_sort (≤) ls in
  let N := length ls in
  ls = collect_line_lengths_chunk data /\
  (ls = [] -> st = zero_statistics) /\
  (ls <> [] ->
   Stats.empty_lines st = length (filter (fun l => l = 0) ls) /\
   Stats.mean_line_length st = (INR (sum_nat ls) / INR N)%R /\
   Stats.std_dev st
   = sqrt (fold_right Rplus 0%R
             (map (fun l => ((INR l - Stats.mean_line_length st) * (INR l - Stats.mean_line_length st))%R) ls)
           / INR N)%R /\
   sorted ≡ₚ ls /\ StronglySorted le sorted /\
   Stats.median_line_length st
   = (if Nat.even N then (nth (N / 2 - 1) sorted 0 + nth (N / 2) sorted 0) / 2
      else nth (N / 2) sorted 0) /\
   Stats.min_line_length st = nth 0 sorted 0 /\
   Stats.max_line_length st = nth (N - 1) sorted 0 /\
   In (Stats.min_line_length st) ls /\ In (Stats.max_line_length st) ls /\
   (forall l, In l ls -> Stats.min_line_length st <= l <= Stats.max_line_length st)) /\
  Stats.mean_line_length (calculate_statistics chunk_size parallel_threshold sample_stats_buffer) = (5 / 2)%R /\
  Stats.median_line_length (calculate_statistics chunk_size parallel_threshold sample_stats_buffer) = 2 /\
  Stats.std_dev (calculate_statistics chunk_size parallel_threshold sample_stats_buffer) = sqrt (5 / 4)%R.
Proof.
  intros Hne ls st sorted N.
  assert (Hls : ls = collect_line_lengths_chunk data) by apply line_lengths_sequential.
  assert (Hst : st = statistics_of_lengths ls)
    by (unfold st, ls; rewrite line_lengths_sequential; apply calculate_statistics_lengths; exact Hne).
  assert (Hperm : sorted ≡ₚ ls) by apply merge_sort_Permutation.
  assert (Hsorted : StronglySorted le sorted)
    by (apply StronglySorted_merge_sort; [exact Nat.le_trans|intros x y; lia]).
  assert (Hlen : length sorted = N) by (apply Permutation_length; exact Hperm).
  assert (Hsdef : sorted = merge_sort (≤) ls) by reflexivity.
  assert (HN : N = length ls) by reflexivity.
  clearbody st sorted N ls.
  split; [exact Hls|]. split.
  { intros Hnil. rewrite Hst, Hnil. reflexivity. }
  split.
  - intros Hnn.
    assert (Hsn : sorted <> [])
      by (intros Hs; apply Hnn, Permutation_nil; rewrite <- Hs; exact Hperm).
    destruct (sorted_bounds sorted Hsorted Hsn) as (Hmin & Hmax & Hbd).
    assert (Hin : forall x, In x ls <-> In x sorted)
      by (intros x; split; apply Permutation_in; [symmetry|]; exact Hperm).
    rewrite <- Hlen in *. subst st.
    destruct ls as [|l0 ls']; [contradiction|].
    assert (Hmin' : Stats.min_line_length (statistics_of_lengths (l0 :: ls')) = nth 0 sorted 0)
      by (rewrite Hsdef; reflexivity).
    assert (Hmax' : Stats.max_line_length (statistics_of_lengths (l0 :: ls'))
                    = nth (length sorted - 1) sorted 0) by (rewrite Hsdef; reflexivity).
    rewrite Hmin', Hmax'.
    split; [reflexivity|]. split; [rewrite HN; reflexivity|].
    split; [rewrite HN; reflexivity|]. split; [exact Hperm|]. split; [exact Hsorted|].
    split.
    + cbn [statistics_of_lengths Stats.median_line_length]. rewrite <- Hsdef.
      rewrite Hlen.
      replace (N mod 2 =? 0) with (Nat.even N)
        by (symmetry; apply even_mod2).
      reflexivity.
    + split; [reflexivity|]. split; [reflexivity|].
      split; [apply Hin; exact Hmin|]. split; [apply Hin; exact Hmax|].
      intros l Hl. apply Hbd, Hin, Hl.
  - rewrite statistics_sample_stats_buffer.
    split; [|split; [reflexivity|]].
    + change (Stats.mean_line_length (statistics_of_lengths [1; 2; 3; 4]))
        with (INR 10 / INR 4)%R. simpl. lra.
    + change (Stats.std_dev (statistics_of_lengths [1; 2; 3; 4])) with
        (sqrt (fold_right Rplus 0%R
                 (map (fun len => let diff := (INR len - INR 10 / INR 4)%R in (diff * diff)%R)
                    [1; 2; 3; 4]%nat) / INR 4))%R.
      f_equal. simpl. field.
Qed.

Lemma calculate_statistics_spec_witness :
  sample_stats_buffer <> [] /\
  (let ls := line_lengths 2 2 sample_stats_buffer in
  let st := calculate_statistics 2 2 sample_stats_buffer in
  let sorted := merge_sort (≤) ls in
  let N := length ls in
  ls = collect_line_lengths_chunk sample_stats_buffer /\
  (ls = [] -> st = zero_statistics) /\
  (ls <> [] ->
   Stats.empty_lines st = length (filter (fun l => l = 0) ls) /\
   Stats.mean_line_length st = (INR (sum_nat ls) / INR N)%R /\
   Stats.std_dev st
   = sqrt (fold_right Rplus 0%R
             (map (fun l => ((INR l - Stats.mean_line_length st) * (INR l - Stats.mean_line_length st))%R) ls)
           / INR N)%R /\
   sorted ≡ₚ ls /\ StronglySorted le sorted /\
   Stats.median_line_length st
   = (if Nat.even N then (nth (N / 2 - 1) sorted 0 + nth (N / 2) sorted 0) / 2
      else nth (N / 2) sorted 0) /\
   Stats.min_line_length st = nth 0 sorted 0 /\
   Stats.max_line_length st = nth (N - 1) sorted 0 /\
   In (Stats.min_line_length st) ls /\ In (Stats.max_line_length st) ls /\
   (forall l, In l ls -> Stats.min_line_length st <= l <= Stats.max_line_length st)) /\
  Stats.mean_line_length (calculate_statistics 2 2 sample_stats_buffer) = (5 / 2)%R /\
  Stats.median_line_length (calculate_statistics 2 2 sample_stats_buffer) = 2 /\
  Stats.std_dev (calculate_statistics 2 2 sample_stats_buffer) = sqrt (5 / 4)%R).
Proof.
  split; [discriminate|].
  apply (calculate_statistics_spec 2 2 sample_stats_buffer). discriminate.
Defined.

(** ** Comment markers *)

Lemma is_prefix_length (pat s : list Z) :
  is_prefix pat s = true -> length pat <= length s.
Proof.
  revert s. induction pat as [|a pat IH]; intros s H; [cbn; lia|].
  destruct s as [|b s]; [discriminate|].
  cbn in H. apply andb_true_iff in H as [_ H]. cbn. apply IH in H. lia.
Qed.

Lemma find_from_prefix (pat s : list Z) (i r : nat) :
  find_from pat s i = Some r -> i <= r /\ is_prefix pat (skipn (r - i) s) = true.
Proof.
  revert i. induction s as [|c s IH]; intros i H; cbn in H.
  - destruct (is_prefix pat []) eqn:E; [|discriminate].
    injection H as <-. rewrite Nat.sub_diag. split; [lia|exact E].
  - destruct (is_prefix pat (c :: s)) eqn:E.
    + injection H as <-. rewrite Nat.sub_diag. split; [lia|exact E].
    + apply IH in H as [Hle Hp]. split; [lia|].
      replace (r - i) with (S (r - S i)) by lia. exact Hp.
Qed.

Lemma str_find_lt (pat s : list Z) (r : nat) :
  pat <> [] -> str_find pat s = Some r -> r < length s.
Proof.
  intros Hne H. apply find_from_prefix in H as [_ Hp].
  apply is_prefix_length in Hp. rewrite length_skipn in Hp.
  destruct pat; [congruence|]. cbn in Hp. lia.
Qed.

Lemma find_comment_marker_loop_guard (fuel : nat) (s marker : list Z) (start p : nat) :
  marker <> [] ->
  find_comment_marker_loop fuel s marker true start = Some p ->
  p < length s /\ (p = 0 \/ is_whitespace (nth (p - 1) s 0%Z) = true).
Proof.
  intros Hne. revert start. induction fuel as [|fuel IH]; intros start H; cbn in H;
    [discriminate|].
  destruct (str_find marker (skipn start s)) as [pos|] eqn:Ef; [|discriminate].
  pose proof (str_find_lt _ _ _ Hne Ef) as Hlt. rewrite length_skipn in Hlt.
  destruct (Nat.eqb (start + pos) 0
            || match last (firstn (start + pos) s) with
               | None => true | Some c => is_whitespace c end) eqn:Eg;
    cbn in H.
  - injection H as <-. split; [lia|].
    apply orb_true_iff in Eg as [E0|Ew]; [left; apply Nat.eqb_eq; exact E0|].
    destruct (start + pos) as [|k] eqn:Ek; [left; reflexivity|right].
    rewrite firstn_S_snoc in Ew by lia. rewrite last_snoc in Ew.
    replace (S k - 1) with k by lia. exact Ew.
  - eapply IH. exact H.
Qed.

Lemma find_comment_marker_guard (s marker : list Z) (p : nat) :
  marker <> [] ->
  find_comment_marker s marker true = Some p ->
  p < length s /\ (p = 0 \/ is_whitespace (nth (p - 1) s 0%Z) = true).
Proof. intros Hne. apply find_comment_marker_loop_guard, Hne. Qed.

Lemma min_by_position_fold_in (cands : list (option nat * marker_kind))
    (best : option (nat * marker_kind)) (p : nat) (k : marker_kind) :
  fold_left (fun best cand =>
               match fst cand with
               | None => best
               | Some p =>
                 match best with
                 | None => Some (p, snd cand)
                 | Some (q, k) => if p <? q then Some (p, snd cand) else Some (q, k)
                 end
               end) cands best = Some (p, k) ->
  best = Some (p, k) \/ In (Some p, k) cands.
Proof.
  revert best. induction cands as [|[o k'] cands IH]; intros best H; cbn [fold_left fst snd] in H;
    [left; exact H|].
  apply IH in H as [H|H]; [|right; right; exact H].
  destruct o as [p'|]; [|left; exact H].
  destruct best as [[q k'']|].
  - destruct (p' <? q); [injection H as <- <-; right; left; reflexivity|left; exact H].
  - injection H as <- <-. right; left; reflexivity.
Qed.

Lemma min_by_position_in (cands : list (option nat * marker_kind)) (p : nat) (k : marker_kind) :
  min_by_position cands = Some (p, k) -> In (Some p, k) cands.
Proof.
  unfold min_by_position. intros H.
  apply min_by_position_fold_in in H as [H|H]; [discriminate|exact H].
Qed.

(** C5, counterexample: a [/*] right after a non-whitespace character is not
    taken as a comment opener, so the line is kept as it is. *)
Lemma block_comment_guard_counterexample :
  earliest_marker (bytes_of "x/*c*/") = None /\
  filter_code_comments (bytes_of "x/*c*/" ++ [10%Z]) = bytes_of "x/*c*/" ++ [10%Z] /\
  filter_code_comments (bytes_of "x/*c*/" ++ [10%Z]) <> bytes_of "x" ++ [10%Z].
Proof. vm_compute. split; [reflexivity|split; [reflexivity|discriminate]]. Qed.

(** C5: the whitespace-or-line-start guard applies to [//], [#], [--] and to
    [/*] alike: every marker of these four kinds that [earliest_marker]
    selects is at the start of the text or right after a whitespace character.
    Only the triple-quote docstring delimiters are found without a guard: in
    [x], a docstring [d] and [y] the docstring is stripped, while in [x /*c*/y] the block
    comment is stripped because a space precedes it. *)
Theorem comment_marker_guard (current : list Z) (p : nat) (k : marker_kind)
    (Hm : earliest_marker current = Some (p, k))
    (Hk : k <> DocDouble /\ k <> DocSingle) :
  p < length current /\
  (p = 0 \/ is_whitespace (nth (p - 1) current 0%Z) = true) /\
  filter_code_comments (bytes_of "x /*c*/y" ++ [10%Z]) = bytes_of "x y" ++ [10%Z] /\
  filter_code_comments
    (bytes_of "x" ++ m_doc_double ++ bytes_of "d" ++ m_doc_double ++ bytes_of "y" ++ [10%Z])
  = bytes_of "xy" ++ [10%Z].
Proof.
  destruct Hk as [Hk1 Hk2].
  assert (Hg : p < length current /\
               (p = 0 \/ is_whitespace (nth (p - 1) current 0%Z) = true)).
  { apply min_by_position_in in Hm. cbn [In] in Hm.
    destruct Hm as [H|[H|[H|[H|[H|[H|[]]]]]]]; injection H as Hp <-;
      try congruence; apply find_comment_marker_guard in Hp; try exact Hp; discriminate. }
  destruct Hg as [Hlt Hws]. split; [exact Hlt|]. split; [exact Hws|].
  split; vm_compute; reflexivity.
Qed.

Lemma comment_marker_guard_witness :
  earliest_marker (bytes_of "a //c") = Some (2, SingleSlash) /\
  2 < length (bytes_of "a //c") /\
  (2 = 0 \/ is_whitespace (nth (2 - 1) (bytes_of "a //c") 0%Z) = true) /\
  filter_code_comments (bytes_of "x /*c*/y" ++ [10%Z]) = bytes_of "x y" ++ [10%Z] /\
  filter_code_comments
    (bytes_of "x" ++ m_doc_double ++ bytes_of "d" ++ m_doc_double ++ bytes_of "y" ++ [10%Z])
  = bytes_of "xy" ++ [10%Z].
Proof.
  split; [vm_compute; reflexivity|].
  apply (comment_marker_guard (bytes_of "a //c") 2 SingleSlash);
    [vm_compute; reflexivity|split; discriminate].
Defined.

(** ** Markdown lines *)

Lemma filter_markdown_lines_kept (in_code_block : bool) (lines : list (list Z)) :
  exists kept,
    kept `sublist_of` lines /\
    Forall (fun l => is_prefix m_fence (trim l) = false) kept /\
    filter_markdown_lines in_code_block lines
    = flat_map (fun l => encode_utf8 (filter_inline_code l) ++ [LF]) kept.
Proof.
  revert in_code_block. induction lines as [|line lines IH]; intros b.
  - exists []. split; [constructor|]. split; [constructor|reflexivity].
  - cbn [filter_markdown_lines].
    destruct (is_prefix m_fence (trim line)) eqn:Ef.
    + destruct (IH (negb b)) as (kept & Hs & Hf & He).
      exists kept. split; [by apply sublist_cons|]. split; [exact Hf|exact He].
    + destruct b.
      * destruct (IH true) as (kept & Hs & Hf & He).
        exists kept. split; [by apply sublist_cons|]. split; [exact Hf|exact He].
      * destruct (IH false) as (kept & Hs & Hf & He).
        exists (line :: kept). split; [by apply sublist_skip|].
        split; [constructor; assumption|].
        cbn [flat_map]. rewrite He. rewrite <- app_assoc. reflexivity.
Qed.

(** C8, counterexample: a CRLF terminator is not kept; the kept line is
    followed by a plain LF. *)
Lemma markdown_crlf_counterexample :
  filter_markdown_code (bytes_of "a" ++ [13; 10]%Z) = bytes_of "a" ++ [10%Z] /\
  filter_markdown_code (bytes_of "a" ++ [13; 10]%Z) <> bytes_of "a" ++ [13; 10]%Z.
Proof. vm_compute. split; [reflexivity|discriminate]. Qed.

Lemma combine_map_S (s : list nat) (ls : list (list Z)) :
  combine (map S s) ls = map (fun p => (S (fst p), snd p)) (combine s ls).
Proof.
  revert ls; induction s as [|i s IH]; intros [|l ls]; simpl; try reflexivity.
  rewrite IH. reflexivity.
Qed.

Lemma filter_map_comm {A B} (f : A -> B) (P : B -> bool) (l : list A) :
  List.filter P (map f l) = map f (List.filter (fun x => P (f x)) l).
Proof.
  induction l as [|x l IH]; simpl; [reflexivity|].
  destruct (P (f x)); simpl; rewrite IH; reflexivity.
Qed.

Lemma map_snd_shift (l : list (nat * list Z)) :
  map snd (map (fun p => (S (fst p), snd p)) l) = map snd l.
Proof. rewrite map_map. reflexivity. Qed.

Lemma filter_markdown_lines_outside (lines : list (list Z)) :
  forall b,
  filter_markdown_lines b lines
  = flat_map (fun l => encode_utf8 (filter_inline_code l) ++ [LF])
      (map snd (List.filter (fun p => negb (is_fence_line (snd p))
                                      && Bool.eqb (Nat.even (fences_before lines (fst p))) (negb b))
                  (combine (seq 0 (length lines)) lines))).
Proof.
  induction lines as [|line lines IH]; intros b; [reflexivity|].
  assert (Hf : forall i, fences_before (line :: lines) (S i)
                        = (if is_fence_line line then 1 else 0) + fences_before lines i).
  { intros i. unfold fences_before. cbn [firstn List.filter].
    destruct (is_fence_line line); reflexivity. }
  assert (H0 : fences_before (line :: lines) 0 = 0) by reflexivity.
  cbn [length seq combine]. rewrite <- seq_shift, combine_map_S.
  cbn [filter_markdown_lines List.filter fst snd]. rewrite filter_map_comm, H0.
  change (is_prefix m_fence (trim line)) with (is_fence_line line).
  destruct (is_fence_line line) eqn:Ef; cbn [negb andb Nat.even].
  - rewrite map_snd_shift, (IH (negb b)).
    f_equal. f_equal. apply List.filter_ext. intros [i l]. cbn [fst snd].
    rewrite Hf, Nat.even_add. cbn [Nat.even].
    destruct b, (Nat.even (fences_before lines i)); reflexivity.
  - destruct b; cbn [Bool.eqb negb].
    + rewrite map_snd_shift, (IH true).
      f_equal. f_equal. apply List.filter_ext. intros [i l]. cbn [fst snd].
      rewrite Hf. reflexivity.
    + cbn [map flat_map snd]. rewrite map_snd_shift, (IH false), <- app_assoc.
      f_equal. f_equal. f_equal. f_equal. apply List.filter_ext. intros [i l]. cbn [fst snd].
      rewrite Hf. reflexivity.
Qed.

(** C8 (amended): on valid UTF-8 input the output is exactly the lines outside
    fenced blocks (the lines that are not fence lines and are preceded by an
    even number of fence lines), in their original order, each with its
    inline code removed and followed by a single LF, whatever its original
    terminator was: CRLF becomes LF and a last line without terminator gets one. *)
Theorem markdown_kept_lines (data text : list Z) (H : from_utf8 data = Some text) :
  filter_markdown_code data
  = flat_map (fun l => encode_utf8 (filter_inline_code l) ++ [LF]) (outside_fence_lines (str_lines text)) /\
  filter_markdown_code (bytes_of "a" ++ [13; 10]%Z) = bytes_of "a" ++ [10%Z] /\
  filter_markdown_code (bytes_of "a") = bytes_of "a" ++ [10%Z].
Proof.
  split; [|split; vm_compute; reflexivity].
  unfold filter_markdown_code. rewrite H, filter_markdown_lines_outside.
  unfold outside_fence_lines. f_equal. f_equal. apply List.filter_ext. intros p.
  destruct (Nat.even _); reflexivity.
Qed.

Lemma markdown_kept_lines_witness :
  from_utf8 (bytes_of "x" ++ [10%Z] ++ m_fence ++ [10; 121; 10]%Z ++ m_fence ++ [10; 122; 13; 10]%Z)
  = Some (bytes_of "x" ++ [10%Z] ++ m_fence ++ [10; 121; 10]%Z ++ m_fence ++ [10; 122; 13; 10]%Z) /\
  (filter_markdown_code (bytes_of "x" ++ [10%Z] ++ m_fence ++ [10; 121; 10]%Z ++ m_fence ++ [10; 122; 13; 10]%Z)
   = flat_map (fun l => encode_utf8 (filter_inline_code l) ++ [LF])
       (outside_fence_lines (str_lines (bytes_of "x" ++ [10%Z] ++ m_fence ++ [10; 121; 10]%Z ++ m_fence ++ [10; 122; 13; 10]%Z))) /\
   filter_markdown_code (bytes_of "a" ++ [13; 10]%Z) = bytes_of "a" ++ [10%Z] /\
   filter_markdown_code (bytes_of "a") = bytes_of "a" ++ [10%Z]).
Proof.
  split; [vm_compute; reflexivity|].
  apply markdown_kept_lines. vm_compute. reflexivity.
Defined.

(** ** Line counts and blank lines on both paths *)


Lemma memchr_iter_from_length (n : Z) (y : list Z) (i : nat) :
  length (memchr_iter_from n y i) = length (memchr_iter n y).
Proof.
  unfold memchr_iter. replace i with (i + 0) by lia.
  rewrite memchr_iter_from_shift, length_map. reflexivity.
Qed.

Lemma memchr_iter_count_app (n : Z) (x y : list Z) :
  length (memchr_iter n (x ++ y)) = length (memchr_iter n x) + length (memchr_iter n y).
Proof.
  unfold memchr_iter at 1. rewrite memchr_iter_from_app, length_app, (memchr_iter_from_length n y).
  reflexivity.
Qed.

Lemma memchr_iter_count_occ (n : Z) (d : list Z) :
  length (memchr_iter n d) = count_occ Z.eq_dec d n.
Proof.
  induction d as [|b d IH]; [reflexivity|].
  change (b :: d) with ([b] ++ d). rewrite memchr_iter_count_app, IH.
  cbn. destruct (Z.eqb_spec b n), (Z.eq_dec b n); simpl; congruence.
Qed.

Lemma concat_par_chunks_aux (chunk_size fuel : nat) (data : list Z) :
  0 < chunk_size -> length data <= fuel -> concat (par_chunks_aux fuel chunk_size data) = data.
Proof.
  intros Hc. revert data. induction fuel as [|fuel IH]; intros data Hl.
  - destruct data; [reflexivity|simpl in Hl; lia].
  - destruct data as [|b d]; [reflexivity|].
    cbn [par_chunks_aux concat]. rewrite IH; [apply firstn_skipn|].
    rewrite length_skipn. simpl in *. lia.
Qed.

Lemma count_lines_sequential (chunk_size parallel_threshold : nat) (data : list Z) :
  0 < chunk_size ->
  count_lines chunk_size parallel_threshold data = length (memchr_iter LF data).
Proof.
  intros Hc. unfold count_lines. destruct (length data <? parallel_threshold); [reflexivity|].
  rewrite <- (concat_par_chunks_aux chunk_size (length data) data Hc) at 2 by lia.
  unfold par_chunks. generalize (par_chunks_aux (length data) chunk_size data) as cs.
  induction cs as [|c cs IH]; [reflexivity|].
  cbn [map concat sum_nat fold_right]. rewrite memchr_iter_count_app.
  unfold sum_nat in IH. rewrite IH. reflexivity.
Qed.

(** blank lines *)
Lemma count_blank_lines_chunk_fold (data : list Z) :
  count_blank_lines_chunk data =
  let '(count, line_start) := fold_left (blank_step data) (memchr_iter LF data) (0, 0) in
  if (line_start <? length data) && forallb is_ascii_whitespace (skipn line_start data)
  then S count else count.
Proof. reflexivity. Qed.

Lemma slice_app_l (x y : list Z) (a b : nat) :
  b <= length x -> slice (x ++ y) a b = slice x a b.
Proof.
  intros Hb. unfold slice.
  destruct (Nat.le_gt_cases a (length x)) as [Ha|Ha].
  - rewrite skipn_app. replace (a - length x) with 0 by lia. rewrite skipn_O.
    rewrite firstn_app, length_skipn. replace (b - a - (length x - a)) with 0 by lia.
    rewrite firstn_O, app_nil_r. reflexivity.
  - replace (b - a) with 0 by lia. reflexivity.
Qed.

Lemma slice_app_r (x y : list Z) (a b : nat) :
  slice (x ++ y) (length x + a) (length x + b) = slice y a b.
Proof.
  unfold slice. rewrite skipn_app, skipn_all2 by lia.
  replace (length x + a - length x) with a by lia.
  replace (length x + b - (length x + a)) with (b - a) by lia. reflexivity.
Qed.

Lemma blank_step_app_l (x y : list Z) (ps : list nat) (s : nat * nat) :
  Forall (fun p => p < length x) ps ->
  fold_left (blank_step (x ++ y)) ps s = fold_left (blank_step x) ps s.
Proof.
  revert s; induction ps as [|q ps IH]; intros [c ls] H; simpl; [reflexivity|].
  inversion H; subst. rewrite slice_app_l by lia. apply IH; assumption.
Qed.

Lemma blank_step_app_r (x y : list Z) (ps : list nat) (c p : nat) :
  fold_left (blank_step (x ++ y)) (map (Nat.add (length x)) ps) (c, length x + p)
  = let r := fold_left (blank_step y) ps (c, p) in (fst r, length x + snd r).
Proof.
  revert c p; induction ps as [|q ps IH]; intros c p; simpl; [reflexivity|].
  rewrite slice_app_r. replace (S (length x + q)) with (length x + S q) by lia.
  apply IH.
Qed.

Lemma blank_step_count (d : list Z) (ps : list nat) (c p : nat) :
  fold_left (blank_step d) ps (c, p)
  = let r := fold_left (blank_step d) ps (0, p) in (c + fst r, snd r).
Proof.
  revert c p; induction ps as [|q ps IH]; intros c p; simpl; [f_equal; lia|].
  destruct (forallb is_ascii_whitespace (slice d p q)); 
    [rewrite IH, (IH 1)|rewrite IH]; simpl; f_equal; lia.
Qed.

Lemma blank_step_prev (d : list Z) (ps : list nat) (c p q : nat) :
  last ps = Some q -> snd (fold_left (blank_step d) ps (c, p)) = S q.
Proof.
  revert c p; induction ps as [|r ps IH]; intros c p H; simpl in *; [discriminate|].
  destruct ps as [|r' ps'].
  - simpl. injection H as ->. reflexivity.
  - apply IH. exact H.
Qed.

(** Cutting the buffer right after a line feed splits the blank-line count. *)
Lemma count_blank_lines_chunk_app (x y : list Z) :
  (x = [] \/ exists x', x = x' ++ [LF]) ->
  count_blank_lines_chunk (x ++ y) = count_blank_lines_chunk x + count_blank_lines_chunk y.
Proof.
  intros Hx. rewrite !count_blank_lines_chunk_fold. unfold memchr_iter.
  rewrite memchr_iter_from_app, Nat.add_0_l.
  replace (length x) with (length x + 0) at 1 by lia.
  rewrite memchr_iter_from_shift, fold_left_app.
  rewrite (blank_step_app_l x y (memchr_iter_from LF x 0))
    by (eapply Forall_impl; [apply memchr_iter_from_bounds|]; simpl; lia).
  destruct (fold_left (blank_step x) (memchr_iter_from LF x 0) (0, 0)) as [cx px] eqn:Ex.
  assert (px = length x) as ->.
  { destruct Hx as [->|[x' ->]].
    - simpl in Ex. injection Ex as _ <-. reflexivity.
    - pose proof (memchr_iter_snoc_last LF x') as Hl. unfold memchr_iter in Hl.
      pose proof (blank_step_prev (x' ++ [LF]) _ 0 0 _ Hl) as Hp.
      rewrite Ex in Hp. simpl in Hp. rewrite Hp, length_app. simpl. lia. }
  rewrite Nat.ltb_irrefl. cbn [andb].
  pose proof (blank_step_app_r x y (memchr_iter_from LF y 0) cx 0) as Hr.
  rewrite Nat.add_0_r in Hr. rewrite Hr, blank_step_count.
  destruct (fold_left (blank_step y) (memchr_iter_from LF y 0) (0, 0)) as [cy py].
  simpl. rewrite length_app.
  replace (length x + py <? length x + length y) with (py <? length y)
    by (destruct (Nat.ltb_spec py (length y)), (Nat.ltb_spec (length x + py) (length x + length y));
        lia).
  rewrite skipn_app, skipn_all2 by lia.
  replace (length x + py - length x) with py by lia. simpl.
  destruct ((py <? length y) && forallb is_ascii_whitespace (skipn py y)); lia.
Qed.

(** A count that splits after every line feed adds up over a line plan. *)
Lemma sum_line_plan (f : list Z -> nat) (data : list Z) :
  (forall x y, (x = [] \/ exists x', x = x' ++ [LF]) -> f (x ++ y) = f x + f y) ->
  f [] = 0 ->
  forall bs a,
  StronglySorted lt (a :: bs) -> last (a :: bs) = Some (length data) ->
  (forall o, In o bs -> o < length data -> after_lf data o) ->
  f (skipn a data) = sum_nat (map f (map (fun '(a, b) => slice data a b) (windows2 (a :: bs)))).
Proof.
  intros Hf H0. induction bs as [|b bs IH]; intros a Hs Hl Hlf.
  - simpl in Hl. injection Hl as ->. rewrite skipn_all. exact H0.
  - pose proof (StronglySorted_le_last _ _ Hs Hl) as Hle.
    inversion Hs as [|? ? Hs' Hfa]; subst. inversion Hfa as [|? ? Hab _]; subst.
    assert (Hb : b <= length data) by (apply Hle; right; left; reflexivity).
    change (windows2 (a :: b :: bs)) with ((a, b) :: windows2 (b :: bs)).
    cbn [map sum_nat fold_right]. fold (sum_nat (map f (map (fun '(a, b) => slice data a b) (windows2 (b :: bs))))).
    rewrite <- (slice_app_skipn data a b) by lia.
    destruct (Nat.eq_dec b (length data)) as [Heq|Hne].
    + assert (bs = []) as ->.
      { destruct bs as [|c bs']; [reflexivity|].
        rewrite last_cons_cons in Hl.
        inversion Hs' as [|? ? _ Hf']; subst.
        assert (c <= length data).
        { apply (StronglySorted_le_last _ _ Hs' Hl). right; left; reflexivity. }
        inversion Hf'; lia. }
      rewrite Heq, skipn_all, app_nil_r. simpl. lia.
    + rewrite Hf.
      * rewrite IH; [reflexivity|exact Hs'| |].
        { destruct bs; [exact Hl|rewrite last_cons_cons in Hl; exact Hl]. }
        intros o Ho. apply Hlf. right; exact Ho.
      * right. exists (slice data a (b - 1)).
        rewrite (slice_snoc data a b) by lia.
        rewrite (Hlf b ltac:(left; reflexivity) ltac:(lia)). reflexivity.
Qed.

Lemma sum_line_chunks (f : list Z -> nat) (chunk_size : nat) (data : list Z) :
  (forall x y, (x = [] \/ exists x', x = x' ++ [LF]) -> f (x ++ y) = f x + f y) ->
  f [] = 0 -> data <> [] ->
  f data = sum_nat (map f (line_chunks chunk_size data)).
Proof.
  intros Hf H0 Hne. unfold line_chunks.
  destruct (find_line_boundaries_shape data chunk_size Hne) as ((Hs & Hh & Hl) & Hlf).
  destruct (find_line_boundaries data chunk_size) as [|a bs]; [discriminate|].
  simpl in Hh. injection Hh as ->.
  rewrite <- (sum_line_plan f data Hf H0 bs 0 Hs Hl). { reflexivity. }
  intros o Ho Hlt. destruct (Hlf o ltac:(right; exact Ho) Hlt) as [->|H]; [|exact H].
  inversion Hs as [|? ? _ Hfa]; subst. rewrite List.Forall_forall in Hfa.
  specialize (Hfa 0 Ho). lia.
Qed.

Lemma count_blank_lines_sequential (chunk_size parallel_threshold : nat) (data : list Z) :
  count_blank_lines chunk_size parallel_threshold data = count_blank_lines_chunk data.
Proof.
  unfold count_blank_lines. destruct (is_empty data) eqn:E.
  - unfold is_empty in E. apply Nat.eqb_eq, length_zero_iff_nil in E. subst. reflexivity.
  - destruct (length data <? parallel_threshold); [reflexivity|].
    assert (data <> []) as Hne by (intros ->; discriminate).
    symmetry. apply sum_line_chunks; [apply count_blank_lines_chunk_app|reflexivity|exact Hne].
Qed.

(** X1: with the program's configuration, [count_lines] is the number of line feed bytes of the buffer, on the sequential and on the parallel path ([par_chunks] cuts anywhere, and line feeds are counted per byte). *)
Theorem count_lines_newline_count (data : list Z) :
  count_lines CHUNK_SIZE PARALLEL_THRESHOLD data = count_occ Z.eq_dec data LF.
Proof.
  rewrite count_lines_sequential by (unfold CHUNK_SIZE; lia).
  apply memchr_iter_count_occ.
Qed.

(** X2: for every chunk size and threshold, [count_blank_lines] equals the sequential scan [count_blank_lines_chunk], because the line-aligned plan cuts only after line feeds; and the count is additive over a cut right after a line feed. *)
Theorem count_blank_lines_path_independent (chunk_size parallel_threshold : nat) (data : list Z) :
  count_blank_lines chunk_size parallel_threshold data = count_blank_lines_chunk data /\
  (forall x y, (x = [] \/ exists x', x = x' ++ [LF]) ->
     count_blank_lines chunk_size parallel_threshold (x ++ y)
     = count_blank_lines chunk_size parallel_threshold x
       + count_blank_lines chunk_size parallel_threshold y).
Proof.
  split; [apply count_blank_lines_sequential|].
  intros x y Hx. rewrite !count_blank_lines_sequential. apply count_blank_lines_chunk_app, Hx.
Qed.

(** X3: for every chunk size and threshold, [max_line_length] and
    [generate_histogram] equal their sequential scans, and
    [calculate_statistics] builds the line-length list of the sequential
    scan, so its mean, median, minimum, maximum and empty-line count are those
    of the sequential scan. The standard deviation is left out: the source sums
    its variance terms with [iter().sum()] below the threshold and with
    rayon's [par_iter().sum()] above it, two different f64 summation orders. *)
Theorem line_statistics_path_independent (chunk_size parallel_threshold : nat) (data : list Z) :
  let st := calculate_statistics chunk_size parallel_threshold data in
  let sq := if is_empty data then zero_statistics
            else statistics_of_lengths (collect_line_lengths_chunk data) in
  max_line_length chunk_size parallel_threshold data = max_line_length_chunk data /\
  generate_histogram chunk_size parallel_threshold data = generate_histogram_chunk data /\
  line_lengths chunk_size parallel_threshold data = collect_line_lengths_chunk data /\
  Stats.mean_line_length st = Stats.mean_line_length sq /\
  Stats.median_line_length st = Stats.median_line_length sq /\
  Stats.min_line_length st = Stats.min_line_length sq /\
  Stats.max_line_length st = Stats.max_line_length sq /\
  Stats.empty_lines st = Stats.empty_lines sq.
Proof.
  intros st sq.
  assert (Hst : st = sq)
    by (unfold st, sq, calculate_statistics; rewrite line_lengths_sequential; reflexivity).
  split; [apply max_line_length_sequential|].
  split; [apply generate_histogram_sequential|].
  split; [apply line_lengths_sequential|].
  rewrite Hst. repeat split.
Qed.

(** ** Binary check, arguments, totals and file lists *)

Lemma memchr_iter_from_nil_iff (n : Z) (x : list Z) (i : nat) :
  memchr_iter_from n x i = [] <-> ~ In n x.
Proof.
  split; [|apply memchr_iter_from_none].
  revert i; induction x as [|b x IH]; intros i H Hin; [exact Hin|].
  simpl in H. destruct (Z.eqb_spec b n); [discriminate|].
  destruct Hin as [->|Hin]; [congruence|]. exact (IH _ H Hin).
Qed.

Lemma In_firstn_nth_error (x : Z) (l : list Z) (k : nat) :
  In x (firstn k l) <-> exists i, i < k /\ nth_error l i = Some x.
Proof.
  revert l; induction k as [|k IH]; intros l; [simpl; split; [tauto|intros (i & Hi & _); lia]|].
  destruct l as [|b l]; simpl.
  - split; [tauto|]. intros (i & _ & Hi). destruct i; discriminate.
  - rewrite IH. split.
    + intros [->|(i & Hi & Hn)]; [exists 0; split; [lia|reflexivity]|].
      exists (S i). split; [lia|exact Hn].
    + intros ([|i] & Hi & Hn); [left; injection Hn; auto|].
      right. exists i. split; [lia|exact Hn].
Qed.

(** X4: [is_binary] holds exactly when a NUL byte occurs at one of the first 8192 positions; bytes after the first 8192 are never looked at. *)
Theorem is_binary_spec (data : list Z) :
  (is_binary data = true <->
   exists i, i < BINARY_SAMPLE_SIZE /\ nth_error data i = Some 0%Z) /\
  is_binary (firstn BINARY_SAMPLE_SIZE data) = is_binary data.
Proof.
  assert (Hchar : forall d, is_binary d = true <->
                  exists i, i < BINARY_SAMPLE_SIZE /\ nth_error d i = Some 0%Z).
  { intros d. unfold is_binary, memchr, memchr_iter.
    destruct (memchr_iter_from 0%Z (firstn (Nat.min (length d) BINARY_SAMPLE_SIZE) d) 0) eqn:E;
      simpl.
    - apply memchr_iter_from_nil_iff in E. split; [discriminate|].
      intros (i & Hi & Hn). exfalso. apply E, In_firstn_nth_error. exists i. split; [|exact Hn].
      assert (i < length d) by (apply nth_error_Some; congruence). lia.
    - split; [intros _|reflexivity].
      assert (In 0%Z (firstn (Nat.min (length d) BINARY_SAMPLE_SIZE) d)) as Hin.
      { destruct (In_dec Z.eq_dec 0%Z (firstn (Nat.min (length d) BINARY_SAMPLE_SIZE) d))
          as [H|H]; [exact H|].
        apply memchr_iter_from_nil_iff with (i := 0) in H. congruence. }
      apply In_firstn_nth_error in Hin as (i & Hi & Hn). exists i. split; [lia|exact Hn]. }
  split; [apply Hchar|].
  apply Bool.eq_true_iff_eq. rewrite !Hchar. split.
  - intros (i & Hi & Hn). exists i. split; [exact Hi|]. rewrite nth_error_firstn in Hn.
    destruct (i <? BINARY_SAMPLE_SIZE); [exact Hn|discriminate].
  - intros (i & Hi & Hn). exists i. split; [exact Hi|]. rewrite nth_error_firstn.
    destruct (Nat.ltb_spec i BINARY_SAMPLE_SIZE); [exact Hn|lia].
Qed.

(** X5: after [Args::normalize] some count or report is always selected; normalizing twice is normalizing once; arguments with a selection are left unchanged; with none, exactly lines, bytes and words become selected. *)
Theorem normalize_spec (a : Config.Args) :
  Config.nothing_selected (Config.normalize a) = false /\
  Config.normalize (Config.normalize a) = Config.normalize a /\
  (Config.nothing_selected a = false -> Config.normalize a = a) /\
  (Config.nothing_selected a = true ->
     Config.lines (Config.normalize a) = true /\ Config.bytes (Config.normalize a) = true /\
     Config.words (Config.normalize a) = true /\
     Config.chars (Config.normalize a) = false /\
     Config.max_line_length (Config.normalize a) = false /\
     Config.pattern (Config.normalize a) = None /\ Config.stats (Config.normalize a) = false /\
     Config.unique (Config.normalize a) = false /\ Config.histogram (Config.normalize a) = false).
Proof.
  unfold Config.normalize. destruct (Config.nothing_selected a) eqn:E.
  - split; [reflexivity|]. split; [reflexivity|]. split; [discriminate|].
    intros _. unfold Config.nothing_selected in E. cbn.
    repeat match goal with
    | H : (_ && _) = true |- _ => apply andb_true_iff in H as [? ?]
    | H : negb _ = true |- _ => apply negb_true_iff in H
    end.
    repeat split; try assumption.
    destruct (Config.pattern a); [discriminate|reflexivity].
  - rewrite E. split; [reflexivity|]. split; [reflexivity|].
    split; [reflexivity|]. intros H; discriminate.
Qed.

Lemma total_fold (results : list (option Main.Counts)) (acc : Main.Counts) :
  let t := fold_left (fun total r => match r with Some c => Main.add total c | None => total end)
             results acc in
  let cs := omap (fun r : option Main.Counts => r) results in
  Main.lines t = Main.lines acc + sum_nat (map Main.lines cs) /\
  Main.words t = Main.words acc + sum_nat (map Main.words cs) /\
  Main.bytes t = Main.bytes acc + sum_nat (map Main.bytes cs) /\
  Main.chars t = Main.chars acc + sum_nat (map Main.chars cs) /\
  Main.max_line_length_count t
  = Nat.max (Main.max_line_length_count acc) (list_max (map Main.max_line_length_count cs)) /\
  Main.blank_lines t = Main.blank_lines acc + sum_nat (map Main.blank_lines cs) /\
  Main.pattern t = Main.pattern acc + sum_nat (map Main.pattern cs) /\
  Main.unique_words t = Main.unique_words acc + sum_nat (map Main.unique_words cs) /\
  Main.statistics t = Main.statistics acc /\ Main.histogram t = Main.histogram acc.
Proof.
  revert acc. induction results as [|[c|] results IH]; intros acc; cbn zeta.
  - cbn. repeat split; lia.
  - cbn [fold_left]. change (omap (fun r : option Main.Counts => r) (Some c :: results)) with (c :: omap (fun r : option Main.Counts => r) results).
    destruct (IH (Main.add acc c)) as (H1 & H2 & H3 & H4 & H5 & H6 & H7 & H8 & H9 & H10).
    cbn zeta in *. rewrite H1, H2, H3, H4, H5, H6, H7, H8, H9, H10.
    unfold sum_nat, list_max.
    cbn [map fold_right Main.add Main.lines Main.words Main.bytes Main.chars
         Main.max_line_length_count Main.blank_lines Main.pattern Main.unique_words
         Main.statistics Main.histogram].
    repeat split; lia.
  - cbn [fold_left]. change (omap (fun r : option Main.Counts => r) (None :: results)) with (omap (fun r : option Main.Counts => r) results). apply IH.
Qed.

(** X6: the total of [main] sums every count of the files read without error, takes the maximum of their longest lines, and carries no statistics and no histogram. *)
Theorem total_counts (results : list (option Main.Counts)) :
  let t := Main.total results in
  let cs := omap (fun r : option Main.Counts => r) results in
  Main.lines t = sum_nat (map Main.lines cs) /\
  Main.words t = sum_nat (map Main.words cs) /\
  Main.bytes t = sum_nat (map Main.bytes cs) /\
  Main.chars t = sum_nat (map Main.chars cs) /\
  Main.max_line_length_count t = list_max (map Main.max_line_length_count cs) /\
  Main.blank_lines t = sum_nat (map Main.blank_lines cs) /\
  Main.pattern t = sum_nat (map Main.pattern cs) /\
  Main.unique_words t = sum_nat (map Main.unique_words cs) /\
  Main.statistics t = None /\ Main.histogram t = None.
Proof.
  unfold Main.total. destruct (total_fold results Main.new) as (H1 & H2 & H3 & H4 & H5 & H6 & H7 & H8 & H9 & H10).
  cbn zeta in *. rewrite H1, H2, H3, H4, H5, H6, H7, H8, H9, H10. cbn.
  repeat split; lia.
Qed.

Lemma split_nul_app (b rest : list Z) :
  ~ In 0%Z b -> Main.split_nul (b ++ 0%Z :: rest) = b :: Main.split_nul rest.
Proof.
  induction b as [|c b IH]; intros Hb; [reflexivity|].
  cbn [app Main.split_nul]. destruct (Z.eqb_spec c 0) as [->|Hc].
  - exfalso. apply Hb. left; reflexivity.
  - rewrite IH by (intros H; apply Hb; right; exact H). reflexivity.
Qed.

Lemma from_utf8_nonempty (b : list Z) : b <> [] -> from_utf8 b <> Some [].
Proof.
  destruct b as [|b0 r0]; [congruence|]. intros _. cbn [from_utf8].
  repeat match goal with
  | |- (if ?c then _ else _) <> Some [] => destruct c
  | |- match ?l with [] => _ | _ :: _ => _ end <> Some [] => destruct l
  | |- None <> Some [] => discriminate
  | |- option_map _ ?o <> Some [] => destruct o; cbn; discriminate
  end.
Qed.

(** X7: [read_files_from_file] gives back, in order, the names written as NUL-terminated byte strings (each non-empty and NUL-free), dropping those that are not valid UTF-8; no name it returns is empty. *)
Theorem files0_names_spec (names : list (list Z))
    (H : Forall (fun b => b <> [] /\ ~ In 0%Z b) names) :
  Main.files0_names (concat (map (fun b => b ++ [0%Z]) names)) = omap from_utf8 names /\
  (forall content, Forall (fun s => s <> []) (Main.files0_names content)).
Proof.
  split.
  - unfold Main.files0_names. f_equal.
    induction H as [|b names [Hne Hnul] _ IH]; [reflexivity|].
    cbn [map concat]. rewrite <- app_assoc. cbn [app].
    rewrite split_nul_app by exact Hnul.
    rewrite filter_cons_True by exact Hne. rewrite IH. reflexivity.
  - intros content. unfold Main.files0_names.
    assert (Forall (fun s : list Z => s <> [])
              (filter (fun s : list Z => s <> []) (Main.split_nul content))) as Hl.
    { generalize (Main.split_nul content) as l.
      induction l as [|a l IHl]; [constructor|]. rewrite filter_cons.
      destruct (decide (a <> [])); [constructor|]; assumption. }
    revert Hl. generalize (filter (fun s : list Z => s <> []) (Main.split_nul content)) as l'.
    induction l' as [|b l' IH]; intros Hl; [constructor|].
    inversion Hl as [|? ? Hb Hl']; subst. cbn [omap list_omap].
    destruct (from_utf8 b) as [s|] eqn:E; [|apply IH, Hl'].
    constructor; [|apply IH, Hl']. intros ->. exact (from_utf8_nonempty b Hb E).
Qed.

Lemma files0_names_spec_witness :
  Forall (fun b => b <> [] /\ ~ In 0%Z b) [bytes_of "a.txt"; bytes_of "b"; [98; 255]%Z] /\
  Main.files0_names (concat (map (fun b => b ++ [0%Z]) [bytes_of "a.txt"; bytes_of "b"; [98; 255]%Z]))
  = omap from_utf8 [bytes_of "a.txt"; bytes_of "b"; [98; 255]%Z] /\
  (forall content, Forall (fun s => s <> []) (Main.files0_names content)).
Proof.
  assert (Hf : Forall (fun b => b <> [] /\ ~ In 0%Z b) [bytes_of "a.txt"; bytes_of "b"; [98; 255]%Z]).
  { repeat apply List.Forall_cons; try apply List.Forall_nil; (split; [discriminate|intros Hin; vm_compute in Hin; intuition congruence]). }
  split; [exact Hf|]. apply (files0_names_spec _ Hf).
Defined.

(** ** Output of the filters *)

Lemma filter_inline_code_loop_spec (line : list Z) (in_code : bool) :
  ~ In 96%Z (filter_inline_code_loop line in_code) /\
  filter_inline_code_loop line in_code `sublist_of` line /\
  (~ In 96%Z line -> in_code = false -> filter_inline_code_loop line in_code = line).
Proof.
  revert in_code. induction line as [|c line IH]; intros b; cbn [filter_inline_code_loop].
  - split; [intros []|]. split; [constructor|reflexivity].
  - destruct (Z.eqb_spec c 96) as [->|Hc].
    + destruct (IH (negb b)) as (H1 & H2 & _). split; [exact H1|]. split.
      * apply sublist_cons, H2.
      * intros Hn. exfalso. apply Hn. left; reflexivity.
    + destruct b; cbn [negb].
      * destruct (IH true) as (H1 & H2 & _). split; [exact H1|]. split.
        { apply sublist_cons, H2. }
        intros _ H; discriminate.
      * destruct (IH false) as (H1 & H2 & H3). split.
        { intros [H|H]; [congruence|exact (H1 H)]. }
        split; [apply sublist_skip, H2|].
        intros Hn _. rewrite H3; [reflexivity| |reflexivity].
        intros H. apply Hn. right; exact H.
Qed.

(** X8: [filter_inline_code] leaves no backtick, keeps the other characters in order (its result is a subsequence of the line), and is idempotent. *)
Theorem filter_inline_code_spec (line : list Z) :
  ~ In 96%Z (filter_inline_code line) /\
  filter_inline_code line `sublist_of` line /\
  filter_inline_code (filter_inline_code line) = filter_inline_code line /\
  filter_inline_code (bytes_of "a `b` c") = bytes_of "a  c".
Proof.
  unfold filter_inline_code.
  destruct (filter_inline_code_loop_spec line false) as (H1 & H2 & _).
  split; [exact H1|]. split; [exact H2|]. split; [|reflexivity].
  destruct (filter_inline_code_loop_spec (filter_inline_code_loop line false) false) as (_ & _ & H3).
  apply H3; [exact H1|reflexivity].
Qed.

(** Bytes of the UTF-8 encoding. *)
Lemma encode_char_bytes (c b : Z) :
  In b (encode_char c) -> (c < 128 /\ b = c)%Z \/ (128 <= b)%Z.
Proof.
  unfold encode_char. intros Hin.
  destruct (Z.ltb_spec c 128); [left; destruct Hin as [<-|[]]; lia|right].
  pose proof (Z.mod_pos_bound c 64 ltac:(lia)).
  pose proof (Z.mod_pos_bound (c / 64) 64 ltac:(lia)).
  pose proof (Z.mod_pos_bound (c / 4096) 64 ltac:(lia)).
  assert (0 <= c / 64)%Z by (apply Z.div_pos; lia).
  assert (0 <= c / 4096)%Z by (apply Z.div_pos; lia).
  assert (0 <= c / 262144)%Z by (apply Z.div_pos; lia).
  destruct (Z.ltb_spec c 2048); [simpl in Hin; intuition lia|].
  destruct (Z.ltb_spec c 65536); simpl in Hin; intuition lia.
Qed.

Lemma encode_utf8_ascii (s : list Z) (b : Z) :
  (b < 128)%Z -> In b (encode_utf8 s) -> In b s.
Proof.
  intros Hb Hin. unfold encode_utf8 in Hin. apply in_flat_map in Hin as (c & Hc & Hin).
  destruct (encode_char_bytes c b Hin) as [[_ ->]|]; [exact Hc|lia].
Qed.

Lemma ascii_whitespace_whitespace (c : Z) :
  is_ascii_whitespace c = true -> is_whitespace c = true.
Proof.
  unfold is_ascii_whitespace, is_whitespace. intros H.
  repeat rewrite orb_true_iff in H. repeat rewrite orb_true_iff.
  rewrite !andb_true_iff, !Z.leb_le, !Z.eqb_eq.
  repeat rewrite Z.eqb_eq in H. lia.
Qed.

Lemma encode_utf8_not_blank (s : list Z) :
  forallb is_whitespace s = false -> forallb is_ascii_whitespace (encode_utf8 s) = false.
Proof.
  intros H. apply not_true_iff_false. intros Hall.
  apply not_true_iff_false in H. apply H. apply forallb_forall. intros c Hc.
  destruct (is_whitespace c) eqn:Ec; [reflexivity|exfalso].
  rewrite forallb_forall in Hall.
  destruct (Z.ltb_spec c 128).
  - assert (In c (encode_utf8 s)) as Hin.
    { unfold encode_utf8. apply in_flat_map. exists c. split; [exact Hc|].
      unfold encode_char. destruct (Z.ltb_spec c 128); [left; reflexivity|lia]. }
    specialize (Hall c Hin). apply ascii_whitespace_whitespace in Hall. congruence.
  - destruct (encode_char c) as [|b rest] eqn:Ee.
    + unfold encode_char in Ee. destruct (c <? 128)%Z, (c <? 2048)%Z, (c <? 65536)%Z; discriminate.
    + assert (In b (encode_char c)) as Hb by (rewrite Ee; left; reflexivity).
      destruct (encode_char_bytes c b Hb) as [[? _]|Hge]; [lia|].
      assert (In b (encode_utf8 s)) as Hin.
      { unfold encode_utf8. apply in_flat_map. exists c. split; assumption. }
      specialize (Hall b Hin). unfold is_ascii_whitespace in Hall.
      repeat rewrite orb_true_iff in Hall. repeat rewrite Z.eqb_eq in Hall. lia.
Qed.

Lemma ends_lf_app (x y : list Z) :
  (x = [] \/ last x = Some LF) -> (y = [] \/ last y = Some LF) ->
  x ++ y = [] \/ last (x ++ y) = Some LF.
Proof.
  intros Hx [->|Hy]; [rewrite app_nil_r; exact Hx|right].
  apply last_Some in Hy as [y' ->]. rewrite app_assoc. apply last_snoc.
Qed.

Lemma flat_map_lines_ends_lf (f : list Z -> list Z) (ts : list (list Z)) :
  let out := flat_map (fun t => f t ++ [LF]) ts in out = [] \/ last out = Some LF.
Proof.
  induction ts as [|t ts IH]; [left; reflexivity|]. cbn [flat_map].
  apply ends_lf_app; [right; apply last_snoc|exact IH].
Qed.

(** X9: on valid UTF-8, the output of [filter_markdown_code] contains no backtick byte (fence lines are dropped and inline spans removed) and is empty or ends with a line feed. *)
Theorem filter_markdown_code_output (data text : list Z) (H : from_utf8 data = Some text) :
  ~ In 96%Z (filter_markdown_code data) /\
  (filter_markdown_code data = [] \/ last (filter_markdown_code data) = Some LF).
Proof.
  unfold filter_markdown_code. rewrite H.
  destruct (filter_markdown_lines_kept false (str_lines text)) as (kept & _ & _ & He).
  rewrite He. split; [|apply flat_map_lines_ends_lf].
  intros Hin. apply in_flat_map in Hin as (l & _ & Hin).
  apply in_app_or in Hin as [Hin|[Hin|[]]]; [|discriminate].
  apply encode_utf8_ascii in Hin; [|lia].
  destruct (filter_inline_code_loop_spec l false) as (Hn & _ & _). exact (Hn Hin).
Qed.


Lemma In_skipn_In (c : Z) (l : list Z) (k : nat) : In c (skipn k l) -> In c l.
Proof.
  revert l. induction k as [|k IH]; intros [|b l] Hc; [exact Hc|exact Hc|destruct Hc|].
  right. apply IH, Hc.
Qed.

Lemma In_firstn_In (c : Z) (l : list Z) (k : nat) : In c (firstn k l) -> In c l.
Proof.
  revert l. induction k as [|k IH]; intros [|b l] Hc; [destruct Hc|destruct Hc|destruct Hc|].
  destruct Hc as [->|Hc]; [left; reflexivity|right; apply IH, Hc].
Qed.

Lemma within_skipn (line l : list Z) (k : nat) : within line l -> within line (skipn k l).
Proof. intros H c Hc. apply H, (In_skipn_In c l k Hc). Qed.

Lemma within_firstn (line l : list Z) (k : nat) : within line l -> within line (firstn k l).
Proof. intros H c Hc. apply H, (In_firstn_In c l k Hc). Qed.

Lemma within_app (line x y : list Z) : within line x -> within line y -> within line (x ++ y).
Proof. intros Hx Hy c Hc. apply in_app_or in Hc as [Hc|Hc]; auto. Qed.

Lemma comment_line_loop_within (line : list Z) (fuel : nat) :
  forall st current lo, within line current -> within line lo ->
  within line (snd (comment_line_loop fuel st current lo)).
Proof.
  induction fuel as [|fuel IH]; intros st current lo Hc Hlo; [exact Hlo|].
  destruct current as [|x r]; [exact Hlo|].
  cbn [comment_line_loop].
  repeat (case_match; try (apply IH; auto using within_skipn, within_firstn, within_app);
          try (cbn [snd]; auto using within_skipn, within_firstn, within_app)).
Qed.

Lemma In_last (l : list Z) (x : Z) : last l = Some x -> In x l.
Proof. intros H. apply last_Some in H as [l' ->]. apply in_or_app. right; left; reflexivity. Qed.

Lemma In_removelast_In (c : Z) (l : list Z) : In c (removelast l) -> In c l.
Proof.
  induction l as [|b l IH]; [intros []|]. destruct l as [|b' l']; [intros []|].
  intros [->|Hc]; [left; reflexivity|right; apply IH, Hc].
Qed.

Lemma split_inclusive_lf_pieces (cur text : list Z) :
  ~ In LF cur ->
  Forall (fun p => exists q, ~ In LF q /\ (p = q \/ p = q ++ [LF])) (split_inclusive_lf cur text).
Proof.
  revert cur. induction text as [|c text IH]; intros cur Hcur; cbn [split_inclusive_lf].
  - destruct cur as [|z cur]; [constructor|].
    constructor; [|constructor]. exists (z :: cur). split; [exact Hcur|left; reflexivity].
  - destruct (Z.eqb_spec c LF) as [->|Hc].
    + constructor; [exists cur; split; [exact Hcur|right; reflexivity]|].
      apply IH. intros [].
    + apply IH. intros Hin. apply in_app_or in Hin as [Hin|[Hin|[]]]; [exact (Hcur Hin)|congruence].
Qed.

Lemma strip_line_ending_no_lf (p q : list Z) :
  ~ In LF q -> (p = q \/ p = q ++ [LF]) -> ~ In LF (strip_line_ending p).
Proof.
  intros Hq [ -> | -> ]; unfold strip_line_ending.
  - assert (strip_suffix LF q = None) as ->; [|exact Hq].
    unfold strip_suffix. destruct (last q) as [x|] eqn:E; [|reflexivity].
    destruct (Z.eqb_spec x LF) as [->|]; [|reflexivity].
    exfalso. apply Hq, In_last, E.
  - unfold strip_suffix at 1. rewrite last_snoc, Z.eqb_refl, removelast_last.
    unfold strip_suffix. destruct (last q) as [x|]; [|exact Hq].
    destruct (x =? CR)%Z; [|exact Hq].
    intros Hin. apply Hq, In_removelast_In, Hin.
Qed.

Lemma str_lines_no_lf (text : list Z) : Forall (fun l => ~ In LF l) (str_lines text).
Proof.
  unfold str_lines. pose proof (split_inclusive_lf_pieces [] text ltac:(intros [])) as H.
  induction H as [|p ps (q & Hq & Hp) _ IH]; [constructor|].
  constructor; [exact (strip_line_ending_no_lf p q Hq Hp)|exact IH].
Qed.

Lemma In_drop_while (p : Z -> bool) (c : Z) (s : list Z) : In c (drop_while p s) -> In c s.
Proof.
  induction s as [|b s IH]; [intros []|]. cbn [drop_while].
  destruct (p b); [intros H; right; apply IH, H|intros H; exact H].
Qed.

Lemma In_trim_end (c : Z) (s : list Z) : In c (trim_end s) -> In c s.
Proof.
  unfold trim_end. intros H. apply in_rev in H. apply In_drop_while in H. apply in_rev, H.
Qed.

Lemma filter_comment_lines_shape (st : comment_state) (lines : list (list Z)) :
  Forall (fun l => ~ In LF l) lines ->
  exists ts,
    Forall (fun t => forallb is_whitespace t = false /\ ~ In LF t) ts /\
    filter_comment_lines st lines = flat_map (fun t => encode_utf8 t ++ [LF]) ts.
Proof.
  revert st. induction lines as [|line lines IH]; intros st Hl; [exists []; split; [constructor|reflexivity]|].
  inversion Hl as [|? ? Hline Hl']; subst.
  cbn [filter_comment_lines].
  pose proof (comment_line_loop_within line (S (length line)) st line []
                ltac:(intros c Hc; exact Hc) ltac:(intros c [])) as Hw.
  destruct (comment_line_loop (S (length line)) st line []) as [st' lo].
  cbn [snd] in Hw.
  destruct (IH st' Hl') as (ts & Hts & He).
  destruct (forallb is_whitespace (trim_end lo)) eqn:Eb.
  - exists ts. split; [exact Hts|exact He].
  - exists (trim_end lo :: ts). split.
    + constructor; [|exact Hts]. split; [exact Eb|].
      intros Hin. apply Hline, Hw, In_trim_end, Hin.
    + cbn [flat_map]. rewrite He. rewrite <- app_assoc. reflexivity.
Qed.

Lemma encode_utf8_no_lf (t : list Z) : ~ In LF t -> ~ In LF (encode_utf8 t).
Proof. intros Ht Hin. apply Ht. apply (encode_utf8_ascii t LF); [unfold LF; lia|exact Hin]. Qed.

Lemma count_blank_lines_chunk_line (e : list Z) :
  ~ In LF e -> forallb is_ascii_whitespace e = false ->
  count_blank_lines_chunk (e ++ [LF]) = 0.
Proof.
  intros Hlf Hb. rewrite count_blank_lines_chunk_fold. unfold memchr_iter.
  rewrite memchr_iter_from_app, memchr_iter_from_none by exact Hlf.
  cbn [app memchr_iter_from]. rewrite Z.eqb_refl. cbn [fold_left blank_step].
  rewrite slice_app_l by lia. unfold slice. rewrite Nat.sub_0_r, skipn_O, Nat.add_0_l, firstn_all, Hb.
  rewrite length_app. cbn [length]. replace (S (length e) <? length e + 1) with false
    by (symmetry; apply Nat.ltb_ge; lia).
  reflexivity.
Qed.

(** X10: on valid UTF-8, the output of [filter_code_comments] has no blank line, whatever the chunk size and threshold of [count_blank_lines], and is empty or ends with a line feed. *)
Theorem filter_code_comments_output (chunk_size parallel_threshold : nat) (data text : list Z)
    (H : from_utf8 data = Some text) :
  count_blank_lines chunk_size parallel_threshold (filter_code_comments data) = 0 /\
  (filter_code_comments data = [] \/ last (filter_code_comments data) = Some LF).
Proof.
  unfold filter_code_comments. rewrite H.
  destruct (filter_comment_lines_shape initial_comment_state (str_lines text) (str_lines_no_lf text))
    as (ts & Hts & ->).
  split; [|apply flat_map_lines_ends_lf].
  rewrite count_blank_lines_sequential.
  induction Hts as [|t ts [Hb Hlf] _ IH]; [reflexivity|].
  cbn [flat_map]. rewrite count_blank_lines_chunk_app.
  - rewrite IH, count_blank_lines_chunk_line; [reflexivity|apply encode_utf8_no_lf, Hlf|].
    apply encode_utf8_not_blank, Hb.
  - right. exists (encode_utf8 t). reflexivity.
Qed.

Lemma filter_markdown_code_output_witness :
  from_utf8 (bytes_of "a `b` c" ++ [10%Z] ++ m_fence ++ [10; 120; 10]%Z ++ m_fence ++ [10%Z])
  = Some (bytes_of "a `b` c" ++ [10%Z] ++ m_fence ++ [10; 120; 10]%Z ++ m_fence ++ [10%Z]) /\
  ~ In 96%Z (filter_markdown_code
               (bytes_of "a `b` c" ++ [10%Z] ++ m_fence ++ [10; 120; 10]%Z ++ m_fence ++ [10%Z])) /\
  (filter_markdown_code
     (bytes_of "a `b` c" ++ [10%Z] ++ m_fence ++ [10; 120; 10]%Z ++ m_fence ++ [10%Z]) = [] \/
   last (filter_markdown_code
           (bytes_of "a `b` c" ++ [10%Z] ++ m_fence ++ [10; 120; 10]%Z ++ m_fence ++ [10%Z]))
   = Some LF).
Proof.
  split; [vm_compute; reflexivity|].
  apply (filter_markdown_code_output _
           (bytes_of "a `b` c" ++ [10%Z] ++ m_fence ++ [10; 120; 10]%Z ++ m_fence ++ [10%Z])).
  vm_compute. reflexivity.
Defined.

Lemma filter_code_comments_output_witness :
  from_utf8 (bytes_of "a" ++ [10; 10]%Z ++ bytes_of "  // c" ++ [10%Z] ++ bytes_of "b /* x */" ++ [10%Z])
  = Some (bytes_of "a" ++ [10; 10]%Z ++ bytes_of "  // c" ++ [10%Z] ++ bytes_of "b /* x */" ++ [10%Z]) /\
  count_blank_lines 2 1
    (filter_code_comments
       (bytes_of "a" ++ [10; 10]%Z ++ bytes_of "  // c" ++ [10%Z] ++ bytes_of "b /* x */" ++ [10%Z]))
  = 0 /\
  (filter_code_comments
     (bytes_of "a" ++ [10; 10]%Z ++ bytes_of "  // c" ++ [10%Z] ++ bytes_of "b /* x */" ++ [10%Z])
   = [] \/
   last (filter_code_comments
           (bytes_of "a" ++ [10; 10]%Z ++ bytes_of "  // c" ++ [10%Z] ++ bytes_of "b /* x */" ++ [10%Z]))
   = Some LF).
Proof.
  split; [vm_compute; reflexivity|].
  apply (filter_code_comments_output 2 1 _
           (bytes_of "a" ++ [10; 10]%Z ++ bytes_of "  // c" ++ [10%Z] ++ bytes_of "b /* x */" ++ [10%Z])).
  vm_compute. reflexivity.
Defined.

(** ** Pattern, character, line-record and word counts *)

Lemma find_iter_from_sound (pat : list Z) (Hne : pat <> []) :
  forall hay i skip p, In p (find_iter_from pat hay i skip) ->
  i + skip <= p /\ is_prefix pat (skipn (p - i) hay) = true.
Proof.
  induction hay as [|h hay IH]; intros i skip p Hin; cbn [find_iter_from] in Hin; [contradiction|].
  destruct (0 <? skip) eqn:Hs.
  - apply Nat.ltb_lt in Hs. destruct (IH _ _ _ Hin) as [Hle Hp].
    split; [lia|]. replace (p - i) with (S (p - S i)) by lia. exact Hp.
  - apply Nat.ltb_ge in Hs. destruct (is_prefix pat (h :: hay)) eqn:Hm.
    + destruct Hin as [<-|Hin].
      * split; [lia|]. rewrite Nat.sub_diag. exact Hm.
      * destruct (IH _ _ _ Hin) as [Hle Hp].
        split; [lia|]. replace (p - i) with (S (p - S i)) by lia. exact Hp.
    + destruct (IH _ _ _ Hin) as [Hle Hp].
      split; [lia|]. replace (p - i) with (S (p - S i)) by lia. exact Hp.
Qed.

Lemma find_iter_from_sorted (pat : list Z) (Hne : pat <> []) :
  forall hay i skip,
  StronglySorted (fun a b => a + length pat <= b) (find_iter_from pat hay i skip).
Proof.
  induction hay as [|h hay IH]; intros i skip; cbn [find_iter_from]; [constructor|].
  destruct (0 <? skip); [apply IH|].
  destruct (is_prefix pat (h :: hay)); [|apply IH].
  constructor; [apply IH|]. apply List.Forall_forall. intros p Hin.
  destruct (find_iter_from_sound pat Hne _ _ _ _ Hin) as [Hle _].
  destruct pat; [congruence|]. simpl in *. lia.
Qed.

Lemma find_iter_from_complete (pat : list Z) (Hne : pat <> []) :
  forall hay i skip q, skip <= q -> is_prefix pat (skipn q hay) = true ->
  exists p, In p (find_iter_from pat hay i skip) /\ p <= i + q < p + length pat.
Proof.
  induction hay as [|h hay IH]; intros i skip q Hq Hp; cbn [find_iter_from].
  - rewrite skipn_nil in Hp. destruct pat; [congruence|discriminate].
  - destruct (0 <? skip) eqn:Hs.
    + apply Nat.ltb_lt in Hs. destruct q as [|q]; [lia|].
      destruct (IH (S i) (skip - 1) q ltac:(lia) Hp) as (p & Hin & Hr).
      exists p. split; [exact Hin|lia].
    + destruct (is_prefix pat (h :: hay)) eqn:Hm.
      * destruct (Nat.lt_ge_cases q (length pat)) as [Hlt|Hge].
        { exists i. split; [left; reflexivity|lia]. }
        destruct q as [|q]; [destruct pat; [congruence|simpl in Hge; lia]|].
        destruct (IH (S i) (length pat - 1) q ltac:(lia) Hp) as (p & Hin & Hr).
        exists p. split; [right; exact Hin|lia].
      * destruct q as [|q]; [cbn in Hp; congruence|].
        destruct (IH (S i) 0 q ltac:(lia) Hp) as (p & Hin & Hr).
        exists p. split; [exact Hin|lia].
Qed.

(** A list of positions, each at least [n] after the previous one, all in
    [[lo, hi - n]], has at most [(hi - lo) / n] elements. *)
Lemma gapped_length (n hi : nat) :
  forall l lo, StronglySorted (fun a b => a + n <= b) l ->
  Forall (fun p => lo <= p /\ p + n <= hi) l -> length l * n <= hi - lo.
Proof.
  induction l as [|a l IH]; intros lo Hs Hf; [simpl; lia|].
  inversion Hs as [|? ? Hs' Ha]; subst. inversion Hf as [|? ? [Hlo Hhi] Hf']; subst.
  assert (length l * n <= hi - (a + n)).
  { apply IH; [exact Hs'|]. apply List.Forall_forall. intros p Hp.
    split; [exact (proj1 (List.Forall_forall _ _) Ha p Hp)|exact (proj2 (proj1 (List.Forall_forall _ _) Hf' p Hp))]. }
  simpl. lia.
Qed.

(** X11: below the parallel threshold and for a non-empty pattern, [count_pattern] counts the leftmost non-overlapping occurrences: there is a list of that many start positions, each an occurrence, each at least the pattern length after the previous one, such that every occurrence of the pattern starts inside one of the counted matches; so count times pattern length is at most the buffer length. *)
Theorem count_pattern_sequential (chunk_size parallel_threshold : nat) (data pattern : list Z)
    (Hne : pattern <> []) (Hth : length data < parallel_threshold) :
  exists ps,
    length ps = count_pattern chunk_size parallel_threshold data pattern /\
    (forall p, In p ps -> is_prefix pattern (skipn p data) = true) /\
    StronglySorted (fun a b => a + length pattern <= b) ps /\
    (forall q, is_prefix pattern (skipn q data) = true ->
               exists p, In p ps /\ p <= q < p + length pattern) /\
    count_pattern chunk_size parallel_threshold data pattern * length pattern <= length data.
Proof.
  assert (Hc : count_pattern chunk_size parallel_threshold data pattern
               = length (find_iter pattern data)).
  { unfold count_pattern. destruct (is_empty data) eqn:He.
    - unfold is_empty in He. apply Nat.eqb_eq, length_zero_iff_nil in He. subst. reflexivity.
    - assert (is_empty pattern = false) as ->.
      { unfold is_empty. apply Nat.eqb_neq. intros Hl. apply Hne, length_zero_iff_nil, Hl. }
      rewrite (proj2 (Nat.ltb_lt _ _) Hth). reflexivity. }
  exists (find_iter pattern data). rewrite Hc. unfold find_iter.
  assert (Hs : forall p, In p (find_iter_from pattern data 0 0) ->
                         is_prefix pattern (skipn p data) = true).
  { intros p Hin. destruct (find_iter_from_sound pattern Hne _ _ _ _ Hin) as [_ Hp].
    rewrite Nat.sub_0_r in Hp. exact Hp. }
  split; [reflexivity|]. split; [exact Hs|].
  split; [apply find_iter_from_sorted, Hne|]. split.
  - intros q Hq. apply (find_iter_from_complete pattern Hne data 0 0 q ltac:(lia) Hq).
  - replace (length data) with (length data - 0) by lia.
    apply gapped_length; [apply find_iter_from_sorted, Hne|].
    apply List.Forall_forall. intros p Hin. split; [lia|].
    pose proof (is_prefix_length _ _ (Hs p Hin)) as Hl. rewrite length_skipn in Hl.
    assert (p < length data \/ length data <= p) as [Hlt|Hge] by lia; [lia|].
    destruct pattern; [congruence|simpl in Hl; lia].
Qed.

Lemma count_pattern_sequential_witness :
  [97; 97]%Z <> [] /\ length [120; 97; 97; 97]%Z < 8 /\
  exists ps,
    length ps = count_pattern 4 8 [120; 97; 97; 97]%Z [97; 97]%Z /\
    (forall p, In p ps -> is_prefix [97; 97]%Z (skipn p [120; 97; 97; 97]%Z) = true) /\
    StronglySorted (fun a b => a + length [97; 97]%Z <= b) ps /\
    (forall q, is_prefix [97; 97]%Z (skipn q [120; 97; 97; 97]%Z) = true ->
               exists p, In p ps /\ p <= q < p + length [97; 97]%Z) /\
    count_pattern 4 8 [120; 97; 97; 97]%Z [97; 97]%Z * length [97; 97]%Z
      <= length [120; 97; 97; 97]%Z.
Proof.
  split; [discriminate|]. split; [simpl; lia|].
  apply (count_pattern_sequential 4 8 [120; 97; 97; 97]%Z [97; 97]%Z); [discriminate|simpl; lia].
Defined.

Lemma in_range_cont_land (lo hi b : Z) :
  (128 <= lo)%Z -> (hi <= 191)%Z -> in_range lo hi b = true -> Z.land b 192 = 128%Z.
Proof.
  intros Hlo Hhi H. unfold in_range in H. apply andb_prop in H as [H1 H2].
  apply Z.leb_le in H1. apply Z.leb_le in H2.
  assert (Hall : forallb (fun n => Z.eqb (Z.land (Z.of_nat n) 192) 128) (seq 128 64) = true)
    by (vm_compute; reflexivity).
  rewrite forallb_forall in Hall.
  specialize (Hall (Z.to_nat b)). rewrite Z2Nat.id in Hall by lia.
  apply Z.eqb_eq, Hall, in_seq. lia.
Qed.

(** A valid UTF-8 buffer cut before a byte that is not a continuation byte
    decodes piecewise. *)
Lemma from_utf8_app_split (x : list Z) :
  forall y t, from_utf8 (x ++ y) = Some t ->
  (forall c y', y = c :: y' -> Z.land c 192 <> 128%Z) ->
  exists tx ty, from_utf8 x = Some tx /\ from_utf8 y = Some ty /\ t = tx ++ ty.
Proof.
  induction x as [x IH] using (induction_ltof1 _ (@length Z)); unfold ltof in IH.
  intros y t Ht Hy. destruct x as [|b0 r0]; [exists [], t; auto|].
  cbn [app from_utf8] in Ht |- *.
  assert (Hc : forall lo hi c y', (128 <= lo)%Z -> (hi <= 191)%Z -> in_range lo hi c = true ->
                                  y = c :: y' -> False).
  { intros lo hi c y' Hlo Hhi Hr ->. exact (Hy c y' eq_refl (in_range_cont_land lo hi c Hlo Hhi Hr)). }
  assert (Hcont : forall c y', is_cont c = true -> y = c :: y' -> False).
  { intros c y'. apply Hc; lia. }
  destruct (b0 <? 128)%Z.
  { destruct (from_utf8 (r0 ++ y)) as [s|] eqn:E; [|discriminate].
    injection Ht as <-. destruct (IH r0 ltac:(simpl; lia) y s E Hy) as (tx & ty & E1 & E2 & ->).
    rewrite E1. exists (b0 :: tx), ty. auto. }
  destruct (in_range 194 223 b0).
  { destruct r0 as [|b1 r1]; cbn [app] in Ht |- *.
    - destruct y as [|b1 y']; [discriminate|].
      destruct (is_cont b1) eqn:Hb; [exfalso; exact (Hcont b1 y' Hb eq_refl)|discriminate].
    - destruct (is_cont b1); [|discriminate].
      destruct (from_utf8 (r1 ++ y)) as [s|] eqn:E; [|discriminate].
      injection Ht as <-. destruct (IH r1 ltac:(simpl; lia) y s E Hy) as (tx & ty & E1 & E2 & ->).
      rewrite E1. eexists _, ty. split; [reflexivity|]. auto. }
  destruct (in_range 224 239 b0).
  { destruct r0 as [|b1 [|b2 r2]]; cbn [app] in Ht |- *.
    - destruct y as [|b1 [|b2 y']]; try discriminate.
      destruct (_ && is_cont b2) eqn:Hb; [|discriminate].
      exfalso. apply andb_prop in Hb as [Hb _].
      destruct (b0 =? 224)%Z; [exact (Hc 160%Z 191%Z b1 _ ltac:(lia) ltac:(lia) Hb eq_refl)|].
      destruct (b0 =? 237)%Z; [exact (Hc 128%Z 159%Z b1 _ ltac:(lia) ltac:(lia) Hb eq_refl)|].
      exact (Hcont b1 _ Hb eq_refl).
    - destruct y as [|b2 y']; try discriminate.
      destruct (_ && is_cont b2) eqn:Hb; [|discriminate].
      exfalso. apply andb_prop in Hb as [_ Hb]. exact (Hcont b2 _ Hb eq_refl).
    - destruct (_ && is_cont b2); [|discriminate].
      destruct (from_utf8 (r2 ++ y)) as [s|] eqn:E; [|discriminate].
      injection Ht as <-. destruct (IH r2 ltac:(simpl; lia) y s E Hy) as (tx & ty & E1 & E2 & ->).
      rewrite E1. eexists _, ty. split; [reflexivity|]. auto. }
  destruct (in_range 240 244 b0); [|discriminate].
  destruct r0 as [|b1 [|b2 [|b3 r3]]]; cbn [app] in Ht |- *.
  - destruct y as [|b1 [|b2 [|b3 y']]]; try discriminate.
    destruct (_ && is_cont b2 && is_cont b3) eqn:Hb; [|discriminate].
    exfalso. apply andb_prop in Hb as [Hb _]. apply andb_prop in Hb as [Hb _].
    destruct (b0 =? 240)%Z; [exact (Hc 144%Z 191%Z b1 _ ltac:(lia) ltac:(lia) Hb eq_refl)|].
    destruct (b0 =? 244)%Z; [exact (Hc 128%Z 143%Z b1 _ ltac:(lia) ltac:(lia) Hb eq_refl)|].
    exact (Hcont b1 _ Hb eq_refl).
  - destruct y as [|b2 [|b3 y']]; try discriminate.
    destruct (_ && is_cont b2 && is_cont b3) eqn:Hb; [|discriminate].
    exfalso. apply andb_prop in Hb as [Hb _]. apply andb_prop in Hb as [_ Hb].
    exact (Hcont b2 _ Hb eq_refl).
  - destruct y as [|b3 y']; try discriminate.
    destruct (_ && is_cont b2 && is_cont b3) eqn:Hb; [|discriminate].
    exfalso. apply andb_prop in Hb as [_ Hb]. exact (Hcont b3 _ Hb eq_refl).
  - destruct (_ && is_cont b2 && is_cont b3); [|discriminate].
    destruct (from_utf8 (r3 ++ y)) as [s|] eqn:E; [|discriminate].
    injection Ht as <-. destruct (IH r3 ltac:(simpl; lia) y s E Hy) as (tx & ty & E1 & E2 & ->).
    rewrite E1. eexists _, ty. split; [reflexivity|]. auto.
Qed.

Lemma skipn_nth_cons (data : list Z) (b : nat) :
  b < length data -> skipn b data = nth b data 0%Z :: skipn (S b) data.
Proof.
  revert data. induction b as [|b IH]; intros [|d data] Hb; simpl in *; try lia; [reflexivity|].
  apply IH. lia.
Qed.

Lemma sum_chars_utf8_plan (data : list Z) :
  forall bs a t,
  StronglySorted lt (a :: bs) -> last (a :: bs) = Some (length data) ->
  (forall o, In o bs -> o < length data -> utf8_aligned data o) ->
  from_utf8 (skipn a data) = Some t ->
  sum_nat (map chars_or_len (map (fun '(a, b) => slice data a b) (windows2 (a :: bs))))
  = length t.
Proof.
  induction bs as [|b bs IH]; intros a t Hs Hl Ha Ht.
  - simpl in Hl. injection Hl as ->. rewrite skipn_all in Ht. injection Ht as <-. reflexivity.
  - pose proof (StronglySorted_le_last _ _ Hs Hl) as Hle.
    inversion Hs as [|? ? Hs' Hfa]; subst. inversion Hfa as [|? ? Hab _]; subst.
    assert (Hb : b <= length data) by (apply Hle; right; left; reflexivity).
    change (windows2 (a :: b :: bs)) with ((a, b) :: windows2 (b :: bs)).
    cbn [map sum_nat fold_right].
    fold (sum_nat (map chars_or_len (map (fun '(a, b) => slice data a b) (windows2 (b :: bs))))).
    rewrite <- (slice_app_skipn data a b) in Ht by lia.
    destruct (from_utf8_app_split (slice data a b) (skipn b data) t Ht) as (tx & ty & E1 & E2 & ->).
    { intros c y' Hy. destruct (Nat.lt_ge_cases b (length data)) as [Hlt|Hge].
      - rewrite skipn_nth_cons in Hy by exact Hlt. injection Hy as <- _.
        specialize (Ha b ltac:(left; reflexivity) Hlt). unfold utf8_aligned, continuation_at in Ha.
        apply Z.eqb_neq in Ha. exact Ha.
      - rewrite skipn_all2 in Hy by lia. discriminate. }
    rewrite (IH b ty); [|exact Hs'| |intros o Ho; apply Ha; right; exact Ho|exact E2].
    + unfold chars_or_len at 1. rewrite E1, length_app. reflexivity.
    + destruct bs; [exact Hl|rewrite last_cons_cons in Hl; exact Hl].
Qed.

(** X12: on a valid UTF-8 buffer, [count_chars] returns the number of decoded characters for every chunk size and threshold: the UTF-8 plan cuts only before non-continuation bytes, so every chunk decodes and the chunk counts add up. *)
Theorem count_chars_valid_utf8 (chunk_size parallel_threshold : nat) (data text : list Z)
    (H : from_utf8 data = Some text) :
  count_chars chunk_size parallel_threshold data = length text.
Proof.
  unfold count_chars. destruct (is_empty data) eqn:He.
  - unfold is_empty in He. apply Nat.eqb_eq, length_zero_iff_nil in He. subst.
    injection H as <-. reflexivity.
  - assert (Hne : data <> []) by (intros ->; discriminate).
    destruct (length data <? parallel_threshold).
    + unfold chars_or_len. rewrite H. reflexivity.
    + unfold utf8_chunks.
      destruct (find_utf8_chunk_boundaries_shape data chunk_size Hne) as ((Hs & Hh & Hl) & Ha).
      destruct (find_utf8_chunk_boundaries data chunk_size) as [|a bs]; [discriminate|].
      simpl in Hh. injection Hh as ->.
      apply sum_chars_utf8_plan; [exact Hs|exact Hl| |exact H].
      intros o Ho Hlt. destruct (Ha o ltac:(right; exact Ho) Hlt) as [->|Hal]; [|exact Hal].
      inversion Hs as [|? ? _ Hf]; subst.
      exfalso. pose proof (proj1 (List.Forall_forall _ _) Hf 0 Ho). lia.
Qed.

Lemma count_chars_valid_utf8_witness :
  from_utf8 [97; 195; 169; 98; 226; 130; 172]%Z = Some [97; 233; 98; 8364]%Z /\
  count_chars 2 3 [97; 195; 169; 98; 226; 130; 172]%Z = length [97; 233; 98; 8364]%Z.
Proof.
  split; [vm_compute; reflexivity|].
  apply (count_chars_valid_utf8 2 3 _ [97; 233; 98; 8364]%Z). vm_compute. reflexivity.
Defined.

Lemma split_first_lf (d : list Z) :
  In LF d -> exists l1 l2, d = l1 ++ LF :: l2 /\ ~ In LF l1.
Proof.
  induction d as [|b d IH]; intros Hin; [contradiction|].
  destruct (Z.eq_dec b LF) as [->|Hne].
  - exists [], d. split; [reflexivity|intros []].
  - destruct Hin as [->|Hin]; [congruence|].
    destruct (IH Hin) as (l1 & l2 & -> & Hn).
    exists (b :: l1), l2. split; [reflexivity|]. intros [->|H]; [congruence|exact (Hn H)].
Qed.

Lemma last_app_cons' (l1 l2 : list Z) (a : Z) :
  last (l1 ++ a :: l2) = last (a :: l2).
Proof.
  induction l1 as [|b l1 IH]; [reflexivity|].
  rewrite <- app_comm_cons. destruct (l1 ++ a :: l2) eqn:E; [destruct l1; discriminate|].
  rewrite last_cons_cons. exact IH.
Qed.

Lemma fold_line_lengths_count (d : list Z) :
  forall a, fold_line_lengths (fun n (_ : nat) => S n) a d
            = a + count_occ Z.eq_dec d LF + unterminated d.
Proof.
  induction d as [d IH] using (induction_ltof1 _ (@length Z)); unfold ltof in IH. intros a.
  destruct (in_dec Z.eq_dec LF d) as [Hin|Hn].
  - destruct (split_first_lf d Hin) as (l1 & l2 & -> & Hn1).
    replace (l1 ++ LF :: l2) with ((l1 ++ [LF]) ++ l2) by (rewrite <- app_assoc; reflexivity).
    rewrite fold_line_lengths_app by (right; exists l1; reflexivity).
    assert (fold_line_lengths (fun n (_ : nat) => S n) a (l1 ++ [LF]) = S a) as ->.
    { unfold fold_line_lengths, memchr_iter. rewrite memchr_iter_from_app.
      rewrite (proj2 (memchr_iter_from_nil_iff LF l1 0) Hn1). simpl.
      rewrite length_app, Nat.add_1_r, Nat.ltb_irrefl. reflexivity. }
    rewrite IH by (rewrite !length_app; simpl; lia).
    rewrite <- app_assoc. cbn [app]. rewrite count_occ_app.
    rewrite (proj1 (count_occ_not_In Z.eq_dec l1 LF) Hn1).
    cbn [count_occ]. destruct (Z.eq_dec LF LF) as [_|]; [|congruence].
    unfold unterminated. rewrite last_app_cons'.
    destruct l2 as [|c l2]; [simpl; unfold LF; simpl; lia|].
    rewrite last_cons_cons. lia.
  - unfold fold_line_lengths, memchr_iter.
    rewrite (proj2 (memchr_iter_from_nil_iff LF d 0) Hn). simpl.
    rewrite (proj1 (count_occ_not_In Z.eq_dec d LF) Hn).
    unfold unterminated. destruct d as [|b d]; [simpl; lia|].
    assert (Hl : exists c, last (b :: d) = Some c /\ c <> LF).
    { destruct (last (b :: d)) as [c|] eqn:E.
      - exists c. split; [reflexivity|]. intros ->.
        apply last_Some in E. destruct E as [l' E]. apply Hn. rewrite E.
        apply in_or_app. right. left. reflexivity.
      - apply last_None in E. discriminate. }
    destruct Hl as (c & -> & Hc). rewrite (proj2 (Z.eqb_neq c LF) Hc).
    simpl. lia.
Qed.

Lemma map_fold_sum_insert (m : gmap nat nat) (i x : nat) :
  m !! i = None ->
  map_fold (fun _ n acc => n + acc) 0 (<[i:=x]> m) = x + map_fold (fun _ n acc => n + acc) 0 m.
Proof. intros H. apply map_fold_insert_L; [intros; lia|exact H]. Qed.

Lemma entry_add_total (h : gmap nat nat) (b c : nat) :
  map_fold (fun _ n acc => n + acc) 0 (entry_add h b c)
  = c + map_fold (fun _ n acc => n + acc) 0 h.
Proof.
  unfold entry_add. destruct (h !! b) as [v|] eqn:E; simpl.
  - rewrite <- insert_delete_eq.
    rewrite <- (insert_id h b v E) at 2. rewrite <- (insert_delete_eq h b v).
    rewrite !map_fold_sum_insert by apply lookup_delete_eq. lia.
  - rewrite map_fold_sum_insert by exact E. reflexivity.
Qed.

Lemma histogram_fold_total (l : list nat) :
  forall h, map_fold (fun _ n acc => n + acc) 0
              (fold_left (fun h l => entry_add h ((l / 10) * 10) 1) l h)
            = length l + map_fold (fun _ n acc => n + acc) 0 h.
Proof.
  induction l as [|x l IH]; intros h; cbn [fold_left length]; [reflexivity|].
  rewrite IH, entry_add_total. lia.
Qed.

Lemma histogram_fold_entries (L : list nat) :
  forall l h, incl l L ->
  (forall k n, h !! k = Some n -> 0 < n /\ exists x, In x L /\ k = (x / 10) * 10) ->
  forall k n, fold_left (fun h l => entry_add h ((l / 10) * 10) 1) l h !! k = Some n ->
  0 < n /\ exists x, In x L /\ k = (x / 10) * 10.
Proof.
  induction l as [|x l IH]; intros h Hincl Hh; cbn [fold_left]; [exact Hh|].
  apply IH; [intros y Hy; apply Hincl; right; exact Hy|].
  intros k n Hk. rewrite entry_add_lookup in Hk.
  destruct (decide ((x / 10) * 10 = k)) as [<-|Hne].
  - injection Hk as <-. split; [lia|]. exists x. split; [apply Hincl; left; reflexivity|reflexivity].
  - exact (Hh k n Hk).
Qed.

Lemma list_max_ge (l : list nat) (x : nat) : In x l -> x <= list_max l.
Proof.
  induction l as [|y l IH]; intros Hin; [contradiction|].
  unfold list_max in *. simpl. destruct Hin as [->|Hin]; [lia|]. specialize (IH Hin). lia.
Qed.

Lemma merge_sort_last_max (l : list nat) :
  l <> [] -> nth (length (merge_sort (≤) l) - 1) (merge_sort (≤) l) 0 = list_max l.
Proof.
  intros Hne.
  assert (Hperm : merge_sort (≤) l ≡ₚ l) by apply merge_sort_Permutation.
  assert (Hsorted : StronglySorted le (merge_sort (≤) l))
    by (apply StronglySorted_merge_sort; [exact Nat.le_trans|intros x y; lia]).
  assert (Hsn : merge_sort (≤) l <> [])
    by (intros Hs; apply Hne, Permutation_nil; rewrite <- Hs; exact Hperm).
  destruct (sorted_bounds _ Hsorted Hsn) as (_ & Hin & Hbd).
  set (m := nth (length (merge_sort (≤) l) - 1) (merge_sort (≤) l) 0) in *.
  assert (Hin' : forall x, In x l <-> In x (merge_sort (≤) l))
    by (intros x; split; apply Permutation_in; [symmetry|]; exact Hperm).
  apply Nat.le_antisymm.
  - apply list_max_ge, Hin', Hin.
  - assert (forall l', incl l' l -> list_max l' <= m) as H.
    { induction l' as [|y l' IH]; intros Hi; [unfold list_max; simpl; lia|].
      unfold list_max in *. simpl.
      assert (y <= m) by (apply Hbd, Hin', Hi; left; reflexivity).
      assert (fold_right Nat.max 0 l' <= m) by (apply IH; intros z Hz; apply Hi; right; exact Hz).
      lia. }
    apply H. intros z Hz; exact Hz.
Qed.

(** X13: the line records agree across the line statistics: their number is [count_lines] plus one when the buffer ends in an unterminated record; [max_line_length] is their maximum; the histogram counts add up to their number; every bucket key is a multiple of 10 (bucket 0 included) holding a positive count, and no key exceeds [max_line_length]; and for a non-empty buffer the statistics' maximum equals [max_line_length]. This holds for every positive chunk size and every threshold. *)
Theorem line_records_consistent (chunk_size parallel_threshold : nat) (data : list Z)
    (Hcs : 0 < chunk_size) :
  let ls := collect_line_lengths_chunk data in
  let h := generate_histogram chunk_size parallel_threshold data in
  length ls = count_lines chunk_size parallel_threshold data + unterminated data /\
  max_line_length chunk_size parallel_threshold data = list_max ls /\
  map_fold (fun _ n acc => n + acc) 0 h = length ls /\
  (forall k n, h !! k = Some n ->
     k mod 10 = 0 /\ 0 < n /\ k <= max_line_length chunk_size parallel_threshold data) /\
  (data <> [] ->
   Stats.max_line_length (calculate_statistics chunk_size parallel_threshold data)
   = max_line_length chunk_size parallel_threshold data).
Proof.
  intros ls h.
  assert (Hmax : max_line_length chunk_size parallel_threshold data = list_max ls).
  { rewrite max_line_length_sequential. apply max_line_length_chunk_collect. }
  assert (Hh : h = histogram_of_lengths ls).
  { unfold h. rewrite generate_histogram_sequential. apply generate_histogram_chunk_collect. }
  split.
  { rewrite count_lines_sequential by exact Hcs. rewrite memchr_iter_count_occ.
    pose proof (fold_line_lengths_count data 0) as Hc.
    rewrite fold_line_lengths_collect in Hc.
    assert (forall l a, fold_left (fun n (_ : nat) => S n) l a = a + length l) as Hf.
    { induction l as [|x l IH]; intros a'; simpl; [lia|]. rewrite IH. lia. }
    rewrite Hf in Hc. unfold ls. lia. }
  split; [exact Hmax|]. split.
  { rewrite Hh. unfold histogram_of_lengths. rewrite histogram_fold_total, map_fold_empty. lia. }
  split.
  - intros k n Hk. rewrite Hh in Hk. unfold histogram_of_lengths in Hk.
    destruct (histogram_fold_entries ls ls ∅ (fun x Hx => Hx)
                ltac:(intros k' n' Hk'; rewrite lookup_empty in Hk'; discriminate) k n Hk)
      as [Hn (x & Hx & ->)].
    split; [rewrite Nat.Div0.mod_mul; lia|]. split; [exact Hn|].
    rewrite Hmax. pose proof (list_max_ge ls x Hx). pose proof (Nat.Div0.mul_div_le x 10). lia.
  - intros Hne. rewrite calculate_statistics_lengths by exact Hne. rewrite Hmax.
    fold ls. destruct ls as [|l0 ls'] eqn:E.
    + reflexivity.
    + rewrite <- E. rewrite <- (merge_sort_last_max ls) by (rewrite E; discriminate).
      rewrite E. reflexivity.
Qed.

Lemma line_records_consistent_witness :
  0 < 2 /\
  (let ls := collect_line_lengths_chunk ([97; 10; 10] ++ repeat 98%Z 12 ++ [13; 10; 99])%Z in
   let h := generate_histogram 2 1 ([97; 10; 10] ++ repeat 98%Z 12 ++ [13; 10; 99])%Z in
   length ls = count_lines 2 1 ([97; 10; 10] ++ repeat 98%Z 12 ++ [13; 10; 99])%Z
               + unterminated ([97; 10; 10] ++ repeat 98%Z 12 ++ [13; 10; 99])%Z /\
   max_line_length 2 1 ([97; 10; 10] ++ repeat 98%Z 12 ++ [13; 10; 99])%Z = list_max ls /\
   map_fold (fun _ n acc => n + acc) 0 h = length ls /\
   (forall k n, h !! k = Some n ->
      k mod 10 = 0 /\ 0 < n /\ k <= max_line_length 2 1 ([97; 10; 10] ++ repeat 98%Z 12 ++ [13; 10; 99])%Z) /\
   (([97; 10; 10] ++ repeat 98%Z 12 ++ [13; 10; 99])%Z <> [] ->
    Stats.max_line_length (calculate_statistics 2 1 ([97; 10; 10] ++ repeat 98%Z 12 ++ [13; 10; 99])%Z)
    = max_line_length 2 1 ([97; 10; 10] ++ repeat 98%Z 12 ++ [13; 10; 99])%Z)).
Proof.
  split; [lia|]. apply (line_records_consistent 2 1 _). lia.
Defined.

Lemma split_whitespace_head (t : list Z) :
  exists w ws, split_whitespace t = w :: ws /\ (w = [] <-> starts_word is_whitespace t = 0).
Proof.
  induction t as [|c t IH]; [exists [], []; split; [reflexivity|tauto]|].
  cbn [split_whitespace starts_word]. destruct (is_whitespace c).
  - exists [], (split_whitespace t). split; [reflexivity|tauto].
  - destruct IH as (w & ws & -> & _). exists (c :: w), ws. split; [reflexivity|].
    split; discriminate.
Qed.

Lemma count_words_loop_split (t : list Z) :
  forall c,
  count_words_loop is_whitespace t false c
  = c + length (filter (fun w : list Z => w <> []) (split_whitespace t)) /\
  count_words_loop is_whitespace t true c
  = c + length (filter (fun w : list Z => w <> []) (split_whitespace t))
    - starts_word is_whitespace t /\
  starts_word is_whitespace t <= length (filter (fun w : list Z => w <> []) (split_whitespace t)).
Proof.
  induction t as [|x t IH]; intros c; [simpl; lia|].
  cbn [count_words_loop split_whitespace starts_word].
  destruct (is_whitespace x) eqn:Hx.
  - rewrite filter_cons_False by tauto. destruct (IH c) as (H1 & _ & _). lia.
  - destruct (split_whitespace_head t) as (w & ws & Ew & Hw). rewrite Ew in *.
    rewrite filter_cons_True by discriminate.
    cbn [negb]. destruct (IH (S c)) as (_ & H2 & H3). destruct (IH c) as (_ & H2' & _).
    rewrite H2, H2'. cbn [length].
    destruct (decide (w = [])) as [->|Hne].
    + rewrite filter_cons_False in * by tauto.
      assert (starts_word is_whitespace t = 0) by (apply Hw; reflexivity). lia.
    + rewrite filter_cons_True in * by exact Hne. cbn [length] in *.
      assert (starts_word is_whitespace t <> 0) by (intros H; apply Hne, Hw, H).
      destruct t as [|y t]; [simpl in *; lia|]. cbn [starts_word] in *.
      destruct (is_whitespace y); [lia|]. lia.
Qed.

Lemma size_list_to_set_le (l : list (list Z)) :
  size (list_to_set l : gset (list Z)) <= length l.
Proof.
  induction l as [|x l IH]; cbn [list_to_set length]; [rewrite size_empty; lia|].
  rewrite size_union_alt, size_singleton.
  pose proof (subseteq_size (list_to_set l ∖ {[x]} : gset (list Z)) (list_to_set l)
                ltac:(set_solver)). lia.
Qed.

(** X14: below the parallel threshold, on valid UTF-8, [count_all_words] is the number of non-empty pieces of the text split at Unicode whitespace, [count_unique_words] is at most [count_all_words], and it is positive when [count_all_words] is. *)
Theorem unique_words_sequential (chunk_size parallel_threshold : nat) (data text : list Z)
    (H : from_utf8 data = Some text) (Hth : length data < parallel_threshold) :
  count_all_words chunk_size parallel_threshold data
  = length (filter (fun w : list Z => w <> []) (split_whitespace text)) /\
  count_unique_words chunk_size parallel_threshold data
  <= count_all_words chunk_size parallel_threshold data /\
  (0 < count_all_words chunk_size parallel_threshold data ->
   0 < count_unique_words chunk_size parallel_threshold data).
Proof.
  assert (Hw : count_all_words chunk_size parallel_threshold data
               = length (filter (fun w : list Z => w <> []) (split_whitespace text))).
  { unfold count_all_words. destruct (is_empty data) eqn:He.
    - unfold is_empty in He. apply Nat.eqb_eq, length_zero_iff_nil in He. subst.
      injection H as <-. reflexivity.
    - rewrite (proj2 (Nat.ltb_lt _ _) Hth). unfold count_words_in_chunk. rewrite H.
      destruct (count_words_loop_split text 0) as (H1 & _ & _). exact H1. }
  assert (Hu : count_unique_words chunk_size parallel_threshold data
               = size (word_set text)).
  { unfold count_unique_words. rewrite H, (proj2 (Nat.ltb_lt _ _) Hth). reflexivity. }
  rewrite Hw, Hu. unfold word_set. split; [reflexivity|]. split; [apply size_list_to_set_le|].
  intros Hpos.
  destruct (filter (fun w : list Z => w <> []) (split_whitespace text)) as [|w ws]; [simpl in Hpos; lia|].
  cbn [list_to_set]. rewrite size_union_alt, size_singleton. lia.
Qed.

Lemma unique_words_sequential_witness :
  from_utf8 (bytes_of "to be or not to be") = Some (bytes_of "to be or not to be") /\
  length (bytes_of "to be or not to be") < 64 /\
  count_all_words 8 64 (bytes_of "to be or not to be")
  = length (filter (fun w : list Z => w <> []) (split_whitespace (bytes_of "to be or not to be"))) /\
  count_unique_words 8 64 (bytes_of "to be or not to be")
  <= count_all_words 8 64 (bytes_of "to be or not to be") /\
  (0 < count_all_words 8 64 (bytes_of "to be or not to be") ->
   0 < count_unique_words 8 64 (bytes_of "to be or not to be")).
Proof.
  assert (Hd : from_utf8 (bytes_of "to be or not to be") = Some (bytes_of "to be or not to be"))
    by (vm_compute; reflexivity).
  split; [exact Hd|]. split; [vm_compute; lia|].
  apply (unique_words_sequential 8 64 _ _ Hd). vm_compute. lia.
Defined.
